(** * hy.macros: macro namespaces, [require] and [macroexpand]

    A shallow embedding of [src/hy/macros.py].  Python objects that the
    code mutates in place (macro dictionaries, the compiler) live in an
    explicit store, the [world]; every function that touches them threads
    the world and returns either a value or the exception it raised.

    Code of the [hy] package that is imported by [macros.py] but is not
    part of it ([mangle], [as_model], [replace_hy_obj], the truth value of
    an object, the import system, the file system, the bodies of the
    macros themselves) is taken as a parameter of the development. *)

From Stdlib Require Import String Ascii List Bool Arith ZArith Lia.
From stdpp Require Import base option list gmap strings.

Local Open Scope string_scope.
Local Open Scope list_scope.
#[local] Set Warnings "-register-all".

(** ** Syntax trees *)

(** What can stand in a tree position: the model classes the code tests
    for ([Symbol], [Expression]), the other model classes, and Python
    values that are not models (a macro may return any object). *)
Inductive model : Type :=
| Symbol (name : string)
| Keyword (name : string)
| Str (s : string)
| Integer (n : Z)
| Expression (items : list model)
| HyList (items : list model)
| PyObject (repr : string).

(** A compiled result: what [isinstance(obj, (hy.compiler.Result, AST))]
    accepts. *)
Inductive compiled : Type :=
| Result (tag : string)
| AST (tag : string).

(** What [macroexpand] hands back: a tree or a compiled result. *)
Inductive value : Type :=
| VTree (t : model)
| VCompiled (r : compiled).

(** ** Macro tables *)

(** A macro definition is a function object; the store refers to it by
    identity.  Function objects are always truthy, which is what
    [if not m] and the [or] of the resolver rely on. *)
Definition macro := nat.

(** A Python [dict] from names to macros, in insertion order. *)
Definition table := list (string * macro).

Fixpoint dict_get (d : table) (k : string) : option macro :=
  match d with
  | [] => None
  | (k', v) :: d' => if String.eqb k k' then Some v else dict_get d' k
  end.

(** [k in d] *)
Definition dict_in (k : string) (d : table) : bool :=
  match dict_get d k with Some _ => true | None => false end.

(** [d[k] = v]: an existing key keeps its position, a new key goes last. *)
Fixpoint dict_set (d : table) (k : string) (v : macro) : table :=
  match d with
  | [] => [(k, v)]
  | (k', v') :: d' =>
      if String.eqb k k' then (k', v) :: d' else (k', v') :: dict_set d' k v
  end.

Definition dict_keys (d : table) : list string := map fst d.

(** ** Python values the entry points receive *)

(** A module object.  Its name and file are fixed at import; the
    [_hy_macros] attribute is mutable and lives in the store.  A module
    may lack the attribute [__file__] (built-in modules do), or have it
    set to [None] (namespace packages do). *)
Record module : Type := mkModule {
  mod_id : nat;                               (* object identity *)
  mod_name : string;                          (* __name__ *)
  mod_file : option (option string);          (* __file__: absent, or its value *)
  mod_export_macros : option (list string)    (* _hy_export_macros, if declared *)
}.

Definition loc := nat.

(** The dynamically typed arguments [source_module], [target], [module]. *)
Inductive pyval : Type :=
| PNone
| PStr (s : string)
| PModule (m : module)
| PDict (d : loc).

(** [assignments]: "ALL", "EXPORTS", or a list of (name, alias) pairs. *)
Inductive assignments : Type :=
| ALL
| EXPORTS
| Explicit (pairs : list (string * string)).

(** The [compiler] argument: [None] or the compiler object. *)
Inductive compiler_arg : Type :=
| NoCompiler
| TheCompiler.

Definition compiler_given (c : compiler_arg) : bool :=
  match c with NoCompiler => false | TheCompiler => true end.

(** ** Exceptions *)

(** An exception raised by code outside this file (a macro body, the
    import machinery, the model constructors).  [exc_is_language_error] is
    [issubclass(exc_type, HyLanguageError)], [exc_is_require_error] is
    [isinstance(e, HyRequireError)], which is what [except HyRequireError]
    tests; [exc_lines] is what [traceback.format_exception_only] yields. *)
Record py_exception : Type := mkExc {
  exc_class : string;
  exc_is_language_error : bool;
  exc_is_require_error : bool;
  exc_lines : list string
}.

Inductive error : Type :=
| Propagated (e : py_exception)
| HyMacroExpansionError (msg : string) (expr : model)
                        (filename source : option string)
| HyRequireError (msg : string)
| HyTypeError (msg : string)
| ImportError (msg : string)
| AssertionError
| AttributeError
| TypeError
| RuntimeError (msg : string).

(** [isinstance(e, HyRequireError)] *)
Definition is_require_error (e : error) : bool :=
  match e with
  | HyRequireError _ => true
  | Propagated x => exc_is_require_error x
  | _ => false
  end.

(** ** The store *)

(** One entry of [compiler.local_state_stack]: a dict whose ['macros']
    item is a macro dictionary. *)
Record scope : Type := mkScope { scope_macros : loc }.

(** The fields of the compiler object that this file reads or writes.
    [c_core_shadow_calls] records the arguments of the calls to
    [compiler.warn_on_core_shadow]. *)
Record compiler : Type := mkCompiler {
  c_module : nat;
  c_filename : option string;
  c_source : option string;
  c_this : option model;
  c_local_state_stack : list scope;
  c_core_shadow_calls : list string
}.

Record world : Type := mkWorld {
  w_dicts : gmap loc table;       (* every dict object *)
  w_next : loc;                   (* next free location *)
  w_hy_macros : gmap nat loc;     (* module id -> its _hy_macros attribute *)
  w_compiler : compiler
}.

(** Every reference a live Python object holds points to an allocated
    dict; a location outside the store reads as the empty dict, so that
    the accessors are total. *)
Definition dict_at (w : world) (l : loc) : table :=
  default [] (w_dicts w !! l).

Definition set_dict (l : loc) (d : table) (w : world) : world :=
  mkWorld (<[l := d]> (w_dicts w)) (w_next w) (w_hy_macros w) (w_compiler w).

(** [getattr(mod, "_hy_macros", ())] *)
Definition hy_macros_of (w : world) (m : module) : table :=
  match w_hy_macros w !! mod_id m with
  | Some l => dict_at w l
  | None => []
  end.

Definition set_compiler (c : compiler) (w : world) : world :=
  mkWorld (w_dicts w) (w_next w) (w_hy_macros w) c.

(** [compiler.this = tree] *)
Definition set_this (tree : model) (w : world) : world :=
  let c := w_compiler w in
  set_compiler
    (mkCompiler (c_module c) (c_filename c) (c_source c) (Some tree)
                (c_local_state_stack c) (c_core_shadow_calls c)) w.

(** The [builtins] module of the interpreter. *)
Definition builtins : module := mkModule 0 "builtins" None None.

(** What a macro body does when called: it returns an object, which is a
    compiled result or anything else, or it raises. *)
Inductive returned : Type :=
| RModel (obj : model)
| RCompiled (r : compiled).

Inductive macro_outcome : Type :=
| Returns (obj : returned)
| Raises (e : py_exception).

(** How the [while] loop of [macroexpand] is left. *)
Inductive loop_exit : Type :=
| LoopDone (tree : model)      (* condition false, [break], or [once] *)
| LoopReturn (v : value)       (* the [return] inside the loop *)
| LoopRaise (e : error).

(** What [importlib.import_module] does. *)
Inductive import_result : Type :=
| Imported (m : module)
| ImportFails (arg0 : string)        (* ImportError, with its args[0] *)
| ImportRaises (e : py_exception).   (* any other exception *)

(** What [importlib.util.find_spec] does on a string. *)
Inductive find_spec_result : Type :=
| FindSpecError                       (* raises ValueError or ImportError *)
| NoSpec                              (* returns None *)
| Spec (source_file_loader : bool)    (* isinstance(spec.loader, SourceFileLoader) *)
       (filename : string).           (* spec.loader.get_filename() *)

(** What [get_filename] inside [_same_modules] does: it returns a path or
    [None], raises what the caller catches, or raises something else. *)
Inductive filename_result : Type :=
| Filename (f : option string)
| FilenameCaught
| FilenameRaises (e : error).

Definition newline : string := String (ascii_of_nat 10) EmptyString.

(** ** Computations on the store *)

(** A computation reads and updates the store and ends with a value or
    with the exception it raised; the store keeps what was written before
    the exception. *)
Definition M (A : Type) : Type := world -> (error + A) * world.

Definition ret {A : Type} (a : A) : M A := fun w => (inr a, w).

Definition raise {A : Type} (e : error) : M A := fun w => (inl e, w).

Definition bind {A B : Type} (c : M A) (k : A -> M B) : M B :=
  fun w =>
    match c w with
    | (inl e, w') => (inl e, w')
    | (inr a, w') => k a w'
    end.

Definition get_world : M world := fun w => (inr w, w).

(** A step that reads but does not write. *)
Definition lift {A : Type} (r : error + A) : M A := fun w => (r, w).

Notation "x <- c ;; k" := (bind c (fun x => k))
  (at level 100, c at next level, right associativity).

Section Macros.

(** *** Parameters: code outside [macros.py] *)

(** [hy.reader.mangle] begins with [assert s] and then works on [str(s)]:
    this is what it makes of the text of a truthy argument. *)
Variable mangle : string -> string.
(** [str(x)] for a model that is not itself a string. *)
Variable py_str : model -> string.
(** [bool(x)] for an object of a class whose truth value is not that of
    a string, a number or a sequence. *)
Variable py_bool : model -> bool.
(** [hy.models.as_model] and [hy.models.replace_hy_obj]: they return a
    model or raise (a [HyWrapperError] for what they cannot wrap). *)
Variable as_model : model -> py_exception + model.
Variable replace_hy_obj : model -> model -> py_exception + model.
(** [m(compiler, *args)]: the body of macro [m].  It may mutate anything
    it can reach, so it maps the store to a new store. *)
Variable call_macro :
  macro -> compiler_arg -> list model -> world -> macro_outcome * world.
(** [importlib.import_module(name, package)]. *)
Variable import_module : string -> option string -> import_result.

(** [Symbol] is a [str] subclass: its text is its name. *)
Definition str_of (x : model) : string :=
  match x with
  | Symbol s => s
  | _ => py_str x
  end.

(** ** mangle and its assertion *)

(** [bool(x)]: [Symbol] and [String] are [str] subclasses, [Integer] is
    an [int] subclass, [Expression] and [List] are tuples. *)
Definition model_truthy (x : model) : bool :=
  match x with
  | Symbol s | Str s => negb (String.eqb s "")
  | Integer n => negb (Z.eqb n 0)
  | Expression items | HyList items =>
      match items with [] => false | _ :: _ => true end
  | Keyword _ | PyObject _ => py_bool x
  end.

(** [mangle(x)] for an object [x]: [assert x], then the text. *)
Definition mangle_model (x : model) : error + string :=
  if model_truthy x then inr (mangle (str_of x)) else inl AssertionError.

(** [mangle(s)] for a string [s]. *)
Definition mangle_str (s : string) : error + string :=
  if String.eqb s "" then inl AssertionError else inr (mangle s).

(** [map(mangle, xs)], consumed from the left. *)
Fixpoint mangle_all (xs : list model) : error + list string :=
  match xs with
  | [] => inr []
  | x :: xs' =>
      match mangle_model x with
      | inl e => inl e
      | inr s =>
          match mangle_all xs' with
          | inl e => inl e
          | inr ss => inr (s :: ss)
          end
      end
  end.

(** ** The namespace resolver (macroexpand, lines 362-382) *)

(** The name looked up for a head [fn = tree[0]]: [inr None] where the
    code takes the [else: break] branch, [inl] where [mangle] raises.
    Models of different classes are never equal, so [fn[0] == Symbol(".")]
    holds for the symbol "." only. *)
Definition head_name (fn : model) : error + option string :=
  match fn with
  | Expression (Symbol s :: rest) =>
      if String.eqb s "." then
        match mangle_all rest with
        | inl e => inl e
        | inr names => inr (Some (String.concat "." names))
        end
      else inr None
  | Symbol _ =>
      match mangle_model fn with
      | inl e => inl e
      | inr name => inr (Some name)
      end
  | _ => inr None
  end.

(** [next((d['macros'][fn] for d in ds if fn in d['macros']), None)] *)
Fixpoint first_scope_binding (w : world) (fn : string) (ds : list scope)
  : option macro :=
  match ds with
  | [] => None
  | d :: ds' =>
      match dict_get (dict_at w (scope_macros d)) fn with
      | Some m => Some m
      | None => first_scope_binding w fn ds'
      end
  end.

(** [next((mod._hy_macros[fn] for mod in mods
           if fn in getattr(mod, "_hy_macros", ())), None)] *)
Fixpoint first_module_binding (w : world) (fn : string) (mods : list module)
  : option macro :=
  match mods with
  | [] => None
  | md :: mods' =>
      match dict_get (hy_macros_of w md) fn with
      | Some m => Some m
      | None => first_module_binding w fn mods'
      end
  end.

(** "Choose the first namespace with the macro." *)
Definition resolve_macro (compiler : compiler_arg) (module_ : module)
    (fn : string) (w : world) : option macro :=
  match
    (if compiler_given compiler
     then first_scope_binding w fn (rev (c_local_state_stack (w_compiler w)))
     else None)
  with
  | Some m => Some m
  | None => first_module_binding w fn [module_; builtins]
  end.

(** ** MacroExceptions.__exit__ *)

(** The exception that leaves the [with] block when the body raised [e];
    [macro_tree] is [Expression (fn :: args)]. *)
Definition MacroExceptions_exit (fn : model) (args : list model)
    (compiler : compiler_arg) (e : py_exception) (w : world) : error :=
  if exc_is_language_error e then Propagated e
  else
    let filename :=
      if compiler_given compiler then c_filename (w_compiler w) else None in
    let source :=
      if compiler_given compiler then c_source (w_compiler w) else None in
    let exc_msg := String.concat "  " (exc_lines e) in
    let msg := "expanding macro " +:+ str_of fn +:+ newline +:+ "  " in
    HyMacroExpansionError (msg +:+ exc_msg) (Expression (fn :: args))
                          filename source.

(** ** macroexpand *)

(** [if compiler: compiler.this = tree] *)
Definition enter_macro (compiler : compiler_arg) (tree : model) (w : world)
  : world :=
  if compiler_given compiler then set_this tree w else w.

Section Loop.

Variable module_ : module.
Variable compiler : compiler_arg.
Variables once result_ok : bool.

(** The [with MacroExceptions(module, tree, compiler)] block, lines
    384-391, for the call form [tree = Expression (fn :: args)]: it leaves
    the loop ([inl]) or yields the next tree ([inr]).  An exception of
    [replace_hy_obj] is raised inside the block, like one of the macro. *)
Definition invoke (m : macro) (fn : model) (args : list model) (w : world)
  : (loop_exit + model) * world :=
  let tree := Expression (fn :: args) in
  match call_macro m compiler args (enter_macro compiler tree w) with
  | (Raises e, w2) =>
      (inl (LoopRaise (MacroExceptions_exit fn args compiler e w2)), w2)
  | (Returns (RCompiled r), w2) =>
      (inl (LoopReturn (if result_ok then VCompiled r else VTree tree)), w2)
  | (Returns (RModel obj), w2) =>
      match replace_hy_obj obj tree with
      | inl e =>
          (inl (LoopRaise (MacroExceptions_exit fn args compiler e w2)), w2)
      | inr tree' => (inr tree', w2)
      end
  end.

(** The [while] loop.  [fuel] bounds the number of times the loop
    condition is evaluated; [None] means the bound was reached. *)
Fixpoint expand_loop (fuel : nat) (tree : model) (w : world)
  : option (loop_exit * world) :=
  match fuel with
  | O => None
  | S fuel' =>
      match tree with
      | Expression (fn :: args) =>
          match head_name fn with
          | inl e => Some (LoopRaise e, w)
          | inr None => Some (LoopDone tree, w)
          | inr (Some name) =>
              match resolve_macro compiler module_ name w with
              | None => Some (LoopDone tree, w)
              | Some m =>
                  match invoke m fn args w with
                  | (inl exit_, w2) => Some (exit_, w2)
                  | (inr tree', w2) =>
                      if once then Some (LoopDone tree', w2)
                      else expand_loop fuel' tree' w2
                  end
              end
          end
      | _ => Some (LoopDone tree, w)
      end
  end.

End Loop.

(** [if not inspect.ismodule(module): module = importlib.import_module(module)] *)
Definition module_of_arg (module_ : pyval) : error + module :=
  match module_ with
  | PModule m => inr m
  | PStr s =>
      match import_module s None with
      | Imported m => inr m
      | ImportFails msg => inl (ImportError msg)
      | ImportRaises e => inl (Propagated e)
      end
  | _ => inl AttributeError
  end.

(** Lines 396-397, [tree = as_model(tree); return tree]: an exception of
    [as_model] is outside every [with] block. *)
Definition normalized (tree : model) : error + value :=
  match as_model tree with
  | inl e => inl (Propagated e)
  | inr tree' => inr (VTree tree')
  end.

(** What [macroexpand] returns or raises once the loop is left. *)
Definition after_loop (exit_ : loop_exit) : error + value :=
  match exit_ with
  | LoopDone tree' => normalized tree'
  | LoopReturn v => inr v
  | LoopRaise e => inl e
  end.

Definition macroexpand (fuel : nat) (tree : model) (module_ : pyval)
    (compiler : compiler_arg) (once result_ok : bool) (w : world)
  : option ((error + value) * world) :=
  match module_of_arg module_ with
  | inl e => Some (inl e, w)
  | inr m =>
      (* assert not compiler or compiler.module == module *)
      if compiler_given compiler && negb (Nat.eqb (c_module (w_compiler w)) (mod_id m))
      then Some (inl AssertionError, w)
      else
        match expand_loop m compiler once result_ok fuel tree w with
        | None => None
        | Some (exit_, w') => Some (after_loop exit_, w')
        end
  end.

Definition macroexpand_1 (fuel : nat) (tree : model) (module_ : pyval)
    (compiler : compiler_arg) (w : world) :=
  macroexpand fuel tree module_ compiler true true w.

(** ** Sharing macros between modules *)

(** *** More parameters: the import system and the file system *)

(** [importlib.util.find_spec(name)] for a string [name]. *)
Variable find_spec : string -> find_spec_result.
(** [os.stat(path)]: the identity (device, inode) of the file, or
    [None] where it raises [FileNotFoundError]. *)
Variable stat : string -> option nat.
(** Whether two equal strings are one object ([is]); interning decides. *)
Variable str_is : string -> string -> bool.
(** [str(module)], as formatted into a message. *)
Variable repr_module : module -> string.
(** The module [hy.macros] itself: the frame that [inspect.stack()[1][0]]
    finds when [require] calls itself. *)
Variable hy_macros_module : module.

(** Truth value of an argument. *)
Definition truthy (w : world) (v : pyval) : bool :=
  match v with
  | PNone => false
  | PStr s => negb (String.eqb s "")
  | PModule _ => true
  | PDict d => match dict_at w d with [] => false | _ => true end
  end.

(** [a is b] *)
Definition is_same_object (a b : pyval) : bool :=
  match a, b with
  | PNone, PNone => true
  | PStr s1, PStr s2 => String.eqb s1 s2 && str_is s1 s2
  | PModule m1, PModule m2 => Nat.eqb (mod_id m1) (mod_id m2)
  | PDict d1, PDict d2 => Nat.eqb d1 d2
  | _, _ => false
  end.

(** The local function [get_filename] of [_same_modules]. *)
Definition get_filename (module_ : pyval) : filename_result :=
  match module_ with
  | PModule m =>
      (* inspect.getfile: TypeError unless __file__ is set and non-empty *)
      match mod_file m with
      | Some (Some f) =>
          if String.eqb f "" then FilenameCaught else Filename (Some f)
      | _ => FilenameCaught
      end
  | PStr s =>
      match find_spec s with
      | FindSpecError => FilenameCaught
      | NoSpec => Filename None
      | Spec source_file_loader f =>
          if source_file_loader then Filename (Some f) else Filename None
      end
  | _ => FilenameRaises AttributeError   (* find_spec of a non-string *)
  end.

(** [os.path.samefile(f1, f2)], with the exceptions that [_same_modules]
    catches ([TypeError] for [None], [FileNotFoundError]) read as [False]. *)
Definition samefile (f1 f2 : option string) : bool :=
  match f1, f2 with
  | Some p1, Some p2 =>
      match stat p1, stat p2 with
      | Some i1, Some i2 => Nat.eqb i1 i2
      | _, _ => false
      end
  | _, _ => false
  end.

Definition _same_modules (w : world) (source_module target_module : pyval)
  : error + bool :=
  if negb (truthy w source_module || truthy w target_module) then inr false
  else if is_same_object target_module source_module then inr true
  else
    match get_filename source_module with
    | FilenameCaught => inr false
    | FilenameRaises e => inl e
    | Filename f1 =>
        match get_filename target_module with
        | FilenameCaught => inr false
        | FilenameRaises e => inl e
        | Filename f2 => inr (samefile f1 f2)
        end
    end.

(** Returns [(target_module, target_namespace)]; a namespace is named by
    the module whose globals it is. *)
Definition derive_target_module (target_module : pyval) (parent_frame : module)
  : error + (pyval * module) :=
  match target_module with
  | PNone => inr (PStr (mod_name parent_frame), parent_frame)
  | PStr s =>
      match import_module s None with
      | Imported m => inr (PModule m, m)
      | ImportFails msg => inl (ImportError msg)
      | ImportRaises e => inl (Propagated e)
      end
  | PModule m => inr (PModule m, m)
  | PDict _ =>
      inl (HyTypeError
             ("`target_module` is not a recognized type: " +:+ "<class 'dict'>"))
  end.

(** [s.split(".")] *)
Fixpoint split_dots (s : string) : list string :=
  match s with
  | EmptyString => [EmptyString]
  | String c s' =>
      if Ascii.eqb c "."%char then EmptyString :: split_dots s'
      else
        match split_dots s' with
        | [] => [String c EmptyString]
        | x :: xs => String c x :: xs
        end
  end.

(** The [while] loop of [import_module_from_string]: one level up per
    leading dot. *)
Fixpoint strip_levels (source_dirs target_dirs : list string)
  : list string * list string :=
  match source_dirs with
  | s :: ((_ :: _) as rest) =>
      if String.eqb s "" && negb (Nat.eqb (length target_dirs) 0)
      then strip_levels rest (removelast target_dirs)
      else (source_dirs, target_dirs)
  | _ => (source_dirs, target_dirs)
  end.

Definition import_module_from_string (module_name : string)
    (package_module : pyval) : error + module :=
  let import_ (package : option string) :=
    match import_module module_name package with
    | Imported m => inr m
    | ImportFails arg0 => inl (HyRequireError arg0)
    | ImportRaises e => inl (Propagated e)
    end in
  if String.prefix "." module_name then
    match
      (match package_module with
       | PModule m => Some (mod_name m)   (* getattr(..., "__name__", ...) *)
       | PStr s => Some s
       | _ => None
       end)
    with
    | None => inl AttributeError
    | Some package_name =>
        let '(source_dirs, target_dirs) :=
          strip_levels (split_dots module_name) (split_dots package_name) in
        import_
          (Some (String.concat "." (target_dirs ++ removelast source_dirs)))
    end
  else import_ None.

(** *** require *)

(** [namespace.setdefault("_hy_macros", {})] on the namespace of [m]. *)
Definition setdefault_hy_macros (m : module) : M loc :=
  fun w =>
    match w_hy_macros w !! mod_id m with
    | Some l => (inr l, w)
    | None =>
        let l := w_next w in
        (inr l,
         mkWorld (<[l := []]> (w_dicts w)) (S l)
                 (<[mod_id m := l]> (w_hy_macros w)) (w_compiler w))
    end.

(** [compiler.warn_on_core_shadow(name)], kept as a record of the call. *)
Definition warn_on_core_shadow (name : string) : M unit :=
  fun w =>
    let c := w_compiler w in
    (inr tt,
     set_compiler
       (mkCompiler (c_module c) (c_filename c) (c_source c) (c_this c)
                   (c_local_state_stack c) (c_core_shadow_calls c ++ [name])) w).

(** [target_macros[alias] = m]; [target_macros] is a dict, or [None]
    where the code fell back to a [target] that is no dict. *)
Definition setitem (target_macros : option loc) (alias : string) (m : macro)
  : M unit :=
  fun w =>
    match target_macros with
    | Some l => (inr tt, set_dict l (dict_set (dict_at w l) alias m) w)
    | None => (inl TypeError, w)
    end.

Section Transfer.

Variable source_module : module.
Variable source_macros : loc.
Variable target_macros : option loc.
Variable prefix : string.          (* after [prefix += "."] *)
Variable compiler : compiler_arg.

(** The body of the [for name, alias in ...] loop, lines 253-262. *)
Definition transfer_one (name alias : string) : M unit :=
  _name <- lift (mangle_str name) ;;
  _ <- (if compiler_given compiler
        then warn_on_core_shadow (prefix +:+ alias)
        else ret tt) ;;
  alias <- lift (mangle_str (prefix +:+ alias)) ;;
  w <- get_world ;;
  match dict_get (dict_at w source_macros) _name with
  | Some m => setitem target_macros alias m
  | None =>
      raise (HyRequireError
               ("Could not require name " +:+ _name +:+ " from "
                +:+ repr_module source_module))
  end.

(** The loop over an explicit list of pairs. *)
Fixpoint transfer_pairs (pairs : list (string * string)) : M unit :=
  match pairs with
  | [] => ret tt
  | (name, alias) :: rest =>
      _ <- transfer_one name alias ;; transfer_pairs rest
  end.

(** Each [next()] on the iterator of [source_macros.keys()] raises if the
    dict has changed size since the iterator was made. *)
Definition check_size (size0 : nat) : M unit :=
  w <- get_world ;;
  if Nat.eqb (length (dict_at w source_macros)) size0 then ret tt
  else raise (RuntimeError "dictionary changed size during iteration").

(** The loop over the generator
    [((k, k) for k in source_macros.keys() if all_ or k in source_exports)]. *)
Fixpoint transfer_keys (all_ : bool) (source_exports : list string)
    (size0 : nat) (keys : list string) : M unit :=
  match keys with
  | [] => check_size size0
  | k :: rest =>
      _ <- check_size size0 ;;
      _ <- (if all_ || existsb (String.eqb k) source_exports
            then transfer_one k k
            else ret tt) ;;
      transfer_keys all_ source_exports size0 rest
  end.

End Transfer.

(** [target_module_name or target_module or ''] *)
Definition package_of (w : world) (target_module_name : option string)
    (target_module : pyval) : pyval :=
  match target_module_name with
  | Some s => if String.eqb s "" then
                (if truthy w target_module then target_module else PStr "")
              else PStr s
  | None => if truthy w target_module then target_module else PStr ""
  end.

(** Lines 195-207: [None] stands for the early [return False]. *)
Definition check_target (w : world) (source_module target : pyval)
    (parent_frame : module) : error + option (pyval * option module) :=
  match target with
  | PDict _ => inr (Some (PNone, None))
  | _ =>
      match derive_target_module target parent_frame with
      | inl e => inl e
      | inr (target_module, target_namespace) =>
          match _same_modules w source_module target_module with
          | inl e => inl e
          | inr true => inr None
          | inr false => inr (Some (target_module, Some target_namespace))
          end
      end
  end.

(** Lines 209-211. *)
Definition load_source (w : world) (source_module : pyval)
    (target_module_name : option string) (target_module : pyval)
  : error + module :=
  match source_module with
  | PModule m => inr m
  | PStr s =>
      import_module_from_string s
        (package_of w target_module_name target_module)
  | _ => inl AttributeError   (* module_name.startswith on a non-string *)
  end.

(** Line 239:
    [target_namespace.setdefault("_hy_macros", {}) if target_module else target].
    The result is [None] where [target] is not a dict. *)
Definition get_target_macros (target_module : pyval)
    (target_namespace : option module) (target : pyval) : M (option loc) :=
  w <- get_world ;;
  if truthy w target_module then
    match target_namespace with
    | Some ns => l <- setdefault_hy_macros ns ;; ret (Some l)
    | None => ret None
    end
  else ret (match target with PDict d => Some d | _ => None end).

(** The type of [require] as a function of its arguments; the first one
    is the frame of the caller, [inspect.stack()[1][0]]. *)
Definition require_type : Type :=
  module -> pyval -> pyval -> assignments -> string -> option string ->
  compiler_arg -> M bool.

Section RequireBody.

(** What the name [require] refers to inside the body. *)
Variable self : require_type.

(** The handler of lines 231-236: the exception it raises in place of
    a require error.  Formatting the message reads
    [source_module.__file__], which not every module has. *)
Definition cannot_import (name : string) (source_module : module) : error :=
  match mod_file source_module with
  | None => AttributeError
  | Some file =>
      HyRequireError
        ("Cannot import name '" +:+ name +:+ "'"
         +:+ " from '" +:+ mod_name source_module +:+ "'"
         +:+ " (" +:+ default "None" file +:+ ")")
  end.

(** Lines 223-236: each name is a submodule of the source. *)
Fixpoint require_submodules (source_module : module)
    (target_module target : pyval) (pairs : list (string * string))
  : M unit :=
  match pairs with
  | [] => ret tt
  | (name, alias) :: rest =>
      fun w =>
        match mangle_str name with
        | inl e => (inl e, w)
        | inr mangled =>
            match
              self hy_macros_module
                   (PStr (mod_name source_module +:+ "." +:+ mangled))
                   (if truthy w target_module then target_module else target)
                   ALL alias None NoCompiler w
            with
            | (inl e, w') =>
                if is_require_error e
                then (inl (cannot_import name source_module), w')
                else (inl e, w')
            | (inr _, w') =>
                require_submodules source_module target_module target rest w'
            end
        end
  end.

Definition require_body : require_type :=
  fun parent_frame source_module target assignments_ prefix
      target_module_name compiler =>
    w0 <- get_world ;;
    checked <- lift (check_target w0 source_module target parent_frame) ;;
    match checked with
    | None => ret false
    | Some (target_module, target_namespace) =>
        source_module <-
          lift (load_source w0 source_module target_module_name target_module) ;;
        source_macros <- setdefault_hy_macros source_module ;;
        w1 <- get_world ;;
        let keys := dict_keys (dict_at w1 source_macros) in
        let source_exports :=
          match mod_export_macros source_module with
          | Some l => l
          | None => filter (fun k => negb (String.prefix "_" k)) keys
          end in
        match dict_at w1 source_macros with
        | [] =>
            match assignments_ with
            | ALL | EXPORTS => ret false
            | Explicit pairs =>
                _ <- require_submodules source_module target_module target
                       pairs ;;
                ret true
            end
        | _ :: _ =>
            target_macros <-
              get_target_macros target_module target_namespace target ;;
            let prefix :=
              if String.eqb prefix "" then prefix else prefix +:+ "." in
            _ <- match assignments_ with
                 | Explicit pairs =>
                     transfer_pairs source_module source_macros target_macros
                                    prefix compiler pairs
                 | ALL =>
                     transfer_keys source_module source_macros target_macros
                                   prefix compiler true source_exports
                                   (length keys) keys
                 | EXPORTS =>
                     transfer_keys source_module source_macros target_macros
                                   prefix compiler false source_exports
                                   (length keys) keys
                 end ;;
            ret true
        end
    end.

End RequireBody.

(** The recursive call always passes "ALL", for which the body returns or
    runs the transfer loop without calling [require] again: two levels
    close the recursion ([require_unfold] below). *)
Definition require_nested : require_type :=
  require_body (fun _ _ _ _ _ _ _ => raise (RuntimeError "unreachable")).

Definition require : require_type := require_body require_nested.


(** * Properties *)

(** ** The namespace resolver *)

(** The specification's order, as a list of tables: the scope stack from
    the innermost scope outwards when a compiler is supplied, then the
    module's own table, then the builtin table. *)
Definition namespaces_in_order (compiler : compiler_arg) (module_ : module)
    (w : world) : list table :=
  (if compiler_given compiler
   then map (fun d => dict_at w (scope_macros d))
            (rev (c_local_state_stack (w_compiler w)))
   else [])
  ++ [hy_macros_of w module_; hy_macros_of w builtins].

(** The binding of [fn] in the first table that has one. *)
Fixpoint first_match (fn : string) (tables : list table) : option macro :=
  match tables with
  | [] => None
  | t :: ts =>
      match dict_get t fn with
      | Some m => Some m
      | None => first_match fn ts
      end
  end.

Definition unbound_in_scopes (compiler : compiler_arg) (fn : string)
    (w : world) : Prop :=
  compiler = NoCompiler \/
  Forall (fun d => dict_get (dict_at w (scope_macros d)) fn = None)
         (c_local_state_stack (w_compiler w)).

(** [assert not compiler or compiler.module == module] holds. *)
Definition assertion_holds (compiler : compiler_arg) (module_ : module)
    (w : world) : Prop :=
  compiler = NoCompiler \/ c_module (w_compiler w) = mod_id module_.

Lemma first_match_app fn ts1 ts2 :
  first_match fn (ts1 ++ ts2) =
  match first_match fn ts1 with
  | Some m => Some m
  | None => first_match fn ts2
  end.
Proof.
  induction ts1 as [|t ts1 IH]; simpl; [reflexivity|].
  destruct (dict_get t fn); [reflexivity | exact IH].
Qed.

Lemma first_match_unbound fn ts :
  Forall (fun t => dict_get t fn = None) ts -> first_match fn ts = None.
Proof.
  induction 1 as [|t ts Ht _ IH]; simpl; [reflexivity|].
  rewrite Ht. exact IH.
Qed.

Lemma first_scope_binding_first_match w fn ds :
  first_scope_binding w fn ds =
  first_match fn (map (fun d => dict_at w (scope_macros d)) ds).
Proof.
  induction ds as [|d ds IH]; simpl; [reflexivity|].
  destruct (dict_get (dict_at w (scope_macros d)) fn); [reflexivity | exact IH].
Qed.

Lemma first_module_binding_first_match w fn mods :
  first_module_binding w fn mods = first_match fn (map (hy_macros_of w) mods).
Proof.
  induction mods as [|md mods IH]; simpl; [reflexivity|].
  destruct (dict_get (hy_macros_of w md) fn); [reflexivity | exact IH].
Qed.

Lemma resolve_macro_first_match compiler module_ fn w :
  resolve_macro compiler module_ fn w =
  first_match fn (namespaces_in_order compiler module_ w).
Proof.
  unfold resolve_macro, namespaces_in_order.
  rewrite first_match_app, first_module_binding_first_match.
  destruct (compiler_given compiler); simpl.
  - rewrite first_scope_binding_first_match. reflexivity.
  - reflexivity.
Qed.

Lemma unbound_in_scopes_first_match compiler module_ fn w :
  unbound_in_scopes compiler fn w ->
  first_match fn (namespaces_in_order compiler module_ w) =
  first_match fn [hy_macros_of w module_; hy_macros_of w builtins].
Proof.
  intros H. unfold namespaces_in_order. rewrite first_match_app.
  destruct H as [-> | H]; simpl; [reflexivity|].
  destruct (compiler_given compiler); [|reflexivity].
  rewrite first_match_unbound; [reflexivity|].
  apply Forall_forall. intros t Ht.
  apply list_elem_of_In, in_map_iff in Ht. destruct Ht as [d [<- Hd]].
  rewrite Forall_forall in H. apply H.
  apply list_elem_of_In. apply in_rev. exact Hd.
Qed.

(** The loop, one iteration unfolded at a call form whose head has a
    name. *)
Lemma expand_loop_step module_ compiler once result_ok fuel fn args name w :
  head_name fn = inr (Some name) ->
  expand_loop module_ compiler once result_ok (S fuel)
              (Expression (fn :: args)) w =
  match resolve_macro compiler module_ name w with
  | None => Some (LoopDone (Expression (fn :: args)), w)
  | Some m =>
      match invoke compiler result_ok m fn args w with
      | (inl exit_, w2) => Some (exit_, w2)
      | (inr tree', w2) =>
          if once then Some (LoopDone tree', w2)
          else expand_loop module_ compiler once result_ok fuel tree' w2
      end
  end.
Proof. intros H. simpl. rewrite H. reflexivity. Qed.

Lemma macroexpand_module fuel tree marg module_ compiler once result_ok w :
  module_of_arg marg = inr module_ ->
  assertion_holds compiler module_ w ->
  macroexpand fuel tree marg compiler once result_ok w =
  match expand_loop module_ compiler once result_ok fuel tree w with
  | None => None
  | Some (exit_, w') => Some (after_loop exit_, w')
  end.
Proof.
  intros Hm H. unfold macroexpand. rewrite Hm.
  destruct H as [-> | H]; simpl; [reflexivity|].
  rewrite H, Nat.eqb_refl, andb_false_r. reflexivity.
Qed.

(** One round of [macroexpand] at a call form whose head name is bound
    to [m]: the body of [m] is called on the arguments, with
    [compiler.this] set, and what it does decides how the call goes on. *)
Lemma macroexpand_invokes fuel marg module_ compiler once result_ok fn args
    name m w :
  module_of_arg marg = inr module_ ->
  assertion_holds compiler module_ w ->
  head_name fn = inr (Some name) ->
  resolve_macro compiler module_ name w = Some m ->
  macroexpand (S fuel) (Expression (fn :: args)) marg compiler once result_ok w
  = match
      call_macro m compiler args
                 (enter_macro compiler (Expression (fn :: args)) w)
    with
    | (Raises e, w2) =>
        Some (inl (MacroExceptions_exit fn args compiler e w2), w2)
    | (Returns (RCompiled r), w2) =>
        Some (inr (if result_ok then VCompiled r
                   else VTree (Expression (fn :: args))), w2)
    | (Returns (RModel obj), w2) =>
        match replace_hy_obj obj (Expression (fn :: args)) with
        | inl e => Some (inl (MacroExceptions_exit fn args compiler e w2), w2)
        | inr tree' =>
            if once then Some (normalized tree', w2)
            else
              match
                expand_loop module_ compiler once result_ok fuel tree' w2
              with
              | None => None
              | Some (exit_, w') => Some (after_loop exit_, w')
              end
        end
    end.
Proof.
  intros Hmarg Hassert Hn Hr.
  rewrite (macroexpand_module _ _ _ _ _ _ _ _ Hmarg Hassert).
  rewrite (expand_loop_step _ _ _ _ _ _ _ _ _ Hn), Hr.
  unfold invoke.
  destruct (call_macro m compiler args
              (enter_macro compiler (Expression (fn :: args)) w))
    as [[[obj|r]|e] w2]; try reflexivity.
  destruct (replace_hy_obj obj (Expression (fn :: args))) as [e|tree'];
    [reflexivity|].
  destruct once; reflexivity.
Qed.

(** C1.  The macro that [macroexpand] invokes for a head name is the
    first match in the order: scope stack from the innermost scope
    outwards (with a compiler), then the module's table, then the builtin
    table.  A binding in a scope masks every scope outside it, the module
    and the builtins; the module masks the builtins.  [macroexpand] calls
    the body of exactly that macro on the arguments of the call form, and
    what the body does decides the outcome; when no table binds the name
    the loop stops and the tree is returned, normalised. *)
Theorem resolution_order compiler module_ fn w :
  resolve_macro compiler module_ fn w =
    first_match fn (namespaces_in_order compiler module_ w)
  /\ (forall outer d inner m,
        compiler = TheCompiler ->
        c_local_state_stack (w_compiler w) = outer ++ d :: inner ->
        dict_get (dict_at w (scope_macros d)) fn = Some m ->
        Forall (fun d' => dict_get (dict_at w (scope_macros d')) fn = None)
               inner ->
        resolve_macro compiler module_ fn w = Some m)
  /\ (forall m,
        unbound_in_scopes compiler fn w ->
        dict_get (hy_macros_of w module_) fn = Some m ->
        resolve_macro compiler module_ fn w = Some m)
  /\ (forall m,
        unbound_in_scopes compiler fn w ->
        dict_get (hy_macros_of w module_) fn = None ->
        dict_get (hy_macros_of w builtins) fn = Some m ->
        resolve_macro compiler module_ fn w = Some m)
  /\ (forall marg head args fuel once result_ok m,
        module_of_arg marg = inr module_ ->
        assertion_holds compiler module_ w ->
        head_name head = inr (Some fn) ->
        first_match fn (namespaces_in_order compiler module_ w) = Some m ->
        macroexpand (S fuel) (Expression (head :: args)) marg compiler once
                    result_ok w
        = match
            call_macro m compiler args
                       (enter_macro compiler (Expression (head :: args)) w)
          with
          | (Raises e, w2) =>
              Some (inl (MacroExceptions_exit head args compiler e w2), w2)
          | (Returns (RCompiled r), w2) =>
              Some (inr (if result_ok then VCompiled r
                         else VTree (Expression (head :: args))), w2)
          | (Returns (RModel obj), w2) =>
              match replace_hy_obj obj (Expression (head :: args)) with
              | inl e =>
                  Some (inl (MacroExceptions_exit head args compiler e w2), w2)
              | inr tree' =>
                  if once then Some (normalized tree', w2)
                  else
                    match
                      expand_loop module_ compiler once result_ok fuel tree' w2
                    with
                    | None => None
                    | Some (exit_, w') => Some (after_loop exit_, w')
                    end
              end
          end)
  /\ (forall marg head args fuel once result_ok,
        module_of_arg marg = inr module_ ->
        head_name head = inr (Some fn) ->
        assertion_holds compiler module_ w ->
        unbound_in_scopes compiler fn w ->
        dict_get (hy_macros_of w module_) fn = None ->
        dict_get (hy_macros_of w builtins) fn = None ->
        macroexpand (S fuel) (Expression (head :: args)) marg
                    compiler once result_ok w =
        Some (normalized (Expression (head :: args)), w)).
Proof.
  assert (Hmod : forall m,
            unbound_in_scopes compiler fn w ->
            dict_get (hy_macros_of w module_) fn = Some m ->
            resolve_macro compiler module_ fn w = Some m).
  { intros m Hs Hm. rewrite resolve_macro_first_match.
    rewrite (unbound_in_scopes_first_match _ _ _ _ Hs). simpl.
    rewrite Hm. reflexivity. }
  assert (Hbuiltin : forall r,
            unbound_in_scopes compiler fn w ->
            dict_get (hy_macros_of w module_) fn = None ->
            dict_get (hy_macros_of w builtins) fn = r ->
            resolve_macro compiler module_ fn w = r).
  { intros r Hs Hm Hb. rewrite resolve_macro_first_match.
    rewrite (unbound_in_scopes_first_match _ _ _ _ Hs). simpl.
    rewrite Hm, Hb. destruct r; reflexivity. }
  split; [apply resolve_macro_first_match|].
  split.
  { intros outer d inner m -> Hstack Hd Hinner.
    rewrite resolve_macro_first_match. unfold namespaces_in_order. simpl.
    rewrite Hstack, rev_app_distr. simpl.
    rewrite <- app_assoc, !map_app, <- app_assoc. rewrite first_match_app.
    rewrite first_match_unbound.
    - simpl. rewrite Hd. reflexivity.
    - apply Forall_forall. intros t Ht.
      apply list_elem_of_In, in_map_iff in Ht. destruct Ht as [d' [<- Hd']].
      rewrite Forall_forall in Hinner. apply Hinner.
      apply list_elem_of_In. apply in_rev. exact Hd'. }
  split; [exact Hmod|].
  split; [intros m Hs Hm Hb; apply Hbuiltin; assumption|].
  split.
  { intros marg head args fuel once result_ok m Hmarg Hassert Hhead Hfirst.
    apply macroexpand_invokes with (name := fn); try assumption.
    rewrite resolve_macro_first_match. exact Hfirst. }
  intros marg head args fuel once result_ok Hmarg Hhead Hassert Hs Hm Hb.
  rewrite (macroexpand_module _ _ _ _ _ _ _ _ Hmarg Hassert).
  rewrite (expand_loop_step _ _ _ _ _ _ _ _ _ Hhead).
  rewrite (Hbuiltin None Hs Hm Hb). reflexivity.
Qed.

(** ** Trees that are not macro calls *)





(** ** How the loop is left *)

(** Whatever the number of iterations, a [return] inside the loop comes
    from a macro that returned a compiled result. *)
Lemma expand_loop_exit_shape module_ compiler once result_ok fuel :
  forall tree w ex w',
    expand_loop module_ compiler once result_ok fuel tree w = Some (ex, w') ->
    match ex with
    | LoopReturn v =>
        exists fn args m r w1,
          call_macro m compiler args
                     (enter_macro compiler (Expression (fn :: args)) w1)
            = (Returns (RCompiled r), w')
          /\ v = (if result_ok then VCompiled r
                  else VTree (Expression (fn :: args)))
    | _ => True
    end.
Proof.
  induction fuel as [|fuel IH]; intros tree w ex w' H; [discriminate|].
  destruct tree as [s|s|s|n|items|items|r];
    try (simpl in H; injection H as <- <-; exact I).
  destruct items as [|fn args]; [simpl in H; injection H as <- <-; exact I|].
  destruct (head_name fn) as [e|[name|]] eqn:Hn;
    [simpl in H; rewrite Hn in H; injection H as <- <-; exact I
    | |simpl in H; rewrite Hn in H; injection H as <- <-; exact I].
  rewrite (expand_loop_step _ _ _ _ _ _ _ _ _ Hn) in H.
  destruct (resolve_macro compiler module_ name w) as [m|];
    [|injection H as <- <-; exact I].
  unfold invoke in H.
  destruct (call_macro m compiler args
              (enter_macro compiler (Expression (fn :: args)) w))
    as [[[obj|r]|e] w2] eqn:Hcall.
  - destruct (replace_hy_obj obj (Expression (fn :: args))) as [e|tree'];
      [injection H as <- <-; exact I|].
    destruct once; [injection H as <- <-; exact I|].
    eapply IH. exact H.
  - injection H as <- <-. exists fn, args, m, r, w. split; [exact Hcall|reflexivity].
  - injection H as <- <-. exact I.
Qed.






(** ** What the engine writes to the store *)

(** The store after the loop is reached from the store before it by
    [compiler.this = tree] assignments and by what the macro bodies do:
    any relation closed under both relates the two stores. *)
Lemma expand_loop_frame (R : world -> world -> Prop) module_ compiler once
    result_ok :
  (forall w, R w w) ->
  (forall w1 w2 w3, R w1 w2 -> R w2 w3 -> R w1 w3) ->
  (forall fn args w, R w (enter_macro compiler (Expression (fn :: args)) w)) ->
  (forall m args w, R w (snd (call_macro m compiler args w))) ->
  forall fuel tree w ex w',
    expand_loop module_ compiler once result_ok fuel tree w = Some (ex, w') ->
    R w w'.
Proof.
  intros Hrefl Htrans Henter Hcall.
  induction fuel as [|fuel IH]; intros tree w ex w' H; [discriminate|].
  destruct tree as [s|s|s|n|items|items|r];
    try (simpl in H; injection H as <- <-; apply Hrefl).
  destruct items as [|fn args]; [simpl in H; injection H as <- <-; apply Hrefl|].
  destruct (head_name fn) as [e|[name|]] eqn:Hn;
    [simpl in H; rewrite Hn in H; injection H as <- <-; apply Hrefl
    | |simpl in H; rewrite Hn in H; injection H as <- <-; apply Hrefl].
  rewrite (expand_loop_step _ _ _ _ _ _ _ _ _ Hn) in H.
  destruct (resolve_macro compiler module_ name w) as [m|];
    [|injection H as <- <-; apply Hrefl].
  unfold invoke in H.
  pose proof (Hcall m args (enter_macro compiler (Expression (fn :: args)) w))
    as Hstep.
  pose proof (Henter fn args w) as Hset.
  destruct (call_macro m compiler args
              (enter_macro compiler (Expression (fn :: args)) w))
    as [[[obj|r]|e] w2]; simpl in Hstep.
  - destruct (replace_hy_obj obj (Expression (fn :: args))) as [e|tree'];
      [injection H as <- <-; eapply Htrans; eassumption|].
    destruct once.
    + injection H as <- <-. eapply Htrans; eassumption.
    + eapply Htrans; [eapply Htrans; eassumption|]. eapply IH. exact H.
  - injection H as <- <-. eapply Htrans; eassumption.
  - injection H as <- <-. eapply Htrans; eassumption.
Qed.

Lemma set_this_set_this t1 t2 w : set_this t2 (set_this t1 w) = set_this t2 w.
Proof. reflexivity. Qed.

Lemma enter_macro_enter_macro compiler t1 t2 w :
  enter_macro compiler t2 (enter_macro compiler t1 w) = enter_macro compiler t2 w.
Proof. unfold enter_macro. destruct (compiler_given compiler); reflexivity. Qed.

(** The call forms on which the loop invokes a macro, in order. *)
Fixpoint invoked_forms (module_ : module) (compiler : compiler_arg)
    (once result_ok : bool) (fuel : nat) (tree : model) (w : world)
  : list model :=
  match fuel with
  | O => []
  | S fuel' =>
      match tree with
      | Expression (fn :: args) =>
          match head_name fn with
          | inr (Some name) =>
              match resolve_macro compiler module_ name w with
              | None => []
              | Some m =>
                  tree ::
                  match invoke compiler result_ok m fn args w with
                  | (inl _, _) => []
                  | (inr tree', w2) =>
                      if once then []
                      else invoked_forms module_ compiler once result_ok
                                         fuel' tree' w2
                  end
              end
          | _ => []
          end
      | _ => []
      end
  end.

Lemma last_cons_nonempty {A : Type} (x : A) (l : list A) :
  last (x :: l) = match last l with Some y => Some y | None => Some x end.
Proof.
  destruct l as [|y l]; [reflexivity|].
  change (last (x :: y :: l)) with (last (y :: l)).
  destruct (last (y :: l)) eqn:E; [reflexivity|].
  apply last_None in E. discriminate.
Qed.

(** The store that the loop leaves is the one that the body invoked on
    the last call form left, or the initial one when none was invoked. *)
Lemma expand_loop_last module_ compiler once result_ok fuel :
  forall tree w ex w',
    expand_loop module_ compiler once result_ok fuel tree w = Some (ex, w') ->
    match last (invoked_forms module_ compiler once result_ok fuel tree w) with
    | None => w' = w
    | Some form =>
        exists fn args m w0,
          form = Expression (fn :: args)
          /\ w' = snd (call_macro m compiler args (enter_macro compiler form w0))
    end.
Proof.
  induction fuel as [|fuel IH]; intros tree w ex w' H; [discriminate|].
  destruct tree as [s|s|s|n|items|items|r];
    try (simpl in H; injection H as <- <-; reflexivity).
  destruct items as [|fn args]; [simpl in H; injection H as <- <-; reflexivity|].
  simpl in H. simpl invoked_forms.
  destruct (head_name fn) as [e|[name|]];
    [injection H as <- <-; reflexivity
    | |injection H as <- <-; reflexivity].
  destruct (resolve_macro compiler module_ name w) as [m|];
    [|injection H as <- <-; reflexivity].
  rewrite last_cons_nonempty.
  assert (Hhere : forall w2,
            w2 = (invoke compiler result_ok m fn args w).2 ->
            exists fn0 args0 m0 w0,
              Expression (fn :: args) = Expression (fn0 :: args0)
              /\ w2 = snd (call_macro m0 compiler args0
                             (enter_macro compiler (Expression (fn :: args)) w0))).
  { intros w2 ->. exists fn, args, m, w. split; [reflexivity|].
    unfold invoke.
    destruct (call_macro m compiler args
                (enter_macro compiler (Expression (fn :: args)) w))
      as [[[obj|r]|e] w2]; try reflexivity.
    destruct (replace_hy_obj obj (Expression (fn :: args))); reflexivity. }
  destruct (invoke compiler result_ok m fn args w) as [[exit_|tree'] w2] eqn:Hinv.
  - injection H as <- <-. simpl. apply Hhere. reflexivity.
  - destruct once.
    + injection H as <- <-. simpl. apply Hhere. reflexivity.
    + specialize (IH tree' w2 ex w' H).
      destruct (last (invoked_forms module_ compiler false result_ok fuel
                        tree' w2)) as [form|].
      * exact IH.
      * subst w'. apply Hhere. reflexivity.
Qed.

(** With macro bodies that leave the store alone, the store that the loop
    leaves is the initial one with [compiler.this] set to the last call
    form, where there is a compiler and a macro was invoked. *)
Lemma expand_loop_last_pure module_ compiler once result_ok :
  (forall m args w, snd (call_macro m compiler args w) = w) ->
  forall fuel tree w ex w',
    expand_loop module_ compiler once result_ok fuel tree w = Some (ex, w') ->
    w' = match
           last (invoked_forms module_ compiler once result_ok fuel tree w)
         with
         | None => w
         | Some form => enter_macro compiler form w
         end.
Proof.
  intros Hpure.
  induction fuel as [|fuel IH]; intros tree w ex w' H; [discriminate|].
  destruct tree as [s|s|s|n|items|items|r];
    try (simpl in H; injection H as <- <-; reflexivity).
  destruct items as [|fn args]; [simpl in H; injection H as <- <-; reflexivity|].
  simpl in H. simpl invoked_forms.
  destruct (head_name fn) as [e|[name|]];
    [injection H as <- <-; reflexivity
    | |injection H as <- <-; reflexivity].
  destruct (resolve_macro compiler module_ name w) as [m|];
    [|injection H as <- <-; reflexivity].
  rewrite last_cons_nonempty.
  assert (Hhere : (invoke compiler result_ok m fn args w).2
                  = enter_macro compiler (Expression (fn :: args)) w).
  { unfold invoke.
    pose proof (Hpure m args (enter_macro compiler (Expression (fn :: args)) w))
      as Hp.
    destruct (call_macro m compiler args
                (enter_macro compiler (Expression (fn :: args)) w))
      as [[[obj|r]|e] w2]; simpl in Hp; subst w2; try reflexivity.
    destruct (replace_hy_obj obj (Expression (fn :: args))); reflexivity. }
  destruct (invoke compiler result_ok m fn args w) as [[exit_|tree'] w2] eqn:Hinv;
    simpl in Hhere; subst w2.
  - injection H as <- <-. reflexivity.
  - destruct once.
    + injection H as <- <-. reflexivity.
    + rewrite (IH _ _ _ _ H).
      destruct (last (invoked_forms module_ compiler false result_ok fuel tree'
                        (enter_macro compiler (Expression (fn :: args)) w)));
        [apply enter_macro_enter_macro|reflexivity].
Qed.

(** C9, as the code has it.  With a compiler, [compiler.this] is the
    call form when the macro body starts; nothing saves or restores it.
    The store that [macroexpand] leaves, on the normal and on the failure
    path alike, is the initial one when no macro was invoked, and
    otherwise the one left by the body that was invoked on the last call
    form: [compiler.this] is that form unless a body reassigns it.  The
    engine writes nothing else: the final store is reached from the
    initial one by these assignments and the effects of the macro bodies
    only, so with bodies that leave the store alone it is the initial
    store with [this] set to the last call form, or the initial store
    without a compiler. *)
Theorem compiler_this_set_not_restored marg module_ compiler once result_ok :
  (forall fn args w,
     c_this (w_compiler (enter_macro TheCompiler (Expression (fn :: args)) w))
       = Some (Expression (fn :: args))
     /\ enter_macro NoCompiler (Expression (fn :: args)) w = w)
  /\ (forall fuel tree w r w',
        module_of_arg marg = inr module_ ->
        assertion_holds compiler module_ w ->
        macroexpand fuel tree marg compiler once result_ok w = Some (r, w') ->
        match
          last (invoked_forms module_ compiler once result_ok fuel tree w)
        with
        | None => w' = w
        | Some form =>
            exists fn args m w0,
              form = Expression (fn :: args)
              /\ w' = snd (call_macro m compiler args
                             (enter_macro compiler form w0))
        end)
  /\ (forall fuel tree w r w',
        module_of_arg marg = inr module_ ->
        assertion_holds compiler module_ w ->
        compiler = TheCompiler ->
        (forall m args w0,
           c_this (w_compiler (snd (call_macro m compiler args w0)))
           = c_this (w_compiler w0)) ->
        macroexpand fuel tree marg compiler once result_ok w = Some (r, w') ->
        c_this (w_compiler w')
        = match
            last (invoked_forms module_ compiler once result_ok fuel tree w)
          with
          | None => c_this (w_compiler w)
          | Some form => Some form
          end)
  /\ (forall (R : world -> world -> Prop) fuel tree w r w',
        (forall w, R w w) ->
        (forall w1 w2 w3, R w1 w2 -> R w2 w3 -> R w1 w3) ->
        (forall fn args w,
           R w (enter_macro compiler (Expression (fn :: args)) w)) ->
        (forall m args w, R w (snd (call_macro m compiler args w))) ->
        macroexpand fuel tree marg compiler once result_ok w = Some (r, w') ->
        R w w')
  /\ (forall fuel tree w r w',
        module_of_arg marg = inr module_ ->
        assertion_holds compiler module_ w ->
        (forall m args w0, snd (call_macro m compiler args w0) = w0) ->
        macroexpand fuel tree marg compiler once result_ok w = Some (r, w') ->
        w' = match
               last (invoked_forms module_ compiler once result_ok fuel tree w)
             with
             | None => w
             | Some form =>
                 if compiler_given compiler then set_this form w else w
             end).
Proof.
  assert (Hlast : forall fuel tree w r w',
            module_of_arg marg = inr module_ ->
            assertion_holds compiler module_ w ->
            macroexpand fuel tree marg compiler once result_ok w = Some (r, w') ->
            match
              last (invoked_forms module_ compiler once result_ok fuel tree w)
            with
            | None => w' = w
            | Some form =>
                exists fn args m w0,
                  form = Expression (fn :: args)
                  /\ w' = snd (call_macro m compiler args
                                 (enter_macro compiler form w0))
            end).
  { intros fuel tree w r w' Hmarg Hassert H.
    rewrite (macroexpand_module _ _ _ _ _ _ _ _ Hmarg Hassert) in H.
    destruct (expand_loop module_ compiler once result_ok fuel tree w)
      as [[ex w0]|] eqn:Hloop; [|discriminate].
    injection H as _ <-.
    exact (expand_loop_last _ _ _ _ _ _ _ _ _ Hloop). }
  split; [intros fn args w; split; reflexivity|].
  split; [exact Hlast|].
  split.
  { intros fuel tree w r w' Hmarg Hassert Hc Hthis H.
    specialize (Hlast fuel tree w r w' Hmarg Hassert H).
    destruct (last (invoked_forms module_ compiler once result_ok fuel tree w))
      as [form|]; [|subst w'; reflexivity].
    destruct Hlast as (fn & args & m & w0 & -> & ->).
    rewrite Hthis, Hc. reflexivity. }
  split.
  { intros R fuel tree w r w' Hrefl Htrans Henter Hcall H.
    unfold macroexpand in H.
    destruct (module_of_arg marg) as [e|m];
      [injection H as <- <-; apply Hrefl|].
    destruct (compiler_given compiler
              && negb (Nat.eqb (c_module (w_compiler w)) (mod_id m)));
      [injection H as <- <-; apply Hrefl|].
    destruct (expand_loop m compiler once result_ok fuel tree w)
      as [[ex w0]|] eqn:Hloop; [|discriminate].
    injection H as _ <-.
    exact (expand_loop_frame R m compiler once result_ok
             Hrefl Htrans Henter Hcall _ _ _ _ _ Hloop). }
  intros fuel tree w r w' Hmarg Hassert Hpure H.
  rewrite (macroexpand_module _ _ _ _ _ _ _ _ Hmarg Hassert) in H.
  destruct (expand_loop module_ compiler once result_ok fuel tree w)
    as [[ex w0]|] eqn:Hloop; [|discriminate].
  injection H as _ <-.
  rewrite (expand_loop_last_pure _ _ _ _ Hpure _ _ _ _ _ Hloop).
  destruct (last (invoked_forms module_ compiler once result_ok fuel tree w));
    reflexivity.
Qed.

(** ** Dotted heads *)

Fixpoint has_dot (s : string) : bool :=
  match s with
  | EmptyString => false
  | String c s' => Ascii.eqb c "."%char || has_dot s'
  end.

Lemma has_dot_append a b : has_dot (a +:+ b) = has_dot a || has_dot b.
Proof.
  induction a as [|x a IH]; [reflexivity|].
  change (Ascii.eqb x "."%char || has_dot (a +:+ b)
          = Ascii.eqb x "."%char || has_dot a || has_dot b).
  rewrite IH. apply orb_assoc.
Qed.

(** [map(mangle, xs)] raises as soon as one element is falsy. *)
Lemma mangle_all_spec xs :
  mangle_all xs
  = if forallb model_truthy xs
    then inr (map (fun x => mangle (str_of x)) xs)
    else inl AssertionError.
Proof.
  induction xs as [|x xs IH]; [reflexivity|].
  simpl. unfold mangle_model. destruct (model_truthy x); [|reflexivity].
  rewrite IH. simpl. destruct (forallb model_truthy xs); reflexivity.
Qed.

Lemma head_name_dotted rest :
  head_name (Expression (Symbol "." :: rest))
  = if forallb model_truthy rest
    then inr (Some (String.concat "."
                      (map (fun x => mangle (str_of x)) rest)))
    else inl AssertionError.
Proof.
  simpl. rewrite mangle_all_spec.
  destruct (forallb model_truthy rest); reflexivity.
Qed.

(** C7, as the code has it.  A head that is an [Expression] starting
    with the symbol "." is looked up under the name made of the mangled
    texts of its remaining elements joined by ".", provided each of them
    is truthy; for (. a b c) with names that mangling leaves alone this is
    "a.b.c".  A falsy element makes [mangle] fail its assertion, and so
    [macroexpand].  With two or more elements the name holds a "." and so
    differs from the name of every plain symbol whose mangled text has
    none; with one element, (. a) is looked up exactly as the plain
    symbol a. *)
Theorem dotted_head_name :
  (forall rest,
     head_name (Expression (Symbol "." :: rest))
     = if forallb model_truthy rest
       then inr (Some (String.concat "."
                         (map (fun x => mangle (str_of x)) rest)))
       else inl AssertionError)
  /\ (mangle "a" = "a" -> mangle "b" = "b" -> mangle "c" = "c" ->
      head_name (Expression [Symbol "."; Symbol "a"; Symbol "b"; Symbol "c"])
      = inr (Some "a.b.c"))
  /\ (forall rest args marg module_ compiler once result_ok fuel w,
        module_of_arg marg = inr module_ ->
        assertion_holds compiler module_ w ->
        forallb model_truthy rest = true ->
        let head := Expression (Symbol "." :: rest) in
        macroexpand (S fuel) (Expression (head :: args)) marg compiler once
                    result_ok w
        = match
            resolve_macro compiler module_
              (String.concat "." (map (fun x => mangle (str_of x)) rest)) w
          with
          | None => Some (normalized (Expression (head :: args)), w)
          | Some m =>
              match
                call_macro m compiler args
                  (enter_macro compiler (Expression (head :: args)) w)
              with
              | (Raises e, w2) =>
                  Some (inl (MacroExceptions_exit head args compiler e w2), w2)
              | (Returns (RCompiled r), w2) =>
                  Some (inr (if result_ok then VCompiled r
                             else VTree (Expression (head :: args))), w2)
              | (Returns (RModel obj), w2) =>
                  match replace_hy_obj obj (Expression (head :: args)) with
                  | inl e =>
                      Some (inl (MacroExceptions_exit head args compiler e w2),
                            w2)
                  | inr tree' =>
                      if once then Some (normalized tree', w2)
                      else
                        match
                          expand_loop module_ compiler once result_ok fuel
                                      tree' w2
                        with
                        | None => None
                        | Some (exit_, w') => Some (after_loop exit_, w')
                        end
                  end
              end
          end)
  /\ (forall rest args marg module_ compiler once result_ok fuel w,
        module_of_arg marg = inr module_ ->
        assertion_holds compiler module_ w ->
        forallb model_truthy rest = false ->
        macroexpand (S fuel)
          (Expression (Expression (Symbol "." :: rest) :: args)) marg compiler
          once result_ok w
        = Some (inl AssertionError, w))
  /\ (forall x y rest s,
        forallb model_truthy (x :: y :: rest) = true ->
        has_dot (mangle s) = false ->
        head_name (Expression (Symbol "." :: x :: y :: rest))
        <> head_name (Symbol s))
  /\ (forall s,
        head_name (Expression [Symbol "."; Symbol s]) = head_name (Symbol s)).
Proof.
  split; [exact head_name_dotted|].
  split; [intros Ha Hb Hc; simpl; unfold mangle_model; simpl;
          rewrite Ha, Hb, Hc; reflexivity|].
  split.
  { intros rest args marg module_ compiler once result_ok fuel w
           Hmarg Hassert Htruthy head.
    assert (Hn : head_name head
                 = inr (Some (String.concat "."
                                (map (fun x => mangle (str_of x)) rest))))
      by (unfold head; rewrite head_name_dotted, Htruthy; reflexivity).
    destruct (resolve_macro compiler module_
                (String.concat "." (map (fun x => mangle (str_of x)) rest)) w)
      as [m|] eqn:Hr.
    - exact (macroexpand_invokes _ _ _ _ _ _ _ _ _ _ _ Hmarg Hassert Hn Hr).
    - rewrite (macroexpand_module _ _ _ _ _ _ _ _ Hmarg Hassert).
      rewrite (expand_loop_step _ _ _ _ _ _ _ _ _ Hn), Hr. reflexivity. }
  split.
  { intros rest args marg module_ compiler once result_ok fuel w
           Hmarg Hassert Hfalsy.
    rewrite (macroexpand_module _ _ _ _ _ _ _ _ Hmarg Hassert).
    cbn [expand_loop]. rewrite head_name_dotted, Hfalsy. reflexivity. }
  split.
  { intros x y rest s Htruthy Hs H.
    rewrite head_name_dotted, Htruthy in H.
    assert (Hsym : head_name (Symbol s)
                   = if model_truthy (Symbol s) then inr (Some (mangle s))
                     else inl AssertionError)
      by (unfold head_name, mangle_model;
          destruct (model_truthy (Symbol s)); reflexivity).
    rewrite Hsym in H. destruct (model_truthy (Symbol s)); [|discriminate].
    injection H as Hjoin.
    change (String.concat "."
              (mangle (str_of x) :: mangle (str_of y)
               :: map (fun x => mangle (str_of x)) rest)
            = mangle s) in Hjoin.
    rewrite <- Hjoin in Hs. simpl String.concat in Hs.
    rewrite 2!has_dot_append in Hs.
    change (has_dot ".") with true in Hs.
    rewrite orb_true_l, orb_true_r in Hs. discriminate. }
  intros s. simpl. unfold mangle_model.
  destruct (model_truthy (Symbol s)); reflexivity.
Qed.

(** ** require: the store *)

Lemma dict_at_set_dict_eq l d w : dict_at (set_dict l d w) l = d.
Proof. unfold dict_at, set_dict. simpl. rewrite lookup_insert_eq. reflexivity. Qed.

Lemma dict_at_set_dict_ne l l' d w :
  l <> l' -> dict_at (set_dict l d w) l' = dict_at w l'.
Proof.
  intros H. unfold dict_at, set_dict. simpl.
  rewrite lookup_insert_ne by exact H. reflexivity.
Qed.

Lemma dict_get_dict_set d k v k' :
  dict_get (dict_set d k v) k' =
  if String.eqb k' k then Some v else dict_get d k'.
Proof.
  induction d as [|[k0 v0] d IH]; simpl.
  - reflexivity.
  - destruct (String.eqb k k0) eqn:Hk; simpl.
    + apply String.eqb_eq in Hk. subst k0.
      destruct (String.eqb k' k); reflexivity.
    + destruct (String.eqb k' k0) eqn:Hk'.
      * apply String.eqb_eq in Hk'. subst k0.
        rewrite String.eqb_sym, Hk. reflexivity.
      * exact IH.
Qed.

(** The compiler with the record of [warn_on_core_shadow] calls left
    out. *)
Definition compiler_fields (c : compiler) :=
  (c_module c, c_filename c, c_source c, c_this c, c_local_state_stack c).

(** [w'] differs from [w] at most in the dict at [l] and in the record
    of [warn_on_core_shadow] calls. *)
Definition only_dict_changed (l : loc) (w w' : world) : Prop :=
  (forall l', l' <> l -> w_dicts w' !! l' = w_dicts w !! l')
  /\ w_hy_macros w' = w_hy_macros w
  /\ w_next w' = w_next w
  /\ compiler_fields (w_compiler w') = compiler_fields (w_compiler w).

Lemma only_dict_changed_refl l w : only_dict_changed l w w.
Proof. repeat split. Qed.

Lemma only_dict_changed_trans l w1 w2 w3 :
  only_dict_changed l w1 w2 -> only_dict_changed l w2 w3 ->
  only_dict_changed l w1 w3.
Proof.
  intros (Hd & Hm & Hn & Hc) (Hd' & Hm' & Hn' & Hc').
  repeat split; try congruence.
  intros l' Hl. rewrite Hd' by exact Hl. apply Hd. exact Hl.
Qed.

(** ** require: the transfer loop, from the specification's words *)

(** The target table after the pairs are bound in order, up to the first
    name that the source table lacks. *)
Fixpoint bind_pairs (source : table) (prefix : string)
    (pairs : list (string * string)) (target : table) : table :=
  match pairs with
  | [] => target
  | (name, alias) :: rest =>
      match dict_get source (mangle name) with
      | Some m =>
          bind_pairs source prefix rest
                     (dict_set target (mangle (prefix +:+ alias)) m)
      | None => target
      end
  end.

(** The first requested name, mangled, that the source table lacks. *)
Fixpoint first_missing (source : table) (pairs : list (string * string))
  : option string :=
  match pairs with
  | [] => None
  | (name, _) :: rest =>
      match dict_get source (mangle name) with
      | Some _ => first_missing source rest
      | None => Some (mangle name)
      end
  end.

(** No requested name is the empty string, and no alias is once the
    prefix stands before it: [mangle] accepts them all. *)
Definition names_ok (prefix : string) (pairs : list (string * string)) : bool :=
  forallb (fun pr => negb (String.eqb (fst pr) "")
                     && negb (String.eqb (prefix +:+ snd pr) ""))
          pairs.

Definition require_error (name : string) (source_module : module) : error :=
  HyRequireError
    ("Could not require name " +:+ name +:+ " from "
     +:+ repr_module source_module).

(** [prefix += "."] when [prefix] is not empty. *)
Definition dotted_prefix (prefix : string) : string :=
  if String.eqb prefix "" then prefix else prefix +:+ ".".

Definition warned (compiler : compiler_arg) (name : string) (w : world)
  : world :=
  if compiler_given compiler then snd (warn_on_core_shadow name w) else w.

Lemma warned_frame compiler name l w : only_dict_changed l w (warned compiler name w).
Proof. unfold warned. destruct (compiler_given compiler); repeat split. Qed.

Lemma dict_at_warned compiler name w l :
  dict_at (warned compiler name w) l = dict_at w l.
Proof. unfold warned. destruct (compiler_given compiler); reflexivity. Qed.

Lemma set_dict_frame l d w : only_dict_changed l w (set_dict l d w).
Proof.
  repeat split. intros l' Hl. unfold set_dict. simpl.
  apply lookup_insert_ne. congruence.
Qed.

Lemma dict_at_set_compiler c w l : dict_at (set_compiler c w) l = dict_at w l.
Proof. reflexivity. Qed.

(** The body of the loop, step by step: the assertion of [mangle] on
    the name, the call of the hook, the assertion of [mangle] on the
    prefixed alias, the lookup. *)
Lemma transfer_one_eq source_module ls lt prefix compiler name alias w :
  transfer_one source_module ls (Some lt) prefix compiler name alias w =
  if String.eqb name "" then (inl AssertionError, w)
  else
    let w1 := warned compiler (prefix +:+ alias) w in
    if String.eqb (prefix +:+ alias) "" then (inl AssertionError, w1)
    else
      match dict_get (dict_at w ls) (mangle name) with
      | Some m =>
          (inr tt,
           set_dict lt (dict_set (dict_at w lt) (mangle (prefix +:+ alias)) m)
                    w1)
      | None => (inl (require_error (mangle name) source_module), w1)
      end.
Proof.
  unfold transfer_one, bind, get_world, warned, setitem, raise, ret, lift,
    mangle_str.
  destruct (String.eqb name ""); [reflexivity|].
  destruct (compiler_given compiler); simpl;
    destruct (String.eqb (prefix +:+ alias) ""); try reflexivity;
    rewrite ?dict_at_set_compiler;
    destruct (dict_get (dict_at w ls) (mangle name)); reflexivity.
Qed.

(** A successful step leaves every dict but the target as it was. *)
Lemma transfer_one_source source_module ls lt prefix compiler name alias w w2 :
  ls <> lt ->
  transfer_one source_module ls (Some lt) prefix compiler name alias w
    = (inr tt, w2) ->
  dict_at w2 ls = dict_at w ls.
Proof.
  intros Hne. rewrite transfer_one_eq.
  destruct (String.eqb name ""); [discriminate|]. cbv zeta.
  destruct (String.eqb (prefix +:+ alias) ""); [discriminate|].
  destruct (dict_get (dict_at w ls) (mangle name)); [|discriminate].
  intros H. injection H as <-.
  rewrite dict_at_set_dict_ne by congruence. apply dict_at_warned.
Qed.

Lemma transfer_pairs_spec source_module ls lt prefix compiler pairs :
  ls <> lt ->
  names_ok prefix pairs = true ->
  forall w,
  exists w',
    transfer_pairs source_module ls (Some lt) prefix compiler pairs w =
      (match first_missing (dict_at w ls) pairs with
       | None => inr tt
       | Some name => inl (require_error name source_module)
       end, w')
    /\ dict_at w' lt = bind_pairs (dict_at w ls) prefix pairs (dict_at w lt)
    /\ only_dict_changed lt w w'.
Proof.
  intros Hne. induction pairs as [|[name alias] rest IH]; intros Hok w.
  - exists w. repeat split.
  - simpl in Hok. apply andb_true_iff in Hok. destruct Hok as [Hhere Hok].
    apply andb_true_iff in Hhere. destruct Hhere as [Hname Halias].
    apply negb_true_iff in Hname, Halias.
    simpl. unfold bind. rewrite transfer_one_eq, Hname. cbv zeta.
    rewrite Halias.
    destruct (dict_get (dict_at w ls) (mangle name)) as [m|] eqn:Hget.
    + set (w2 := set_dict lt
                   (dict_set (dict_at w lt) (mangle (prefix +:+ alias)) m)
                   (warned compiler (prefix +:+ alias) w)).
      assert (Hls : dict_at w2 ls = dict_at w ls).
      { unfold w2. rewrite dict_at_set_dict_ne by congruence.
        apply dict_at_warned. }
      assert (Hlt : dict_at w2 lt
                    = dict_set (dict_at w lt) (mangle (prefix +:+ alias)) m).
      { unfold w2. apply dict_at_set_dict_eq. }
      destruct (IH Hok w2) as (w' & Hrun & Htab & Hframe).
      exists w'. rewrite Hrun, Htab, Hls, Hlt. split; [reflexivity|].
      split; [reflexivity|].
      eapply only_dict_changed_trans; [|exact Hframe].
      eapply only_dict_changed_trans; [apply warned_frame|apply set_dict_frame].
    + exists (warned compiler (prefix +:+ alias) w).
      split; [reflexivity|]. split; [apply dict_at_warned|apply warned_frame].
Qed.

(** After a transfer in which no name is missing, every alias is bound in
    the target table. *)
Lemma bind_pairs_keeps source prefix pairs :
  forall target k,
    dict_in k target = true ->
    dict_in k (bind_pairs source prefix pairs target) = true.
Proof.
  induction pairs as [|[name alias] rest IH]; intros target k Hk; simpl.
  - exact Hk.
  - destruct (dict_get source (mangle name)); [|exact Hk].
    apply IH. unfold dict_in. rewrite dict_get_dict_set.
    destruct (String.eqb k (mangle (prefix +:+ alias))); [reflexivity|exact Hk].
Qed.

Lemma bind_pairs_binds source prefix pairs :
  first_missing source pairs = None ->
  forall target name alias,
    In (name, alias) pairs ->
    dict_in (mangle (prefix +:+ alias))
            (bind_pairs source prefix pairs target) = true.
Proof.
  induction pairs as [|[n a] rest IH]; intros Hall target name alias Hin.
  - destruct Hin.
  - simpl in *. destruct (dict_get source (mangle n)) as [m|]; [|discriminate].
    destruct Hin as [Heq | Hin].
    + injection Heq as -> ->. apply bind_pairs_keeps.
      unfold dict_in. rewrite dict_get_dict_set, String.eqb_refl. reflexivity.
    + apply (IH Hall _ name alias Hin).
Qed.

(** The value that a successful transfer of [pairs] leaves under the key
    [k]: that of the last pair whose alias has this key. *)
Fixpoint bound_value (source : table) (prefix : string)
    (pairs : list (string * string)) (k : string) : option macro :=
  match pairs with
  | [] => None
  | (name, alias) :: rest =>
      match bound_value source prefix rest k with
      | Some m => Some m
      | None =>
          if String.eqb k (mangle (prefix +:+ alias))
          then dict_get source (mangle name)
          else None
      end
  end.

Lemma dict_get_bind_pairs source prefix pairs :
  first_missing source pairs = None ->
  forall target k,
    dict_get (bind_pairs source prefix pairs target) k
    = match bound_value source prefix pairs k with
      | Some m => Some m
      | None => dict_get target k
      end.
Proof.
  induction pairs as [|[name alias] rest IH]; intros Hall target k; simpl.
  - reflexivity.
  - simpl in Hall.
    destruct (dict_get source (mangle name)) as [m|]; [|discriminate].
    rewrite (IH Hall), dict_get_dict_set.
    destruct (bound_value source prefix rest k); [reflexivity|].
    destruct (String.eqb k (mangle (prefix +:+ alias))); reflexivity.
Qed.

(** ** require: the loop over the keys of the source table *)

(** The pairs that the generator of lines 247-251 yields. *)
Definition selected_pairs (all_ : bool) (source_exports keys : list string)
  : list (string * string) :=
  map (fun k => (k, k))
      (List.filter (fun k => all_ || existsb (String.eqb k) source_exports)
                   keys).


Lemma check_size_ok source_macros w :
  check_size source_macros (length (dict_at w source_macros)) w = (inr tt, w).
Proof. unfold check_size, bind, get_world. rewrite Nat.eqb_refl. reflexivity. Qed.

(** As long as the target is another dict than the source, the size
    check of the iterator never fails and the loop over the keys is the
    loop over the selected pairs. *)
Lemma transfer_keys_pairs source_module ls lt prefix compiler all_ exports
    keys :
  ls <> lt ->
  forall w,
    transfer_keys source_module ls (Some lt) prefix compiler all_ exports
                  (length (dict_at w ls)) keys w
    = transfer_pairs source_module ls (Some lt) prefix compiler
                     (selected_pairs all_ exports keys) w.
Proof.
  intros Hne. unfold selected_pairs.
  induction keys as [|k keys IH]; intros w.
  - simpl. apply check_size_ok.
  - simpl transfer_keys. unfold bind at 1. rewrite check_size_ok.
    simpl List.filter.
    destruct (all_ || existsb (String.eqb k) exports).
    + simpl map. simpl transfer_pairs. unfold bind.
      destruct (transfer_one source_module ls (Some lt) prefix compiler k k w)
        as [[e|[]] w2] eqn:Hone; [reflexivity|].
      rewrite <- (transfer_one_source _ _ _ _ _ _ _ _ _ Hne Hone).
      apply IH.
    + unfold bind, ret. apply IH.
Qed.

Lemma existsb_keys_dict_get (source : table) k :
  existsb (String.eqb k) (dict_keys source) = false ->
  dict_get source k = None.
Proof.
  induction source as [|[k0 v0] source IH]; simpl; [reflexivity|].
  destruct (String.eqb k k0); [discriminate|]. exact IH.
Qed.

Lemma dict_get_key_in (source : table) k :
  In k (dict_keys source) -> dict_get source k <> None.
Proof.
  induction source as [|[k0 v0] source IH]; simpl; [contradiction|].
  intros [-> | Hin].
  - rewrite String.eqb_refl. discriminate.
  - destruct (String.eqb k k0); [discriminate|]. apply IH. exact Hin.
Qed.

Lemma first_missing_selected source all_ exports keys :
  Forall (fun k => mangle k = k /\ dict_get source k <> None) keys ->
  first_missing source (selected_pairs all_ exports keys) = None.
Proof.
  unfold selected_pairs. induction 1 as [|k keys [Hk Hin] _ IH]; simpl.
  - reflexivity.
  - destruct (all_ || existsb (String.eqb k) exports); [|exact IH].
    simpl. rewrite Hk. destruct (dict_get source k); [exact IH|contradiction].
Qed.

Lemma append_nonempty (a b : string) :
  b <> "" -> String.eqb (a +:+ b) "" = false.
Proof.
  intros Hb. destruct a as [|c a]; [|reflexivity].
  change ("" +:+ b) with b. apply String.eqb_neq. exact Hb.
Qed.

Lemma names_ok_selected prefix all_ exports keys :
  Forall (fun k => k <> "") keys ->
  names_ok prefix (selected_pairs all_ exports keys) = true.
Proof.
  unfold selected_pairs, names_ok. induction 1 as [|k keys Hk _ IH]; simpl.
  - reflexivity.
  - destruct (all_ || existsb (String.eqb k) exports); [|exact IH].
    simpl. rewrite IH, (append_nonempty prefix k Hk).
    apply String.eqb_neq in Hk. rewrite Hk. reflexivity.
Qed.



(** ** require: the recursion *)





(** ** require: the paths through the body *)

Lemma require_self pf source target asg prefix tmn compiler w :
  check_target w source target pf = inr None ->
  require pf source target asg prefix tmn compiler w = (inr false, w).
Proof.
  intros H. unfold require, require_body, bind, get_world, lift.
  cbv beta iota. rewrite H. reflexivity.
Qed.

(** The call reaches the transfer loop when the source module has a
    non-empty macro table. *)
Lemma require_explicit pf source target pairs prefix tmn compiler w
    tm ns src ls tgt w1 :
  check_target w source target pf = inr (Some (tm, ns)) ->
  load_source w source tmn tm = inr src ->
  w_hy_macros w !! mod_id src = Some ls ->
  dict_at w ls <> [] ->
  get_target_macros tm ns target w = (inr tgt, w1) ->
  require pf source target (Explicit pairs) prefix tmn compiler w =
  match transfer_pairs src ls tgt (dotted_prefix prefix) compiler pairs w1 with
  | (inl e, w') => (inl e, w')
  | (inr _, w') => (inr true, w')
  end.
Proof.
  intros Hcheck Hload Hattr Hne Htgt.
  unfold require, require_body, bind, get_world, lift.
  cbv beta iota. rewrite Hcheck. cbv beta iota. rewrite Hload.
  unfold setdefault_hy_macros. rewrite Hattr. cbv beta iota.
  destruct (dict_at w ls) as [|entry entries] eqn:Hsrc; [contradiction|].
  rewrite Htgt. cbv beta iota. unfold dotted_prefix.
  destruct (transfer_pairs src ls tgt
              (if String.eqb prefix "" then prefix else prefix +:+ ".")
              compiler pairs w1) as [[e|[]] w']; reflexivity.
Qed.

(** The call reaches the loop over the keys of the source table. *)
Lemma require_keys pf source target (all_ : bool) prefix tmn compiler w
    tm ns src ls tgt w1 :
  check_target w source target pf = inr (Some (tm, ns)) ->
  load_source w source tmn tm = inr src ->
  w_hy_macros w !! mod_id src = Some ls ->
  dict_at w ls <> [] ->
  get_target_macros tm ns target w = (inr tgt, w1) ->
  require pf source target (if all_ then ALL else EXPORTS) prefix tmn
          compiler w =
  match
    transfer_keys src ls tgt (dotted_prefix prefix) compiler all_
      (match mod_export_macros src with
       | Some l => l
       | None => filter (fun k => negb (String.prefix "_" k))
                        (dict_keys (dict_at w ls))
       end)
      (length (dict_keys (dict_at w ls))) (dict_keys (dict_at w ls)) w1
  with
  | (inl e, w') => (inl e, w')
  | (inr _, w') => (inr true, w')
  end.
Proof.
  intros Hcheck Hload Hattr Hne Htgt.
  unfold require, require_body, bind, get_world, lift.
  cbv beta iota. rewrite Hcheck. cbv beta iota. rewrite Hload.
  unfold setdefault_hy_macros. rewrite Hattr. cbv beta iota.
  destruct (dict_at w ls) as [|entry entries] eqn:Hsrc; [contradiction|].
  rewrite Htgt. cbv beta iota. unfold dotted_prefix.
  destruct all_; cbv beta iota;
    match goal with
    | |- context [transfer_keys ?a ?b ?c ?d ?e ?f ?g ?h ?i ?j] =>
        destruct (transfer_keys a b c d e f g h i j) as [[e0|[]] w']
    end; reflexivity.
Qed.



Lemma get_target_macros_frame tm ns target w lt w1 :
  get_target_macros tm ns target w = (inr (Some lt), w1) ->
  forall l, l <> lt -> dict_at w1 l = dict_at w l.
Proof.
  unfold get_target_macros, bind, get_world, ret, setdefault_hy_macros.
  cbv beta iota. intros H l Hl.
  destruct (truthy w tm).
  - destruct ns as [n|]; [|discriminate].
    destruct (w_hy_macros w !! mod_id n) as [l0|].
    + injection H as _ <-. reflexivity.
    + injection H as <- <-. unfold dict_at. simpl.
      rewrite lookup_insert_ne by congruence. reflexivity.
  - injection H as _ <-. reflexivity.
Qed.

(** [k in source_exports]: the declared export list, or by default the
    names that do not start with an underscore. *)
Definition exported (source_module : module) (k : string) : bool :=
  match mod_export_macros source_module with
  | Some l => existsb (String.eqb k) l
  | None => negb (String.prefix "_" k)
  end.

(** The pairs of "ALL" ([all_]) or "EXPORTS" for a source table. *)
Definition key_pairs (all_ : bool) (source_module : module) (source : table)
  : list (string * string) :=
  selected_pairs all_
    (match mod_export_macros source_module with
     | Some l => l
     | None => filter (fun k => negb (String.prefix "_" k)) (dict_keys source)
     end)
    (dict_keys source).

(** "ALL" or "EXPORTS" from a source table whose keys [mangle] accepts
    and leaves alone, into another dict: every selected key is found, and
    the target table ends as the loop over the selected pairs leaves it. *)
Lemma require_keys_spec pf source target (all_ : bool) prefix tmn compiler w
    tm ns src ls lt w1 :
  check_target w source target pf = inr (Some (tm, ns)) ->
  load_source w source tmn tm = inr src ->
  w_hy_macros w !! mod_id src = Some ls ->
  dict_at w ls <> [] ->
  get_target_macros tm ns target w = (inr (Some lt), w1) ->
  ls <> lt ->
  Forall (fun k => k <> "" /\ mangle k = k) (dict_keys (dict_at w ls)) ->
  let pairs := key_pairs all_ src (dict_at w ls) in
  first_missing (dict_at w ls) pairs = None
  /\ exists w',
       require pf source target (if all_ then ALL else EXPORTS) prefix tmn
               compiler w
       = (inr true, w')
       /\ dict_at w' lt
          = bind_pairs (dict_at w ls) (dotted_prefix prefix) pairs
                       (dict_at w1 lt)
       /\ only_dict_changed lt w1 w'.
Proof.
  intros Hcheck Hload Hattr Hne Htgt Hdiff Hkeys pairs.
  assert (Hall : first_missing (dict_at w ls) pairs = None).
  { apply first_missing_selected. apply Forall_forall. intros k Hk.
    split.
    - rewrite Forall_forall in Hkeys. apply (Hkeys k Hk).
    - apply dict_get_key_in. apply list_elem_of_In. exact Hk. }
  split; [exact Hall|].
  rewrite (require_keys _ _ _ all_ _ _ _ _ _ _ _ _ _ _
             Hcheck Hload Hattr Hne Htgt).
  assert (Hsrc : dict_at w1 ls = dict_at w ls)
    by (apply (get_target_macros_frame _ _ _ _ _ _ Htgt); exact Hdiff).
  assert (Hlen : length (dict_keys (dict_at w ls)) = length (dict_at w1 ls))
    by (rewrite Hsrc; unfold dict_keys; apply length_map).
  rewrite Hlen, (transfer_keys_pairs src ls lt _ compiler all_ _ _ Hdiff w1).
  fold (key_pairs all_ src (dict_at w ls)). fold pairs.
  assert (Hok : names_ok (dotted_prefix prefix) pairs = true).
  { apply names_ok_selected. apply Forall_forall. intros k Hk.
    rewrite Forall_forall in Hkeys. apply (Hkeys k Hk). }
  destruct (transfer_pairs_spec src ls lt (dotted_prefix prefix) compiler
              pairs Hdiff Hok w1) as (w' & Hrun & Htab & Hframe).
  rewrite Hsrc in Hrun, Htab. rewrite Hall in Hrun.
  exists w'. rewrite Hrun. repeat split; try assumption; apply Hframe.
Qed.

(** ** require: self-require *)

(** Both arguments name a file, through [get_filename], and [os.stat]
    gives the two files the same identity; at least one of the two is a
    module or a non-empty name. *)
Definition same_file (w : world) (a b : pyval) : Prop :=
  truthy w a || truthy w b = true
  /\ exists p1 p2 i,
       get_filename a = Filename (Some p1)
       /\ get_filename b = Filename (Some p2)
       /\ stat p1 = Some i /\ stat p2 = Some i.

Lemma same_file_same_modules w source tm :
  same_file w source tm -> _same_modules w source tm = inr true.
Proof.
  intros (Ht & p1 & p2 & i & H1 & H2 & Hs1 & Hs2).
  unfold _same_modules. rewrite Ht. simpl.
  destruct (is_same_object tm source); [reflexivity|].
  rewrite H1, H2. unfold samefile. rewrite Hs1, Hs2, Nat.eqb_refl.
  reflexivity.
Qed.

Lemma check_target_same pf source target tm ns w :
  derive_target_module target pf = inr (tm, ns) ->
  _same_modules w source tm = inr true ->
  check_target w source target pf = inr None.
Proof.
  intros Hd Hs. unfold check_target.
  destruct target; try (rewrite Hd, Hs; reflexivity).
  discriminate.
Qed.

(** A source name for which [find_spec] raises is never found to be the
    target, unless it is the very same string object. *)
Lemma check_target_unresolved pf s target tm ns w :
  derive_target_module target pf = inr (tm, ns) ->
  find_spec s = FindSpecError ->
  is_same_object tm (PStr s) = false ->
  check_target w (PStr s) target pf = inr (Some (tm, Some ns)).
Proof.
  intros Hd Hspec Hobj. unfold check_target.
  destruct target as [| | |d]; try discriminate;
    rewrite Hd; unfold _same_modules; rewrite Hobj;
    destruct (negb (truthy w (PStr s) || truthy w tm)) eqn:Ht;
    try reflexivity; simpl get_filename; rewrite Hspec; reflexivity.
Qed.

(** One pair, whatever the two dicts are: the alias is bound. *)
Lemma require_one_pair pf source target name alias prefix tmn compiler w
    tm ns src ls lt w1 m :
  check_target w source target pf = inr (Some (tm, ns)) ->
  load_source w source tmn tm = inr src ->
  w_hy_macros w !! mod_id src = Some ls ->
  dict_at w ls <> [] ->
  get_target_macros tm ns target w = (inr (Some lt), w1) ->
  names_ok (dotted_prefix prefix) [(name, alias)] = true ->
  dict_get (dict_at w1 ls) (mangle name) = Some m ->
  exists w',
    require pf source target (Explicit [(name, alias)]) prefix tmn compiler w
    = (inr true, w')
    /\ dict_get (dict_at w' lt) (mangle (dotted_prefix prefix +:+ alias))
       = Some m.
Proof.
  intros Hcheck Hload Hattr Hne Htgt Hok Hget.
  rewrite (require_explicit _ _ _ _ _ _ _ _ _ _ _ _ _ _
             Hcheck Hload Hattr Hne Htgt).
  simpl in Hok. rewrite andb_true_r in Hok.
  apply andb_true_iff in Hok. destruct Hok as [Hname Halias].
  apply negb_true_iff in Hname, Halias.
  simpl transfer_pairs. unfold bind. rewrite transfer_one_eq, Hname.
  cbv zeta. rewrite Halias, Hget. unfold ret.
  eexists. split; [reflexivity|].
  rewrite dict_at_set_dict_eq, dict_get_dict_set, String.eqb_refl.
  reflexivity.
Qed.

(** C3, as the code has it.  When the target is a module, a module name
    or [None], and the comparison of [_same_modules] succeeds (the source
    and the target module are one object, or [get_filename] gives a path
    for each and [os.stat] gives the two paths one identity), [require]
    returns [False] and leaves the whole store, the target's macro table
    included, as it was.  The comparison never resolves a source name
    against the target: when [find_spec] raises for the name, as it does
    for a relative one, the check lets the call through, and a requested
    name that the loaded source has is bound in the target table with the
    call returning [True], also when the loaded source is the target
    module itself. *)
Theorem self_require_is_noop pf source target asg prefix tmn compiler w tm ns :
  derive_target_module target pf = inr (tm, ns) ->
  (same_file w source tm
   \/ (truthy w source || truthy w tm = true
       /\ is_same_object tm source = true) ->
   require pf source target asg prefix tmn compiler w = (inr false, w))
  /\ (forall s name alias src ls lt w1 m,
        source = PStr s ->
        find_spec s = FindSpecError ->
        is_same_object tm (PStr s) = false ->
        load_source w source tmn tm = inr src ->
        w_hy_macros w !! mod_id src = Some ls ->
        dict_at w ls <> [] ->
        get_target_macros tm (Some ns) target w = (inr (Some lt), w1) ->
        names_ok (dotted_prefix prefix) [(name, alias)] = true ->
        dict_get (dict_at w1 ls) (mangle name) = Some m ->
        exists w',
          require pf source target (Explicit [(name, alias)]) prefix tmn
                  compiler w
          = (inr true, w')
          /\ dict_get (dict_at w' lt) (mangle (dotted_prefix prefix +:+ alias))
             = Some m).
Proof.
  intros Hd. split.
  - intros Hsame. apply require_self.
    apply (check_target_same _ _ _ _ _ _ Hd).
    destruct Hsame as [Hsame | [Ht Hobj]].
    + apply same_file_same_modules. exact Hsame.
    + unfold _same_modules. rewrite Ht, Hobj. reflexivity.
  - intros s name alias src ls lt w1 m -> Hspec Hobj Hload Hattr Hne Htgt
           Hok Hget.
    apply (require_one_pair pf (PStr s) target name alias prefix tmn compiler
             w tm (Some ns) src ls lt w1 m); try assumption.
    apply check_target_unresolved; assumption.
Qed.

(** ** require: an explicit list of names *)

Lemma first_missing_app source pre name alias post :
  first_missing source pre = None ->
  dict_get source (mangle name) = None ->
  first_missing source (pre ++ (name, alias) :: post) = Some (mangle name).
Proof.
  induction pre as [|[n a] pre IH]; simpl; intros Hpre Hname.
  - rewrite Hname. reflexivity.
  - destruct (dict_get source (mangle n)); [|discriminate].
    apply IH; assumption.
Qed.

Lemma bind_pairs_app source prefix pre name alias post :
  first_missing source pre = None ->
  dict_get source (mangle name) = None ->
  forall target,
    bind_pairs source prefix (pre ++ (name, alias) :: post) target
    = bind_pairs source prefix pre target.
Proof.
  induction pre as [|[n a] pre IH]; simpl; intros Hpre Hname target.
  - rewrite Hname. reflexivity.
  - destruct (dict_get source (mangle n)); [|discriminate].
    apply IH; assumption.
Qed.

(** C4, as the code has it.  For a call that gets past the self-require
    check, with names and prefixed aliases that are not empty, a source
    module whose macro table is not empty and is not the target's: when
    the source table has every requested name the call returns [True] and
    the target table is the old one with every alias bound, in order;
    otherwise the call raises the require error that names the first
    missing name and the source module, and the target table keeps the
    bindings of the pairs before that name: the names found before the
    missing one have been transferred. *)
Theorem explicit_require_transfer pf source target pairs prefix tmn compiler
    w tm ns src ls lt w1 :
  check_target w source target pf = inr (Some (tm, ns)) ->
  load_source w source tmn tm = inr src ->
  w_hy_macros w !! mod_id src = Some ls ->
  dict_at w ls <> [] ->
  get_target_macros tm ns target w = (inr (Some lt), w1) ->
  ls <> lt ->
  names_ok (dotted_prefix prefix) pairs = true ->
  exists w',
    require pf source target (Explicit pairs) prefix tmn compiler w =
      (match first_missing (dict_at w ls) pairs with
       | None => inr true
       | Some name => inl (require_error name src)
       end, w')
    /\ dict_at w' lt
       = bind_pairs (dict_at w ls) (dotted_prefix prefix) pairs (dict_at w1 lt)
    /\ only_dict_changed lt w1 w'
    /\ (first_missing (dict_at w ls) pairs = None ->
        forall name alias,
          In (name, alias) pairs ->
          dict_in (mangle (dotted_prefix prefix +:+ alias)) (dict_at w' lt)
          = true)
    /\ (forall pre name alias post,
          pairs = pre ++ (name, alias) :: post ->
          first_missing (dict_at w ls) pre = None ->
          dict_get (dict_at w ls) (mangle name) = None ->
          fst (require pf source target (Explicit pairs) prefix tmn compiler w)
            = inl (require_error (mangle name) src)
          /\ dict_at w' lt
             = bind_pairs (dict_at w ls) (dotted_prefix prefix) pre
                          (dict_at w1 lt)
          /\ forall n a,
               In (n, a) pre ->
               dict_in (mangle (dotted_prefix prefix +:+ a)) (dict_at w' lt)
               = true).
Proof.
  intros Hcheck Hload Hattr Hne Htgt Hdiff Hok.
  rewrite (require_explicit _ _ _ _ _ _ _ _ _ _ _ _ _ _
             Hcheck Hload Hattr Hne Htgt).
  destruct (transfer_pairs_spec src ls lt (dotted_prefix prefix) compiler
              pairs Hdiff Hok w1) as (w' & Hrun & Htab & Hframe).
  assert (Hsrc : dict_at w1 ls = dict_at w ls)
    by (apply (get_target_macros_frame _ _ _ _ _ _ Htgt); exact Hdiff).
  rewrite Hsrc in Hrun, Htab.
  exists w'. rewrite Hrun.
  split; [destruct (first_missing (dict_at w ls) pairs); reflexivity|].
  split; [exact Htab|]. split; [exact Hframe|]. split.
  - intros Hall name alias Hin. rewrite Htab.
    apply (bind_pairs_binds _ _ _ Hall _ name alias Hin).
  - intros pre name alias post -> Hpre Hname.
    rewrite (first_missing_app _ _ _ alias post Hpre Hname).
    split; [reflexivity|].
    rewrite Htab, (bind_pairs_app _ _ _ _ alias post Hpre Hname).
    split; [reflexivity|].
    intros n a Hin. apply (bind_pairs_binds _ _ _ Hpre _ n a Hin).
Qed.

(** ** require: a source module without macros *)


(** ** require: a dict as target *)

(** C10, as the code has it.  With a dict as target there is no
    self-require check: even when the source resolves to the file of the
    calling module, the requested names are bound in the dict and the
    call returns [True].  With [None], a module name or a module as
    target, a source for which the comparison of [_same_modules] succeeds
    makes the call return [False] and change nothing; a source name for
    which [find_spec] raises, as it does for a relative name, passes the
    check whatever module it is then imported as: when it is imported as
    the target module itself, a requested name that the module has is
    bound again in its own table under the alias and the call returns
    [True]. *)
Theorem dict_target_skips_self_check pf source d pairs prefix tmn compiler
    w src ls :
  same_file w source (PStr (mod_name pf)) ->
  load_source w source tmn PNone = inr src ->
  w_hy_macros w !! mod_id src = Some ls ->
  dict_at w ls <> [] ->
  ls <> d ->
  names_ok (dotted_prefix prefix) pairs = true ->
  first_missing (dict_at w ls) pairs = None ->
  (exists w',
     require pf source (PDict d) (Explicit pairs) prefix tmn compiler w
       = (inr true, w')
     /\ dict_at w' d
        = bind_pairs (dict_at w ls) (dotted_prefix prefix) pairs (dict_at w d)
     /\ forall name alias,
          In (name, alias) pairs ->
          dict_in (mangle (dotted_prefix prefix +:+ alias)) (dict_at w' d)
          = true)
  /\ (forall asg,
        require pf source PNone asg prefix tmn compiler w = (inr false, w))
  /\ (forall target tm ns asg,
        derive_target_module target pf = inr (tm, ns) ->
        same_file w source tm ->
        require pf source target asg prefix tmn compiler w = (inr false, w))
  /\ (forall s target tm ns name alias l m w0,
        derive_target_module target pf = inr (tm, ns) ->
        truthy w0 tm = true ->
        find_spec s = FindSpecError ->
        is_same_object tm (PStr s) = false ->
        load_source w0 (PStr s) tmn tm = inr ns ->
        w_hy_macros w0 !! mod_id ns = Some l ->
        names_ok (dotted_prefix prefix) [(name, alias)] = true ->
        dict_get (dict_at w0 l) (mangle name) = Some m ->
        exists w',
          require pf (PStr s) target (Explicit [(name, alias)]) prefix tmn
                  compiler w0
          = (inr true, w')
          /\ dict_get (dict_at w' l) (mangle (dotted_prefix prefix +:+ alias))
             = Some m).
Proof.
  intros Hsame Hload Hattr Hne Hdiff Hok Hall.
  split; [|split; [|split]].
  - assert (Htgt : get_target_macros PNone None (PDict d) w = (inr (Some d), w))
      by reflexivity.
    rewrite (require_explicit pf source (PDict d) pairs prefix tmn compiler w
               PNone None src ls (Some d) w eq_refl Hload Hattr Hne Htgt).
    destruct (transfer_pairs_spec src ls d (dotted_prefix prefix) compiler
                pairs Hdiff Hok w) as (w' & Hrun & Htab & _).
    rewrite Hall in Hrun. exists w'. rewrite Hrun.
    split; [reflexivity|]. split; [exact Htab|].
    intros name alias Hin. rewrite Htab.
    apply (bind_pairs_binds _ _ _ Hall _ name alias Hin).
  - intros asg. apply require_self.
    apply (check_target_same pf source PNone (PStr (mod_name pf)) pf w);
      [reflexivity|].
    apply same_file_same_modules. exact Hsame.
  - intros target tm ns asg Hd Hs. apply require_self.
    apply (check_target_same _ _ _ _ _ _ Hd).
    apply same_file_same_modules. exact Hs.
  - intros s target tm ns name alias l m w0 Hd Ht Hspec Hobj Hload0 Hattr0
           Hok0 Hget.
    apply (require_one_pair pf (PStr s) target name alias prefix tmn compiler
             w0 tm (Some ns) ns l l w0 m); try assumption.
    + apply check_target_unresolved; assumption.
    + intros Hnil. rewrite Hnil in Hget. discriminate Hget.
    + unfold get_target_macros, bind, get_world, ret. rewrite Ht.
      unfold setdefault_hy_macros. rewrite Hattr0. reflexivity.
Qed.

(** * Further properties of the code *)

(** ** _same_modules *)

(** A module name or a module object: what [require] is documented to
    receive as source, and what [derive_target_module] hands on. *)
Definition is_name_or_module (v : pyval) : bool :=
  match v with
  | PStr _ | PModule _ => true
  | _ => false
  end.


(** ** macroexpand: single steps, results, loops *)

Lemma expand_loop_once module_ compiler result_ok fuel tree w :
  expand_loop module_ compiler true result_ok (S fuel) tree w
  = expand_loop module_ compiler true result_ok 1 tree w.
Proof.
  destruct tree; reflexivity.
Qed.

(** With [once], and so for [macroexpand_1], the loop condition is
    evaluated once and at most one macro is invoked: the call returns or
    raises whatever the macros expand to. *)
Theorem macroexpand_once_one_round fuel tree marg compiler result_ok w :
  macroexpand (S fuel) tree marg compiler true result_ok w
  = macroexpand 1 tree marg compiler true result_ok w
  /\ exists r, macroexpand 1 tree marg compiler true result_ok w = Some r.
Proof.
  unfold macroexpand. split.
  - destruct (module_of_arg marg) as [e|m]; [reflexivity|].
    rewrite expand_loop_once. reflexivity.
  - destruct (module_of_arg marg) as [e|m]; [eexists; reflexivity|].
    destruct (compiler_given compiler
              && negb (Nat.eqb (c_module (w_compiler w)) (mod_id m)));
      [eexists; reflexivity|].
    destruct tree as [s|s|s|n|items|items|r]; try (eexists; reflexivity).
    destruct items as [|fn args]; [eexists; reflexivity|].
    simpl. destruct (head_name fn) as [e|[name|]]; try (eexists; reflexivity).
    destruct (resolve_macro compiler m name w) as [m0|];
      [|eexists; reflexivity].
    destruct (invoke compiler result_ok m0 fn args w) as [[[t|v|e]|tree'] w2];
      eexists; reflexivity.
Qed.

Lemma first_scope_binding_set_this tree w fn ds :
  first_scope_binding (set_this tree w) fn ds = first_scope_binding w fn ds.
Proof. induction ds as [|d ds IH]; simpl; [reflexivity|]. rewrite IH. reflexivity. Qed.

Lemma resolve_macro_enter compiler compiler' module_ fn tree w :
  resolve_macro compiler module_ fn (enter_macro compiler' tree w)
  = resolve_macro compiler module_ fn w.
Proof.
  unfold enter_macro. destruct (compiler_given compiler'); [|reflexivity].
  unfold resolve_macro.
  change (c_local_state_stack (w_compiler (set_this tree w)))
    with (c_local_state_stack (w_compiler w)).
  rewrite first_scope_binding_set_this. reflexivity.
Qed.

Lemma enter_macro_twice compiler tree w :
  enter_macro compiler tree (enter_macro compiler tree w)
  = enter_macro compiler tree w.
Proof. unfold enter_macro. destruct (compiler_given compiler); reflexivity. Qed.

(** The loop has no bound of its own: a macro whose expansion is its own
    call form, and which leaves the store as it found it, keeps
    [macroexpand] in the loop for ever.  No number of rounds is enough. *)
Theorem self_expanding_macro_never_returns marg module_ compiler result_ok
    fn args name m obj w :
  module_of_arg marg = inr module_ ->
  assertion_holds compiler module_ w ->
  head_name fn = inr (Some name) ->
  resolve_macro compiler module_ name w = Some m ->
  call_macro m compiler args (enter_macro compiler (Expression (fn :: args)) w)
    = (Returns (RModel obj), enter_macro compiler (Expression (fn :: args)) w) ->
  replace_hy_obj obj (Expression (fn :: args)) = inr (Expression (fn :: args)) ->
  forall fuel,
    macroexpand fuel (Expression (fn :: args)) marg compiler false result_ok w
    = None.
Proof.
  intros Hmarg Hassert Hn Hr Hcall Hsame fuel.
  rewrite (macroexpand_module _ _ _ _ _ _ _ _ Hmarg Hassert).
  set (tree := Expression (fn :: args)) in *.
  set (w1 := enter_macro compiler tree w) in *.
  assert (Hloop : forall n w0,
            enter_macro compiler tree w0 = w1 ->
            resolve_macro compiler module_ name w0 = Some m ->
            expand_loop module_ compiler false result_ok n tree w0 = None).
  { induction n as [|n IH]; intros w0 Hw0 Hr0; [reflexivity|].
    unfold tree. rewrite (expand_loop_step _ _ _ _ _ _ _ _ _ Hn), Hr0.
    unfold invoke. fold tree. rewrite Hw0, Hcall, Hsame.
    apply IH.
    - unfold w1. apply enter_macro_twice.
    - unfold w1. rewrite resolve_macro_enter. exact Hr. }
  rewrite (Hloop fuel w eq_refl Hr). reflexivity.
Qed.

(** When the caller does not accept compiled results ([result_ok] false),
    [macroexpand] never returns one: whatever it returns is a tree. *)
Theorem result_not_ok_returns_tree fuel tree marg compiler once w v w' :
  macroexpand fuel tree marg compiler once false w = Some (inr v, w') ->
  exists t, v = VTree t.
Proof.
  unfold macroexpand. intros H.
  destruct (module_of_arg marg) as [e|m]; [discriminate|].
  destruct (compiler_given compiler
            && negb (Nat.eqb (c_module (w_compiler w)) (mod_id m)));
    [discriminate|].
  destruct (expand_loop m compiler once false fuel tree w)
    as [[[t|v0|e0] w0]|] eqn:Hloop; try discriminate.
  - simpl in H. unfold normalized in H.
    destruct (as_model t) as [e|t']; [discriminate|].
    injection H as <- _. eexists. reflexivity.
  - injection H as <- _.
    destruct (expand_loop_exit_shape _ _ _ _ _ _ _ _ _ Hloop)
      as (fn & args & m0 & r & w1 & _ & ->).
    eexists. reflexivity.
Qed.

(** ** import_module_from_string: relative names *)

(** [k] dots. *)
Fixpoint dots (k : nat) : string :=
  match k with
  | O => EmptyString
  | S k' => String "."%char (dots k')
  end.

(** What the [try] around [importlib.import_module] makes of its
    outcome. *)
Definition imported_as (r : import_result) : error + module :=
  match r with
  | Imported m => inr m
  | ImportFails arg0 => inl (HyRequireError arg0)
  | ImportRaises e => inl (Propagated e)
  end.

Lemma split_dots_dots k rest :
  split_dots (dots k +:+ rest) = replicate k EmptyString ++ split_dots rest.
Proof.
  induction k as [|k IH]; [reflexivity|].
  change (EmptyString :: split_dots (dots k +:+ rest)
          = EmptyString :: (replicate k EmptyString ++ split_dots rest)).
  rewrite IH. reflexivity.
Qed.

Lemma split_dots_cons c rest :
  Ascii.eqb c "."%char = false ->
  exists x xs, split_dots (String c rest) = String c x :: xs.
Proof.
  intros Hc. simpl. rewrite Hc.
  destruct (split_dots rest) as [|x xs]; eexists; eexists; reflexivity.
Qed.

Lemma removelast_take {A : Type} (l : list A) :
  removelast l = take (length l - 1) l.
Proof.
  induction l as [|x l IH]; [reflexivity|].
  destruct l as [|y l]; [reflexivity|].
  change (removelast (x :: y :: l)) with (x :: removelast (y :: l)).
  rewrite IH. simpl. rewrite Nat.sub_0_r. reflexivity.
Qed.

Lemma strip_levels_empty_head l target_dirs :
  l <> [] ->
  strip_levels (EmptyString :: l) target_dirs
  = if negb (Nat.eqb (length target_dirs) 0)
    then strip_levels l (removelast target_dirs)
    else (EmptyString :: l, target_dirs).
Proof. destruct l; [contradiction|reflexivity]. Qed.

(** The [while] loop drops one trailing component of the target's name
    for each leading empty component of the source name, as long as the
    target has components left. *)
Lemma strip_levels_dots k x segs :
  x <> EmptyString ->
  forall target_dirs,
    strip_levels (replicate k EmptyString ++ x :: segs) target_dirs
    = (replicate (k - length target_dirs) EmptyString ++ x :: segs,
       take (length target_dirs - k) target_dirs).
Proof.
  intros Hx. induction k as [|k IH]; intros t.
  - simpl. rewrite Nat.sub_0_r, firstn_all.
    destruct segs as [|y segs]; [reflexivity|].
    destruct (String.eqb x "") eqn:E; [|reflexivity].
    apply String.eqb_eq in E. contradiction.
  - change (replicate (S k) EmptyString ++ x :: segs)
      with (EmptyString :: (replicate k EmptyString ++ x :: segs)).
    rewrite strip_levels_empty_head by (destruct k; discriminate).
    destruct t as [|t0 t]; [reflexivity|].
    change (Nat.eqb (length (t0 :: t)) 0) with false. simpl negb.
    cbv iota. rewrite IH, removelast_take.
    rewrite length_take, take_take.
    f_equal; [f_equal; f_equal; simpl length; lia | f_equal; simpl length; lia].
Qed.

Lemma prefix_dot s : String.prefix "." (String "."%char s) = true.
Proof. simpl. destruct s; reflexivity. Qed.

(** A relative name, [k+1] dots and then a name that does not start with
    a dot, is imported relative to the package found by dropping [k+1]
    trailing components from the name of the target module (all of them
    when it has fewer) and appending the components of the name but the
    last; the outcome of the import is handed on, with [ImportError]
    turned into a require error of the same message. *)
Theorem relative_import_package k c rest package_module package_name :
  Ascii.eqb c "."%char = false ->
  match package_module with
  | PModule m => Some (mod_name m)
  | PStr s => Some s
  | _ => None
  end = Some package_name ->
  let name := dots (S k) +:+ String c rest in
  let target_dirs := split_dots package_name in
  import_module_from_string name package_module
  = imported_as
      (import_module name
         (Some (String.concat "."
                  (take (length target_dirs - S k) target_dirs
                   ++ removelast
                        (replicate (S k - length target_dirs) EmptyString
                         ++ split_dots (String c rest)))))).
Proof.
  intros Hc Hpkg name target_dirs.
  unfold import_module_from_string.
  change name with (String "."%char (dots k +:+ String c rest)) at 1.
  rewrite prefix_dot, Hpkg.
  unfold name. rewrite split_dots_dots.
  destruct (split_dots_cons c rest Hc) as (x & xs & Hsplit).
  rewrite Hsplit.
  rewrite strip_levels_dots by discriminate.
  fold target_dirs.
  destruct (import_module
              (dots (S k) +:+ String c rest)
              (Some (String.concat "."
                       (take (length target_dirs - S k) target_dirs
                        ++ removelast
                             (replicate (S k - length target_dirs) EmptyString
                              ++ String c x :: xs)))));
    reflexivity.
Qed.

(** A name that does not start with a dot is imported as it is, with no
    package. *)
Lemma absolute_import c rest package_module :
  Ascii.eqb c "."%char = false ->
  import_module_from_string (String c rest) package_module
  = imported_as (import_module (String c rest) None).
Proof.
  intros Hc. unfold import_module_from_string.
  change (String.prefix "." (String c rest))
    with (match ascii_dec "."%char c with
          | left _ => String.prefix "" rest
          | right _ => false
          end).
  destruct (ascii_dec "."%char c) as [<-|_]; [discriminate|].
  destruct (import_module (String c rest) None); reflexivity.
Qed.

(** ** require: "ALL" and "EXPORTS" *)

Lemma bound_value_selected source all_ exports keys k :
  Forall (fun k => mangle k = k) keys ->
  bound_value source "" (selected_pairs all_ exports keys) k
  = if existsb (String.eqb k) keys
       && (all_ || existsb (String.eqb k) exports)
    then dict_get source k else None.
Proof.
  unfold selected_pairs. induction 1 as [|k0 keys Hk0 _ IH]; simpl.
  - reflexivity.
  - destruct (all_ || existsb (String.eqb k0) exports) eqn:Hsel; simpl.
    + rewrite IH. change ("" +:+ k0) with k0. rewrite Hk0.
      destruct (String.eqb k k0) eqn:Hk.
      * apply String.eqb_eq in Hk. subst k0. rewrite Hsel. simpl.
        destruct (existsb (String.eqb k) keys); simpl; [|reflexivity].
        destruct (dict_get source k); reflexivity.
      * simpl.
        destruct (existsb (String.eqb k) keys
                  && (all_ || existsb (String.eqb k) exports));
          [|reflexivity].
        destruct (dict_get source k); reflexivity.
    + rewrite IH. destruct (String.eqb k k0) eqn:Hk; [|reflexivity].
      apply String.eqb_eq in Hk. subst k0. rewrite Hsel, andb_false_r.
      reflexivity.
Qed.

Lemma existsb_default_exports k (keys : list string) :
  existsb (String.eqb k)
          (filter (fun k => negb (String.prefix "_" k)) keys)
  = existsb (String.eqb k) keys && negb (String.prefix "_" k).
Proof.
  induction keys as [|k0 keys IH]; [reflexivity|].
  rewrite filter_cons. destruct (decide (negb (String.prefix "_" k0))) as [Hd|Hd].
  - simpl. rewrite IH.
    destruct (String.eqb k k0) eqn:Hk; [|reflexivity].
    apply String.eqb_eq in Hk. subst k0. simpl.
    apply Is_true_true in Hd. rewrite Hd. reflexivity.
  - simpl. rewrite IH.
    destruct (String.eqb k k0) eqn:Hk; [|reflexivity].
    apply String.eqb_eq in Hk. subst k0. simpl.
    apply Is_true_false in Hd. rewrite Hd, andb_false_r. reflexivity.
Qed.

(** With "ALL" and no prefix, for a call that gets past the self-require
    check, on a source table that is not empty, is another dict than the
    target table, and whose names are not empty and already mangled: the
    call returns [True]; afterwards the target table agrees with the
    source table on every name of the source and has kept its other
    bindings.  With "EXPORTS" the same holds for the exported names, and
    the names that are not exported are as they were in the target.
    Nothing else in the store changes. *)
Theorem require_all_or_exports pf source target (all_ : bool) tmn compiler w
    tm ns src ls lt w1 :
  check_target w source target pf = inr (Some (tm, ns)) ->
  load_source w source tmn tm = inr src ->
  w_hy_macros w !! mod_id src = Some ls ->
  dict_at w ls <> [] ->
  get_target_macros tm ns target w = (inr (Some lt), w1) ->
  ls <> lt ->
  Forall (fun k => k <> "" /\ mangle k = k) (dict_keys (dict_at w ls)) ->
  exists w',
    require pf source target (if all_ then ALL else EXPORTS) "" tmn compiler w
      = (inr true, w')
    /\ (forall k,
          dict_get (dict_at w' lt) k
          = if all_ || exported src k
            then match dict_get (dict_at w ls) k with
                 | Some m => Some m
                 | None => dict_get (dict_at w1 lt) k
                 end
            else dict_get (dict_at w1 lt) k)
    /\ only_dict_changed lt w1 w'.
Proof.
  intros Hcheck Hload Hattr Hne Htgt Hdiff Hkeys.
  destruct (require_keys_spec pf source target all_ "" tmn compiler w tm ns
              src ls lt w1 Hcheck Hload Hattr Hne Htgt Hdiff Hkeys)
    as (Hall & w' & Hrun & Htab & Hframe).
  exists w'. split; [exact Hrun|]. split; [|exact Hframe].
  assert (Hmangled : Forall (fun k => mangle k = k) (dict_keys (dict_at w ls))).
  { apply Forall_forall. intros k Hk. rewrite Forall_forall in Hkeys.
    apply (Hkeys k Hk). }
  intros k. rewrite Htab, (dict_get_bind_pairs _ _ _ Hall).
  change (dotted_prefix "") with "". unfold key_pairs.
  rewrite (bound_value_selected _ _ _ _ _ Hmangled).
  set (keys := dict_keys (dict_at w ls)).
  assert (Hexp : existsb (String.eqb k) keys
                 && (all_ || existsb (String.eqb k)
                               (match mod_export_macros src with
                                | Some l => l
                                | None =>
                                    filter (fun k => negb (String.prefix "_" k))
                                           keys
                                end))
                 = existsb (String.eqb k) keys && (all_ || exported src k)).
  { unfold exported.
    destruct (mod_export_macros src) as [l|]; [reflexivity|].
    rewrite existsb_default_exports.
    destruct (existsb (String.eqb k) keys); [reflexivity|reflexivity]. }
  rewrite Hexp.
  destruct (existsb (String.eqb k) keys) eqn:Hin; simpl.
  - destruct (all_ || exported src k); reflexivity.
  - rewrite (existsb_keys_dict_get _ _ Hin).
    destruct (all_ || exported src k); reflexivity.
Qed.

(** ** require: the compiler's hook *)

(** The pairs for which the loop calls the hook: those it reaches and
    whose name [mangle] accepts.  The loop stops at a name that is empty
    (before the call), at a prefixed alias that is empty and at a name
    that the source table lacks (both after the call). *)
Fixpoint attempted (source : table) (prefix : string)
    (pairs : list (string * string)) : list (string * string) :=
  match pairs with
  | [] => []
  | (name, alias) :: rest =>
      if String.eqb name "" then []
      else if String.eqb (prefix +:+ alias) "" then [(name, alias)]
      else
        match dict_get source (mangle name) with
        | Some _ => (name, alias) :: attempted source prefix rest
        | None => [(name, alias)]
        end
  end.

Lemma transfer_pairs_calls source_module ls lt prefix compiler pairs :
  ls <> lt ->
  forall w,
    c_core_shadow_calls
      (w_compiler
         (snd (transfer_pairs source_module ls (Some lt) prefix compiler
                              pairs w)))
    = c_core_shadow_calls (w_compiler w)
      ++ (if compiler_given compiler
          then map (fun pr => prefix +:+ snd pr)
                   (attempted (dict_at w ls) prefix pairs)
          else []).
Proof.
  intros Hne. induction pairs as [|[name alias] rest IH]; intros w.
  - simpl. destruct (compiler_given compiler); rewrite app_nil_r; reflexivity.
  - simpl transfer_pairs. unfold bind. rewrite transfer_one_eq.
    simpl attempted.
    destruct (String.eqb name "").
    { simpl. destruct (compiler_given compiler); rewrite app_nil_r; reflexivity. }
    cbv zeta.
    destruct (String.eqb (prefix +:+ alias) "").
    { simpl. unfold warned. destruct (compiler_given compiler); simpl.
      - reflexivity.
      - rewrite app_nil_r. reflexivity. }
    destruct (dict_get (dict_at w ls) (mangle name)) as [m|].
    + cbv iota. rewrite IH.
      rewrite dict_at_set_dict_ne by congruence. rewrite dict_at_warned.
      unfold warned. destruct (compiler_given compiler); simpl.
      * rewrite <- app_assoc. reflexivity.
      * reflexivity.
    + simpl. unfold warned. destruct (compiler_given compiler); simpl.
      * reflexivity.
      * rewrite app_nil_r. reflexivity.
Qed.

Lemma get_target_macros_compiler tm ns target w tgt w1 :
  get_target_macros tm ns target w = (inr tgt, w1) ->
  w_compiler w1 = w_compiler w.
Proof.
  unfold get_target_macros, bind, get_world, ret, setdefault_hy_macros.
  cbv beta iota. intros H.
  destruct (truthy w tm).
  - destruct ns as [n|]; [|injection H as _ <-; reflexivity].
    destruct (w_hy_macros w !! mod_id n) as [l0|];
      injection H as _ <-; reflexivity.
  - injection H as _ <-. reflexivity.
Qed.

(** With a compiler, [require] calls [compiler.warn_on_core_shadow] once
    for every pair it looks at, in order, the pair with the first missing
    name included, and passes the prefix, a dot and the alias, not yet
    mangled; a pair with an empty name stops the loop before the call.
    Without a compiler it makes no such call. *)
Theorem require_core_shadow_calls pf source target pairs prefix tmn compiler
    w tm ns src ls lt w1 :
  check_target w source target pf = inr (Some (tm, ns)) ->
  load_source w source tmn tm = inr src ->
  w_hy_macros w !! mod_id src = Some ls ->
  dict_at w ls <> [] ->
  get_target_macros tm ns target w = (inr (Some lt), w1) ->
  ls <> lt ->
  c_core_shadow_calls
    (w_compiler
       (snd (require pf source target (Explicit pairs) prefix tmn compiler w)))
  = c_core_shadow_calls (w_compiler w)
    ++ (if compiler_given compiler
        then map (fun pr => dotted_prefix prefix +:+ snd pr)
                 (attempted (dict_at w ls) (dotted_prefix prefix) pairs)
        else []).
Proof.
  intros Hcheck Hload Hattr Hne Htgt Hdiff.
  rewrite (require_explicit _ _ _ _ _ _ _ _ _ _ _ _ _ _
             Hcheck Hload Hattr Hne Htgt).
  pose proof (transfer_pairs_calls src ls lt (dotted_prefix prefix) compiler
                pairs Hdiff w1) as Hcalls.
  rewrite (get_target_macros_frame _ _ _ _ _ _ Htgt ls Hdiff) in Hcalls.
  rewrite (get_target_macros_compiler _ _ _ _ _ _ Htgt) in Hcalls.
  destruct (transfer_pairs src ls (Some lt) (dotted_prefix prefix) compiler
              pairs w1) as [[e|[]] w']; exact Hcalls.
Qed.

(** ** require: doing it again *)

Lemma truthy_name_or_module w w' v :
  is_name_or_module v = true -> truthy w' v = truthy w v.
Proof. destruct v; try discriminate; reflexivity. Qed.

Lemma derive_target_module_kind target pf tm ns :
  derive_target_module target pf = inr (tm, ns) -> is_name_or_module tm = true.
Proof.
  destruct target as [|s|m|d]; simpl; try discriminate.
  - intros H. injection H as <- _. reflexivity.
  - destruct (import_module s None); try discriminate.
    intros H. injection H as <- _. reflexivity.
  - intros H. injection H as <- _. reflexivity.
Qed.

Lemma same_modules_store w w' source tm :
  is_name_or_module source = true ->
  is_name_or_module tm = true ->
  _same_modules w' source tm = _same_modules w source tm.
Proof.
  intros Hs Ht. unfold _same_modules.
  rewrite (truthy_name_or_module w w' _ Hs), (truthy_name_or_module w w' _ Ht).
  reflexivity.
Qed.

Lemma check_target_store w w' source target pf :
  is_name_or_module source = true ->
  check_target w' source target pf = check_target w source target pf.
Proof.
  intros Hs. unfold check_target. destruct target as [|s|m|d];
    try reflexivity;
    (destruct (derive_target_module _ pf) as [e|[tm ns]] eqn:Hd;
     [reflexivity|];
     rewrite (same_modules_store w w' _ _ Hs
                (derive_target_module_kind _ _ _ _ Hd)); reflexivity).
Qed.

Lemma check_target_tm w source target pf tm ns :
  check_target w source target pf = inr (Some (tm, ns)) ->
  forall w', truthy w' tm = truthy w tm.
Proof.
  unfold check_target. intros H w'.
  destruct target as [|s|m|d];
    try (destruct (derive_target_module _ pf) as [e|[tm0 ns0]] eqn:Hd;
         [discriminate|];
         destruct (_same_modules w source tm0) as [e|[]]; try discriminate;
         injection H as <- _;
         apply truthy_name_or_module;
         apply (derive_target_module_kind _ _ _ _ Hd)).
  injection H as <- _. reflexivity.
Qed.

Lemma load_source_store w w' source tmn tm :
  (forall w0, truthy w0 tm = truthy w tm) ->
  load_source w' source tmn tm = load_source w source tmn tm.
Proof.
  intros Ht. unfold load_source, package_of. rewrite (Ht w'). reflexivity.
Qed.

Lemma get_target_macros_attrs tm ns target w lt w1 :
  get_target_macros tm ns target w = (inr (Some lt), w1) ->
  forall i l, w_hy_macros w !! i = Some l -> w_hy_macros w1 !! i = Some l.
Proof.
  unfold get_target_macros, bind, get_world, ret, setdefault_hy_macros.
  cbv beta iota. intros H i l Hi.
  destruct (truthy w tm).
  - destruct ns as [n|]; [|discriminate].
    destruct (w_hy_macros w !! mod_id n) as [l0|] eqn:Hn.
    + injection H as _ <-. exact Hi.
    + injection H as _ <-. simpl.
      rewrite lookup_insert_ne; [exact Hi|]. congruence.
  - injection H as _ <-. exact Hi.
Qed.

Lemma get_target_macros_again tm ns target w lt w1 w' :
  get_target_macros tm ns target w = (inr (Some lt), w1) ->
  truthy w' tm = truthy w tm ->
  w_hy_macros w' = w_hy_macros w1 ->
  get_target_macros tm ns target w' = (inr (Some lt), w').
Proof.
  unfold get_target_macros, bind, get_world, ret, setdefault_hy_macros.
  cbv beta iota. intros H Ht Hattr. rewrite Ht.
  destruct (truthy w tm).
  - destruct ns as [n|]; [|discriminate]. rewrite Hattr.
    destruct (w_hy_macros w !! mod_id n) as [l0|] eqn:Hn.
    + injection H as <- <-. rewrite Hn. reflexivity.
    + injection H as <- <-. simpl. rewrite lookup_insert_eq. reflexivity.
  - injection H as -> _. reflexivity.
Qed.

(** A [require] of an explicit list, with names and prefixed aliases
    that are not empty, that got past the self-require check, loaded a
    source whose table is not empty, found every name, and wrote to
    another dict than the source table can be repeated: the second call
    succeeds too and leaves every lookup in the target table as the first
    call left it. *)
Theorem require_again_changes_nothing pf source target pairs prefix tmn
    compiler w tm ns src ls lt w1 :
  is_name_or_module source = true ->
  check_target w source target pf = inr (Some (tm, ns)) ->
  load_source w source tmn tm = inr src ->
  w_hy_macros w !! mod_id src = Some ls ->
  dict_at w ls <> [] ->
  get_target_macros tm ns target w = (inr (Some lt), w1) ->
  ls <> lt ->
  names_ok (dotted_prefix prefix) pairs = true ->
  first_missing (dict_at w ls) pairs = None ->
  exists w' w'',
    require pf source target (Explicit pairs) prefix tmn compiler w
      = (inr true, w')
    /\ require pf source target (Explicit pairs) prefix tmn compiler w'
       = (inr true, w'')
    /\ forall k, dict_get (dict_at w'' lt) k = dict_get (dict_at w' lt) k.
Proof.
  intros Hs Hcheck Hload Hattr Hne Htgt Hdiff Hok Hall.
  rewrite (require_explicit _ _ _ _ _ _ _ _ _ _ _ _ _ _
             Hcheck Hload Hattr Hne Htgt).
  destruct (transfer_pairs_spec src ls lt (dotted_prefix prefix) compiler
              pairs Hdiff Hok w1) as (w' & Hrun & Htab & Hframe).
  assert (Hsrc1 : dict_at w1 ls = dict_at w ls)
    by (apply (get_target_macros_frame _ _ _ _ _ _ Htgt); exact Hdiff).
  rewrite Hsrc1 in Hrun, Htab. rewrite Hall in Hrun.
  destruct Hframe as (Hdicts & Hattrs & _ & _).
  assert (Hsrc' : dict_at w' ls = dict_at w ls).
  { rewrite <- Hsrc1. unfold dict_at. f_equal. exact (Hdicts ls Hdiff). }
  assert (Htm := check_target_tm _ _ _ _ _ _ Hcheck).
  assert (Hcheck' : check_target w' source target pf = inr (Some (tm, ns)))
    by (rewrite (check_target_store w w' _ _ _ Hs); exact Hcheck).
  assert (Hload' : load_source w' source tmn tm = inr src)
    by (rewrite (load_source_store w w' _ _ _ Htm); exact Hload).
  assert (Hattr' : w_hy_macros w' !! mod_id src = Some ls)
    by (rewrite Hattrs;
        apply (get_target_macros_attrs _ _ _ _ _ _ Htgt); exact Hattr).
  assert (Hne' : dict_at w' ls <> []) by (rewrite Hsrc'; exact Hne).
  assert (Htgt' : get_target_macros tm ns target w' = (inr (Some lt), w'))
    by (apply (get_target_macros_again _ _ _ _ _ _ _ Htgt (Htm w') Hattrs)).
  exists w'. rewrite Hrun.
  rewrite (require_explicit _ _ _ _ _ _ _ _ _ _ _ _ _ _
             Hcheck' Hload' Hattr' Hne' Htgt').
  destruct (transfer_pairs_spec src ls lt (dotted_prefix prefix) compiler
              pairs Hdiff Hok w') as (w'' & Hrun' & Htab' & _).
  rewrite Hsrc' in Hrun', Htab'. rewrite Hall in Hrun'.
  exists w''. rewrite Hrun'.
  split; [reflexivity|]. split; [reflexivity|].
  intros k. rewrite Htab', (dict_get_bind_pairs _ _ _ Hall).
  rewrite Htab, (dict_get_bind_pairs _ _ _ Hall).
  destruct (bound_value (dict_at w ls) (dotted_prefix prefix) pairs k);
    reflexivity.
Qed.

(** * Reader macros and the seeding of a module *)

(** The store together with the [_hy_reader_macros] attribute of the
    modules; the dicts it refers to live with the other dicts. *)
Record rworld : Type := mkRWorld {
  rw_world : world;
  rw_hy_reader_macros : gmap nat loc   (* module id -> _hy_reader_macros *)
}.

(** A new empty dict, [{}]. *)
Definition alloc_dict (w : world) : loc * world :=
  (w_next w,
   mkWorld (<[w_next w := []]> (w_dicts w)) (S (w_next w))
           (w_hy_macros w) (w_compiler w)).

(** [getattr(mod, "_hy_reader_macros", {})], read as a table. *)
Definition hy_reader_macros_of (rw : rworld) (m : module) : table :=
  match rw_hy_reader_macros rw !! mod_id m with
  | Some l => dict_at (rw_world rw) l
  | None => []
  end.

(** [namespace.setdefault("_hy_reader_macros", {})] *)
Definition setdefault_hy_reader_macros (m : module) (rw : rworld)
  : loc * rworld :=
  match rw_hy_reader_macros rw !! mod_id m with
  | Some l => (l, rw)
  | None =>
      let '(l, w') := alloc_dict (rw_world rw) in
      (l, mkRWorld w' (<[mod_id m := l]> (rw_hy_reader_macros rw)))
  end.

(** [d[k] = v] on the dict at [l]. *)
Definition rw_setitem (l : loc) (k : string) (v : macro) (rw : rworld)
  : rworld :=
  mkRWorld (set_dict l (dict_set (dict_at (rw_world rw) l) k v) (rw_world rw))
           (rw_hy_reader_macros rw).

(** *** require_reader *)

(** [assignments] of [require_reader]: "ALL" or the names. *)
Inductive reader_assignments : Type :=
| ReaderALL
| ReaderNames (names : list string).

(** The loop of lines 166-170. *)
Fixpoint transfer_readers (source_module : module)
    (source_macros target_macros : loc) (names : list string) (rw : rworld)
  : (error + unit) * rworld :=
  match names with
  | [] => (inr tt, rw)
  | name :: rest =>
      match dict_get (dict_at (rw_world rw) source_macros) name with
      | Some m =>
          transfer_readers source_module source_macros target_macros rest
                           (rw_setitem target_macros name m rw)
      | None =>
          (inl (HyRequireError
                  ("Could not require name " +:+ name +:+ " from "
                   +:+ repr_module source_module)), rw)
      end
  end.

Definition require_reader (parent_frame : module)
    (source_module target_module : pyval) (assignments_ : reader_assignments)
    (rw : rworld) : (error + bool) * rworld :=
  match derive_target_module target_module parent_frame with
  | inl e => (inl e, rw)
  | inr (target_module, target_namespace) =>
      match _same_modules (rw_world rw) source_module target_module with
      | inl e => (inl e, rw)
      | inr true => (inr false, rw)
      | inr false =>
          match
            (match source_module with
             | PModule m => inr m
             | PStr s => import_module_from_string s target_module
             | _ => inl AttributeError
             end)
          with
          | inl e => (inl e, rw)
          | inr source_module =>
              let '(source_macros, rw1) :=
                setdefault_hy_reader_macros source_module rw in
              let '(target_macros, rw2) :=
                setdefault_hy_reader_macros target_namespace rw1 in
              let names :=
                match assignments_ with
                | ReaderALL =>
                    dict_keys (dict_at (rw_world rw2) source_macros)
                | ReaderNames names => names
                end in
              match
                transfer_readers source_module source_macros target_macros
                                 names rw2
              with
              | (inl e, rw') => (inl e, rw')
              | (inr _, rw') => (inr true, rw')
              end
          end
      end
  end.

(** *** enable_readers *)

(** What [enable_readers] can raise besides the errors of
    [derive_target_module]. *)
Inductive reader_error : Type :=
| ReaderRaised (e : error)
| NameError (msg : string)
| KeyError (key : string).

(** The loop of lines 180-183 on a namespace that has the attribute;
    [reader] is the dict [reader.reader_macros]. *)
Fixpoint enable_names (namespace_readers reader : loc) (names : list string)
    (rw : rworld) : (reader_error + unit) * rworld :=
  match names with
  | [] => (inr tt, rw)
  | name :: rest =>
      match dict_get (dict_at (rw_world rw) namespace_readers) name with
      | None => (inl (NameError ("reader " +:+ name +:+ " is not defined")), rw)
      | Some m =>
          enable_names namespace_readers reader rest
                       (rw_setitem reader name m rw)
      end
  end.

Definition enable_readers (parent_frame : module) (module_ : pyval)
    (reader : loc) (names : reader_assignments) (rw : rworld)
  : (reader_error + unit) * rworld :=
  match derive_target_module module_ parent_frame with
  | inl e => (inl (ReaderRaised e), rw)
  | inr (_, namespace) =>
      match rw_hy_reader_macros rw !! mod_id namespace, names with
      | None, ReaderALL => (inl (KeyError "_hy_reader_macros"), rw)
      | None, ReaderNames [] => (inr tt, rw)
      | None, ReaderNames (_ :: _) => (inl (KeyError "_hy_reader_macros"), rw)
      | Some l, ReaderALL =>
          enable_names l reader (dict_keys (dict_at (rw_world rw) l)) rw
      | Some l, ReaderNames names => enable_names l reader names rw
      end
  end.

(** *** load_macros *)

Definition EXTRA_MACROS : list string :=
  ["hy.core.result_macros"; "hy.core.macros"].

(** [d.update(other)] *)
Definition dict_update (d other : table) : table :=
  fold_left (fun acc kv => dict_set acc (fst kv) (snd kv)) other d.

(** The body of the [for] loop for one provider that was imported. *)
Definition merge_provider (module_ builtin_mod : module) (rw : rworld)
  : rworld :=
  let rw1 :=
    match w_hy_macros (rw_world rw) !! mod_id builtin_mod,
          w_hy_macros (rw_world rw) !! mod_id module_ with
    | Some lb, Some lm =>
        mkRWorld
          (set_dict lm (dict_update (dict_at (rw_world rw) lm)
                                    (dict_at (rw_world rw) lb))
                    (rw_world rw))
          (rw_hy_reader_macros rw)
    | _, _ => rw
    end in
  match rw_hy_reader_macros rw1 !! mod_id builtin_mod,
        rw_hy_reader_macros rw1 !! mod_id module_ with
  | Some lb, Some lm =>
      mkRWorld
        (set_dict lm (dict_update (dict_at (rw_world rw1) lm)
                                  (dict_at (rw_world rw1) lb))
                  (rw_world rw1))
        (rw_hy_reader_macros rw1)
  | _, _ => rw1
  end.

Fixpoint load_providers (module_ : module) (providers : list string)
    (rw : rworld) : (error + unit) * rworld :=
  match providers with
  | [] => (inr tt, rw)
  | builtin_mod_name :: rest =>
      match import_module builtin_mod_name None with
      | Imported builtin_mod =>
          load_providers module_ rest (merge_provider module_ builtin_mod rw)
      | ImportFails msg => (inl (ImportError msg), rw)
      | ImportRaises e => (inl (Propagated e), rw)
      end
  end.

Definition load_macros (module_ : module) (rw : rworld)
  : (error + unit) * rworld :=
  let w := rw_world rw in
  (* module._hy_macros = {} *)
  let '(l1, w1) := alloc_dict w in
  let w1 := mkWorld (w_dicts w1) (w_next w1)
                    (<[mod_id module_ := l1]> (w_hy_macros w1))
                    (w_compiler w1) in
  (* module._hy_reader_macros = {} *)
  let '(l2, w2) := alloc_dict w1 in
  load_providers module_ EXTRA_MACROS
    (mkRWorld w2 (<[mod_id module_ := l2]> (rw_hy_reader_macros rw))).

(** ** Reader macros: the two loops *)

(** The first name that the table lacks. *)
Fixpoint readers_first_missing (source : table) (names : list string)
  : option string :=
  match names with
  | [] => None
  | name :: rest =>
      match dict_get source name with
      | Some _ => readers_first_missing source rest
      | None => Some name
      end
  end.

(** The target table after the names are bound in order, up to the first
    name that the source table lacks. *)
Fixpoint readers_bound (source : table) (names : list string) (target : table)
  : table :=
  match names with
  | [] => target
  | name :: rest =>
      match dict_get source name with
      | Some m => readers_bound source rest (dict_set target name m)
      | None => target
      end
  end.

(** [rw'] differs from [rw] at most in the dict at [l]. *)
Definition rw_only_dict_changed (l : loc) (rw rw' : rworld) : Prop :=
  (forall l', l' <> l ->
     w_dicts (rw_world rw') !! l' = w_dicts (rw_world rw) !! l')
  /\ w_hy_macros (rw_world rw') = w_hy_macros (rw_world rw)
  /\ w_next (rw_world rw') = w_next (rw_world rw)
  /\ w_compiler (rw_world rw') = w_compiler (rw_world rw)
  /\ rw_hy_reader_macros rw' = rw_hy_reader_macros rw.

Lemma rw_only_dict_changed_refl l rw : rw_only_dict_changed l rw rw.
Proof. repeat split. Qed.

Lemma rw_only_dict_changed_trans l rw1 rw2 rw3 :
  rw_only_dict_changed l rw1 rw2 -> rw_only_dict_changed l rw2 rw3 ->
  rw_only_dict_changed l rw1 rw3.
Proof.
  intros (Hd & Hm & Hn & Hc & Hr) (Hd' & Hm' & Hn' & Hc' & Hr').
  repeat split; try congruence.
  intros l' Hl. rewrite Hd' by exact Hl. apply Hd. exact Hl.
Qed.

Lemma rw_setitem_frame l k v rw : rw_only_dict_changed l rw (rw_setitem l k v rw).
Proof.
  repeat split. intros l' Hl. unfold rw_setitem, set_dict. simpl.
  apply lookup_insert_ne. congruence.
Qed.

Lemma dict_at_rw_setitem_eq l k v rw :
  dict_at (rw_world (rw_setitem l k v rw)) l
  = dict_set (dict_at (rw_world rw) l) k v.
Proof. unfold rw_setitem. simpl. apply dict_at_set_dict_eq. Qed.

Lemma dict_at_rw_setitem_ne l l' k v rw :
  l <> l' ->
  dict_at (rw_world (rw_setitem l k v rw)) l' = dict_at (rw_world rw) l'.
Proof. intros H. unfold rw_setitem. simpl. apply dict_at_set_dict_ne. exact H. Qed.

Lemma transfer_readers_spec source_module ls lt names :
  ls <> lt ->
  forall rw,
  exists rw',
    transfer_readers source_module ls lt names rw =
      (match readers_first_missing (dict_at (rw_world rw) ls) names with
       | None => inr tt
       | Some name =>
           inl (HyRequireError
                  ("Could not require name " +:+ name +:+ " from "
                   +:+ repr_module source_module))
       end, rw')
    /\ dict_at (rw_world rw') lt
       = readers_bound (dict_at (rw_world rw) ls) names
                       (dict_at (rw_world rw) lt)
    /\ rw_only_dict_changed lt rw rw'.
Proof.
  intros Hne. induction names as [|name rest IH]; intros rw.
  - exists rw. repeat split.
  - simpl.
    destruct (dict_get (dict_at (rw_world rw) ls) name) as [m|] eqn:Hget.
    + destruct (IH (rw_setitem lt name m rw)) as (rw' & Hrun & Htab & Hframe).
      rewrite dict_at_rw_setitem_ne in Hrun, Htab by congruence.
      rewrite dict_at_rw_setitem_eq in Htab.
      exists rw'. split; [exact Hrun|]. split; [exact Htab|].
      eapply rw_only_dict_changed_trans; [apply rw_setitem_frame|exact Hframe].
    + exists rw. repeat split.
Qed.

Lemma enable_names_spec ln reader names :
  ln <> reader ->
  forall rw,
  exists rw',
    enable_names ln reader names rw =
      (match readers_first_missing (dict_at (rw_world rw) ln) names with
       | None => inr tt
       | Some name => inl (NameError ("reader " +:+ name +:+ " is not defined"))
       end, rw')
    /\ dict_at (rw_world rw') reader
       = readers_bound (dict_at (rw_world rw) ln) names
                       (dict_at (rw_world rw) reader)
    /\ rw_only_dict_changed reader rw rw'.
Proof.
  intros Hne. induction names as [|name rest IH]; intros rw.
  - exists rw. repeat split.
  - simpl.
    destruct (dict_get (dict_at (rw_world rw) ln) name) as [m|] eqn:Hget.
    + destruct (IH (rw_setitem reader name m rw))
        as (rw' & Hrun & Htab & Hframe).
      rewrite dict_at_rw_setitem_ne in Hrun, Htab by congruence.
      rewrite dict_at_rw_setitem_eq in Htab.
      exists rw'. split; [exact Hrun|]. split; [exact Htab|].
      eapply rw_only_dict_changed_trans; [apply rw_setitem_frame|exact Hframe].
    + exists rw. repeat split.
Qed.

Lemma dict_get_readers_bound source names :
  readers_first_missing source names = None ->
  forall target k,
    dict_get (readers_bound source names target) k
    = if existsb (String.eqb k) names then dict_get source k
      else dict_get target k.
Proof.
  induction names as [|name rest IH]; intros Hall target k; simpl.
  - reflexivity.
  - simpl in Hall.
    destruct (dict_get source name) as [m|] eqn:Hm; [|discriminate].
    rewrite (IH Hall), dict_get_dict_set.
    destruct (existsb (String.eqb k) rest); [rewrite orb_true_r; reflexivity|].
    rewrite orb_false_r.
    destruct (String.eqb k name) eqn:Hk; [|reflexivity].
    apply String.eqb_eq in Hk. subst k. symmetry. exact Hm.
Qed.

Lemma readers_first_missing_keys source names :
  Forall (fun k => dict_get source k <> None) names ->
  readers_first_missing source names = None.
Proof.
  induction 1 as [|k names Hk _ IH]; simpl; [reflexivity|].
  destruct (dict_get source k); [exact IH|contradiction].
Qed.

Lemma readers_first_missing_all source :
  readers_first_missing source (dict_keys source) = None.
Proof.
  apply readers_first_missing_keys. apply Forall_forall. intros k Hk.
  apply dict_get_key_in. apply list_elem_of_In. exact Hk.
Qed.

(** ** require_reader *)

(** How [require_reader] finds its source module. *)
Definition reader_source (source_module target_module : pyval)
  : error + module :=
  match source_module with
  | PModule m => inr m
  | PStr s => import_module_from_string s target_module
  | _ => inl AttributeError
  end.

Lemma require_reader_run pf source target asg rw tm ns src ls rw1 lt rw2 :
  derive_target_module target pf = inr (tm, ns) ->
  _same_modules (rw_world rw) source tm = inr false ->
  reader_source source tm = inr src ->
  setdefault_hy_reader_macros src rw = (ls, rw1) ->
  setdefault_hy_reader_macros ns rw1 = (lt, rw2) ->
  require_reader pf source target asg rw =
  match
    transfer_readers src ls lt
      (match asg with
       | ReaderALL => dict_keys (dict_at (rw_world rw2) ls)
       | ReaderNames names => names
       end) rw2
  with
  | (inl e, rw') => (inl e, rw')
  | (inr _, rw') => (inr true, rw')
  end.
Proof.
  intros Hd Hs Hsrc H1 H2. unfold require_reader.
  rewrite Hd, Hs. unfold reader_source in Hsrc. rewrite Hsrc, H1, H2.
  reflexivity.
Qed.

(** The two [setdefault] calls create the tables that are missing and
    leave the others as they are. *)
Lemma reader_tables_before src ns rw ls rw1 lt rw2 :
  setdefault_hy_reader_macros src rw = (ls, rw1) ->
  setdefault_hy_reader_macros ns rw1 = (lt, rw2) ->
  ls <> lt ->
  dict_at (rw_world rw2) ls = hy_reader_macros_of rw src
  /\ dict_at (rw_world rw2) lt = hy_reader_macros_of rw ns.
Proof.
  unfold setdefault_hy_reader_macros, hy_reader_macros_of, alloc_dict.
  intros H1 H2 Hne.
  destruct (rw_hy_reader_macros rw !! mod_id src) as [l|] eqn:Hs.
  - injection H1 as <- <-.
    destruct (rw_hy_reader_macros rw !! mod_id ns) as [l'|] eqn:Hn.
    + injection H2 as <- <-. split; reflexivity.
    + injection H2 as <- <-. unfold dict_at. simpl.
      rewrite lookup_insert_eq, lookup_insert_ne by congruence.
      split; reflexivity.
  - injection H1 as <- <-. simpl in H2.
    destruct (decide (mod_id src = mod_id ns)) as [Heq|Hdiff].
    + rewrite Heq, lookup_insert_eq in H2. injection H2 as <- _.
      contradiction.
    + rewrite lookup_insert_ne in H2 by exact Hdiff.
      destruct (rw_hy_reader_macros rw !! mod_id ns) as [l'|] eqn:Hn.
      * injection H2 as <- <-. unfold dict_at. simpl.
        rewrite lookup_insert_eq, lookup_insert_ne by congruence.
        split; reflexivity.
      * injection H2 as <- <-. unfold dict_at. simpl.
        rewrite lookup_insert_eq.
        rewrite lookup_insert_ne, lookup_insert_eq by lia.
        split; reflexivity.
Qed.

(** [require_reader] with a list of names, where the reader-macro tables
    of source and target are two dicts: the names are looked up as they
    are written (nothing is mangled); when the source has them all the
    call returns [True] and the target table has each of them bound as in
    the source and its other names as before; otherwise it raises the
    require error that names the first missing name and the source
    module, and the names before that one stay bound in the target. *)
Theorem require_reader_names pf source target names rw tm ns src ls rw1 lt
    rw2 :
  derive_target_module target pf = inr (tm, ns) ->
  _same_modules (rw_world rw) source tm = inr false ->
  reader_source source tm = inr src ->
  setdefault_hy_reader_macros src rw = (ls, rw1) ->
  setdefault_hy_reader_macros ns rw1 = (lt, rw2) ->
  ls <> lt ->
  let source_table := hy_reader_macros_of rw src in
  exists rw',
    require_reader pf source target (ReaderNames names) rw =
      (match readers_first_missing source_table names with
       | None => inr true
       | Some name =>
           inl (HyRequireError
                  ("Could not require name " +:+ name +:+ " from "
                   +:+ repr_module src))
       end, rw')
    /\ hy_reader_macros_of rw' ns
       = readers_bound source_table names (hy_reader_macros_of rw ns)
    /\ rw_only_dict_changed lt rw2 rw'
    /\ (readers_first_missing source_table names = None ->
        forall k,
          dict_get (hy_reader_macros_of rw' ns) k
          = if existsb (String.eqb k) names then dict_get source_table k
            else dict_get (hy_reader_macros_of rw ns) k).
Proof.
  intros Hd Hs Hsrc H1 H2 Hne source_table.
  rewrite (require_reader_run _ _ _ (ReaderNames names) _ _ _ _ _ _ _ _
             Hd Hs Hsrc H1 H2).
  destruct (transfer_readers_spec src ls lt names Hne rw2)
    as (rw' & Hrun & Htab & Hframe).
  destruct (reader_tables_before _ _ _ _ _ _ _ H1 H2 Hne) as [Hls Hlt].
  rewrite Hls in Hrun. rewrite Hls, Hlt in Htab.
  fold source_table in Hrun, Htab.
  assert (Hattr : rw_hy_reader_macros rw' !! mod_id ns = Some lt).
  { destruct Hframe as (_ & _ & _ & _ & ->).
    unfold setdefault_hy_reader_macros in H2.
    destruct (rw_hy_reader_macros rw1 !! mod_id ns) as [l|] eqn:Hl.
    - injection H2 as <- <-. exact Hl.
    - injection H2 as <- <-. simpl. apply lookup_insert_eq. }
  assert (Htab' : hy_reader_macros_of rw' ns
                  = readers_bound source_table names
                                  (hy_reader_macros_of rw ns))
    by (unfold hy_reader_macros_of at 1; rewrite Hattr; exact Htab).
  exists rw'. rewrite Hrun.
  split; [destruct (readers_first_missing source_table names); reflexivity|].
  split; [exact Htab'|]. split; [exact Hframe|].
  intros Hall k. rewrite Htab'. apply dict_get_readers_bound. exact Hall.
Qed.

(** [require_reader] with "ALL", for a target that is [None], a module
    name or a module, a call that gets past the self-require check and a
    source that loads, where the reader-macro tables of source and target
    are two dicts: the call returns [True], also when the source has no
    reader macros at all (where [require] would return [False]);
    afterwards the target table agrees with the source table on every
    name of the source and has kept its other names. *)
Theorem require_reader_all pf source target rw tm ns src ls rw1 lt rw2 :
  derive_target_module target pf = inr (tm, ns) ->
  _same_modules (rw_world rw) source tm = inr false ->
  reader_source source tm = inr src ->
  setdefault_hy_reader_macros src rw = (ls, rw1) ->
  setdefault_hy_reader_macros ns rw1 = (lt, rw2) ->
  ls <> lt ->
  exists rw',
    require_reader pf source target ReaderALL rw = (inr true, rw')
    /\ (forall k,
          dict_get (hy_reader_macros_of rw' ns) k
          = match dict_get (hy_reader_macros_of rw src) k with
            | Some m => Some m
            | None => dict_get (hy_reader_macros_of rw ns) k
            end)
    /\ rw_only_dict_changed lt rw2 rw'.
Proof.
  intros Hd Hs Hsrc H1 H2 Hne.
  rewrite (require_reader_run _ _ _ ReaderALL _ _ _ _ _ _ _ _
             Hd Hs Hsrc H1 H2).
  destruct (reader_tables_before _ _ _ _ _ _ _ H1 H2 Hne) as [Hls Hlt].
  rewrite Hls.
  set (source_table := hy_reader_macros_of rw src).
  destruct (transfer_readers_spec src ls lt (dict_keys source_table) Hne rw2)
    as (rw' & Hrun & Htab & Hframe).
  rewrite Hls in Hrun. rewrite Hls, Hlt in Htab.
  fold source_table in Hrun, Htab.
  rewrite readers_first_missing_all in Hrun.
  assert (Hattr : rw_hy_reader_macros rw' !! mod_id ns = Some lt).
  { destruct Hframe as (_ & _ & _ & _ & ->).
    unfold setdefault_hy_reader_macros in H2.
    destruct (rw_hy_reader_macros rw1 !! mod_id ns) as [l|] eqn:Hl.
    - injection H2 as <- <-. exact Hl.
    - injection H2 as <- <-. simpl. apply lookup_insert_eq. }
  exists rw'. rewrite Hrun. split; [reflexivity|]. split; [|exact Hframe].
  intros k. unfold hy_reader_macros_of at 1. rewrite Hattr, Htab.
  rewrite (dict_get_readers_bound _ _ (readers_first_missing_all source_table)).
  destruct (existsb (String.eqb k) (dict_keys source_table)) eqn:Hin.
  - destruct (dict_get source_table k) eqn:Hk; [reflexivity|].
    exfalso. clear -Hin Hk.
    induction source_table as [|[k0 v0] t IH]; simpl in *; [discriminate|].
    destruct (String.eqb k k0); [discriminate|]. apply IH; assumption.
  - rewrite (existsb_keys_dict_get _ _ Hin). reflexivity.
Qed.

(** ** enable_readers *)

(** [enable_readers] on a module that has a reader-macro table, into a
    reader whose table is another dict: with "ALL" every reader macro of
    the module is enabled and nothing is raised; with a list of names the
    first name that the module does not define raises
    [NameError "reader <name> is not defined"], after the names before it
    have been enabled.  The tables of the modules are not touched. *)
Theorem enable_readers_enables pf module_ reader asg rw tm ns ln :
  derive_target_module module_ pf = inr (tm, ns) ->
  rw_hy_reader_macros rw !! mod_id ns = Some ln ->
  ln <> reader ->
  let defined := dict_at (rw_world rw) ln in
  let names := match asg with
               | ReaderALL => dict_keys defined
               | ReaderNames names => names
               end in
  exists rw',
    enable_readers pf module_ reader asg rw =
      (match readers_first_missing defined names with
       | None => inr tt
       | Some name => inl (NameError ("reader " +:+ name +:+ " is not defined"))
       end, rw')
    /\ dict_at (rw_world rw') reader
       = readers_bound defined names (dict_at (rw_world rw) reader)
    /\ rw_only_dict_changed reader rw rw'
    /\ (asg = ReaderALL -> readers_first_missing defined names = None)
    /\ (readers_first_missing defined names = None ->
        forall k,
          dict_get (dict_at (rw_world rw') reader) k
          = if existsb (String.eqb k) names then dict_get defined k
            else dict_get (dict_at (rw_world rw) reader) k).
Proof.
  intros Hd Hattr Hne defined names.
  destruct (enable_names_spec ln reader names Hne rw)
    as (rw' & Hrun & Htab & Hframe).
  fold defined in Hrun, Htab.
  exists rw'. split.
  - unfold enable_readers. rewrite Hd, Hattr.
    destruct asg; exact Hrun.
  - split; [exact Htab|]. split; [exact Hframe|]. split.
    + intros ->. apply readers_first_missing_all.
    + intros Hall k. rewrite Htab. apply dict_get_readers_bound. exact Hall.
Qed.


(** ** load_macros *)

Lemma dict_get_not_in (d : table) k :
  ~ In k (dict_keys d) -> dict_get d k = None.
Proof.
  induction d as [|[k0 v0] d IH]; simpl; [reflexivity|].
  intros H. destruct (String.eqb k k0) eqn:Hk.
  - apply String.eqb_eq in Hk. subst k0. exfalso. apply H. left. reflexivity.
  - apply IH. intros Hin. apply H. right. exact Hin.
Qed.

(** [d.update(other)] for a dict [other]: the names of [other] get its
    values, the other names keep theirs. *)
Lemma dict_get_dict_update other :
  List.NoDup (dict_keys other) ->
  forall d k,
    dict_get (dict_update d other) k
    = match dict_get other k with
      | Some v => Some v
      | None => dict_get d k
      end.
Proof.
  unfold dict_update.
  induction other as [|[k0 v0] other IH]; intros Hnd d k; simpl.
  - reflexivity.
  - simpl in Hnd. apply List.NoDup_cons_iff in Hnd. destruct Hnd as [Hk0 Hnd].
    rewrite (IH Hnd), dict_get_dict_set.
    destruct (String.eqb k k0) eqn:Hk.
    + apply String.eqb_eq in Hk. subst k0.
      rewrite (dict_get_not_in _ _ Hk0). reflexivity.
    + reflexivity.
Qed.

(** The tables of a provider are dicts of the store, and their names are
    distinct, as the keys of a dict are. *)
Definition provider_ok (rw : rworld) (b : module) : Prop :=
  (forall l, w_hy_macros (rw_world rw) !! mod_id b = Some l ->
             l < w_next (rw_world rw))
  /\ (forall l, rw_hy_reader_macros rw !! mod_id b = Some l ->
                l < w_next (rw_world rw))
  /\ List.NoDup (dict_keys (hy_macros_of (rw_world rw) b))
  /\ List.NoDup (dict_keys (hy_reader_macros_of rw b)).

(** One round of the loop, for a provider whose tables are other dicts
    than the two tables [lm] and [lr] of the module. *)
Lemma merge_provider_spec module_ b rw lm lr :
  w_hy_macros (rw_world rw) !! mod_id module_ = Some lm ->
  rw_hy_reader_macros rw !! mod_id module_ = Some lr ->
  lm <> lr ->
  (forall l, w_hy_macros (rw_world rw) !! mod_id b = Some l ->
             l <> lm /\ l <> lr) ->
  (forall l, rw_hy_reader_macros rw !! mod_id b = Some l ->
             l <> lm /\ l <> lr) ->
  let rw' := merge_provider module_ b rw in
  dict_at (rw_world rw') lm
    = dict_update (dict_at (rw_world rw) lm) (hy_macros_of (rw_world rw) b)
  /\ dict_at (rw_world rw') lr
     = dict_update (dict_at (rw_world rw) lr) (hy_reader_macros_of rw b)
  /\ (forall l, l <> lm -> l <> lr ->
        w_dicts (rw_world rw') !! l = w_dicts (rw_world rw) !! l)
  /\ w_hy_macros (rw_world rw') = w_hy_macros (rw_world rw)
  /\ rw_hy_reader_macros rw' = rw_hy_reader_macros rw
  /\ w_next (rw_world rw') = w_next (rw_world rw).
Proof.
  intros Hm Hr Hne Hbm Hbr. unfold merge_provider, hy_macros_of,
    hy_reader_macros_of. rewrite Hm.
  destruct (w_hy_macros (rw_world rw) !! mod_id b) as [lb|] eqn:Hlb;
    destruct (rw_hy_reader_macros rw !! mod_id b) as [lrb|] eqn:Hlrb;
    cbn [rw_hy_reader_macros rw_world]; rewrite ?Hlrb, ?Hr;
    cbn [rw_hy_reader_macros rw_world].
  - destruct (Hbm lb eq_refl) as [Hb1 Hb2].
    destruct (Hbr lrb eq_refl) as [Hb3 Hb4].
    rewrite !dict_at_set_dict_eq.
    rewrite !(dict_at_set_dict_ne lm lr) by exact Hne.
    rewrite !(dict_at_set_dict_ne lm lrb) by congruence.
    rewrite (dict_at_set_dict_ne lr lm) by congruence.
    rewrite dict_at_set_dict_eq.
    repeat split.
    intros l H1 H2. unfold set_dict. simpl.
    rewrite !lookup_insert_ne by congruence. reflexivity.
  - destruct (Hbm lb eq_refl) as [Hb1 Hb2].
    rewrite dict_at_set_dict_eq.
    rewrite (dict_at_set_dict_ne lm lr) by exact Hne.
    repeat split.
    intros l H1 H2. unfold set_dict. simpl.
    rewrite !lookup_insert_ne by congruence. reflexivity.
  - destruct (Hbr lrb eq_refl) as [Hb3 Hb4].
    rewrite dict_at_set_dict_eq.
    rewrite (dict_at_set_dict_ne lr lm) by congruence.
    repeat split.
    intros l H1 H2. unfold set_dict. simpl.
    rewrite !lookup_insert_ne by congruence. reflexivity.
  - repeat split.
Qed.

(** The store after the two assignments [module._hy_macros = {}] and
    [module._hy_reader_macros = {}]. *)
Definition after_reset (module_ : module) (rw : rworld) : rworld :=
  let w := rw_world rw in
  let n := w_next w in
  mkRWorld
    (mkWorld (<[S n := []]> (<[n := []]> (w_dicts w))) (S (S n))
             (<[mod_id module_ := n]> (w_hy_macros w)) (w_compiler w))
    (<[mod_id module_ := S n]> (rw_hy_reader_macros rw)).

Lemma load_macros_reset module_ rw :
  load_macros module_ rw
  = load_providers module_ EXTRA_MACROS (after_reset module_ rw).
Proof. reflexivity. Qed.

Lemma after_reset_other module_ rw b :
  mod_id b <> mod_id module_ ->
  (forall l, w_hy_macros (rw_world rw) !! mod_id b = Some l ->
             l < w_next (rw_world rw)) ->
  (forall l, rw_hy_reader_macros rw !! mod_id b = Some l ->
             l < w_next (rw_world rw)) ->
  w_hy_macros (rw_world (after_reset module_ rw)) !! mod_id b
    = w_hy_macros (rw_world rw) !! mod_id b
  /\ rw_hy_reader_macros (after_reset module_ rw) !! mod_id b
     = rw_hy_reader_macros rw !! mod_id b
  /\ hy_macros_of (rw_world (after_reset module_ rw)) b
     = hy_macros_of (rw_world rw) b
  /\ hy_reader_macros_of (after_reset module_ rw) b
     = hy_reader_macros_of rw b.
Proof.
  intros Hne Hm Hr.
  assert (H1 : w_hy_macros (rw_world (after_reset module_ rw)) !! mod_id b
               = w_hy_macros (rw_world rw) !! mod_id b)
    by (simpl; apply lookup_insert_ne; congruence).
  assert (H2 : rw_hy_reader_macros (after_reset module_ rw) !! mod_id b
               = rw_hy_reader_macros rw !! mod_id b)
    by (simpl; apply lookup_insert_ne; congruence).
  split; [exact H1|]. split; [exact H2|].
  unfold hy_macros_of, hy_reader_macros_of. rewrite H1, H2.
  split.
  - destruct (w_hy_macros (rw_world rw) !! mod_id b) as [l|] eqn:Hl;
      [|reflexivity].
    pose proof (Hm l eq_refl). unfold dict_at. simpl.
    rewrite !lookup_insert_ne by lia. reflexivity.
  - destruct (rw_hy_reader_macros rw !! mod_id b) as [l|] eqn:Hl;
      [|reflexivity].
    pose proof (Hr l eq_refl). unfold dict_at. simpl.
    rewrite !lookup_insert_ne by lia. reflexivity.
Qed.

(** [load_macros] on a module that is not one of the two providers:
    when both providers import, the module's macro table afterwards has,
    for every name, the macro of hy.core.macros if it defines the name,
    else that of hy.core.result_macros, else nothing: whatever the
    module had before is gone, and the later provider wins.  The same
    holds for the reader macros.  The two tables are new dicts: every
    dict that existed, the module's old tables included, is left as it
    was, and so are the tables of all other modules. *)
Theorem load_macros_seeds module_ rw b1 b2 :
  import_module "hy.core.result_macros" None = Imported b1 ->
  import_module "hy.core.macros" None = Imported b2 ->
  mod_id b1 <> mod_id module_ ->
  mod_id b2 <> mod_id module_ ->
  provider_ok rw b1 ->
  provider_ok rw b2 ->
  exists rw',
    load_macros module_ rw = (inr tt, rw')
    /\ (forall k,
          dict_get (hy_macros_of (rw_world rw') module_) k
          = match dict_get (hy_macros_of (rw_world rw) b2) k with
            | Some m => Some m
            | None => dict_get (hy_macros_of (rw_world rw) b1) k
            end)
    /\ (forall k,
          dict_get (hy_reader_macros_of rw' module_) k
          = match dict_get (hy_reader_macros_of rw b2) k with
            | Some m => Some m
            | None => dict_get (hy_reader_macros_of rw b1) k
            end)
    /\ (forall l, l < w_next (rw_world rw) ->
          w_dicts (rw_world rw') !! l = w_dicts (rw_world rw) !! l)
    /\ (forall i, i <> mod_id module_ ->
          w_hy_macros (rw_world rw') !! i = w_hy_macros (rw_world rw) !! i
          /\ rw_hy_reader_macros rw' !! i = rw_hy_reader_macros rw !! i).
Proof.
  intros Hi1 Hi2 Hne1 Hne2 (Hm1 & Hr1 & Hnd1 & Hndr1) (Hm2 & Hr2 & Hnd2 & Hndr2).
  rewrite load_macros_reset. unfold EXTRA_MACROS. simpl load_providers.
  rewrite Hi1, Hi2.
  set (n := w_next (rw_world rw)).
  set (rw0 := after_reset module_ rw).
  destruct (after_reset_other module_ rw b1 Hne1 Hm1 Hr1)
    as (Ha1 & Har1 & Ht1 & Htr1).
  destruct (after_reset_other module_ rw b2 Hne2 Hm2 Hr2)
    as (Ha2 & Har2 & Ht2 & Htr2).
  fold rw0 in Ha1, Har1, Ht1, Htr1, Ha2, Har2, Ht2, Htr2.
  assert (Hlm0 : w_hy_macros (rw_world rw0) !! mod_id module_ = Some n)
    by (simpl; apply lookup_insert_eq).
  assert (Hlr0 : (rw_hy_reader_macros rw0 !! mod_id module_ : option loc)
                 = Some (S n))
    by (simpl; apply lookup_insert_eq).
  assert (Hnn : n <> S n) by lia.
  assert (Hfresh : forall (b : module) (l : loc),
            (forall l, w_hy_macros (rw_world rw) !! mod_id b = Some l -> l < n) ->
            w_hy_macros (rw_world rw) !! mod_id b = Some l ->
            l <> n /\ l <> S n)
    by (intros b l Hb Hl; pose proof (Hb l Hl); lia).
  assert (Hfreshr : forall (b : module) (l : loc),
            (forall l, rw_hy_reader_macros rw !! mod_id b = Some l -> l < n) ->
            rw_hy_reader_macros rw !! mod_id b = Some l ->
            l <> n /\ l <> S n)
    by (intros b l Hb Hl; pose proof (Hb l Hl); lia).
  destruct (merge_provider_spec module_ b1 rw0 n (S n) Hlm0 Hlr0 Hnn)
    as (Hd1 & Hdr1 & Hframe1 & Hattr1 & Hrattr1 & Hnext1).
  { intros l Hl. rewrite Ha1 in Hl. exact (Hfresh b1 l Hm1 Hl). }
  { intros l Hl. rewrite Har1 in Hl. exact (Hfreshr b1 l Hr1 Hl). }
  set (rwa := merge_provider module_ b1 rw0) in *.
  assert (Ht2a : hy_macros_of (rw_world rwa) b2 = hy_macros_of (rw_world rw) b2).
  { rewrite <- Ht2. unfold hy_macros_of. rewrite Hattr1, Ha2.
    destruct (w_hy_macros (rw_world rw) !! mod_id b2) as [l|] eqn:Hl;
      [|reflexivity].
    pose proof (Hm2 l eq_refl).
    unfold dict_at. f_equal. apply Hframe1; lia. }
  assert (Htr2a : hy_reader_macros_of rwa b2 = hy_reader_macros_of rw b2).
  { rewrite <- Htr2. unfold hy_reader_macros_of. rewrite Hrattr1, Har2.
    destruct (rw_hy_reader_macros rw !! mod_id b2) as [l|] eqn:Hl;
      [|reflexivity].
    pose proof (Hr2 l eq_refl).
    unfold dict_at. f_equal. apply Hframe1; lia. }
  destruct (merge_provider_spec module_ b2 rwa n (S n))
    as (Hd2 & Hdr2 & Hframe2 & Hattr2 & Hrattr2 & Hnext2).
  { rewrite Hattr1. exact Hlm0. }
  { rewrite Hrattr1. exact Hlr0. }
  { exact Hnn. }
  { intros l Hl. rewrite Hattr1, Ha2 in Hl. exact (Hfresh b2 l Hm2 Hl). }
  { intros l Hl. rewrite Hrattr1, Har2 in Hl. exact (Hfreshr b2 l Hr2 Hl). }
  set (rwb := merge_provider module_ b2 rwa) in *.
  exists rwb. split; [reflexivity|].
  assert (Hn0 : dict_at (rw_world rw0) n = []).
  { unfold dict_at. simpl. rewrite lookup_insert_ne by lia.
    rewrite lookup_insert_eq. reflexivity. }
  assert (Hsn0 : dict_at (rw_world rw0) (S n) = []).
  { unfold dict_at. simpl. rewrite lookup_insert_eq. reflexivity. }
  split; [|split; [|split]].
  - intros k. unfold hy_macros_of at 1. rewrite Hattr2, Hattr1, Hlm0.
    rewrite Hd2, Hd1, Ht2a, Ht1, Hn0.
    rewrite (dict_get_dict_update _ Hnd2), (dict_get_dict_update _ Hnd1).
    destruct (dict_get (hy_macros_of (rw_world rw) b2) k); [reflexivity|].
    destruct (dict_get (hy_macros_of (rw_world rw) b1) k); reflexivity.
  - intros k. unfold hy_reader_macros_of at 1. rewrite Hrattr2, Hrattr1, Hlr0.
    rewrite Hdr2, Hdr1, Htr2a, Htr1, Hsn0.
    rewrite (dict_get_dict_update _ Hndr2), (dict_get_dict_update _ Hndr1).
    destruct (dict_get (hy_reader_macros_of rw b2) k); [reflexivity|].
    destruct (dict_get (hy_reader_macros_of rw b1) k); reflexivity.
  - intros l Hl. rewrite Hframe2, Hframe1 by (fold n in Hl; lia).
    simpl. fold n in Hl. rewrite !lookup_insert_ne by (fold n; lia).
    reflexivity.
  - intros i Hi. rewrite Hattr2, Hattr1, Hrattr2, Hrattr1. simpl.
    rewrite !lookup_insert_ne by congruence. split; reflexivity.
Qed.

(** When the first provider cannot be imported, [load_macros] raises the
    [ImportError], and the module is left with two empty tables: the
    reset is not undone. *)
Theorem load_macros_import_fails module_ rw msg :
  import_module "hy.core.result_macros" None = ImportFails msg ->
  exists rw',
    load_macros module_ rw = (inl (ImportError msg), rw')
    /\ hy_macros_of (rw_world rw') module_ = []
    /\ hy_reader_macros_of rw' module_ = []
    /\ (forall l, l < w_next (rw_world rw) ->
          w_dicts (rw_world rw') !! l = w_dicts (rw_world rw) !! l).
Proof.
  intros Hi. rewrite load_macros_reset. unfold EXTRA_MACROS.
  simpl load_providers. rewrite Hi.
  set (n := w_next (rw_world rw)).
  set (rw0 := after_reset module_ rw).
  assert (Hlm0 : w_hy_macros (rw_world rw0) !! mod_id module_ = Some n)
    by (simpl; apply lookup_insert_eq).
  assert (Hlr0 : (rw_hy_reader_macros rw0 !! mod_id module_ : option loc)
                 = Some (S n))
    by (simpl; apply lookup_insert_eq).
  assert (Hn0 : dict_at (rw_world rw0) n = []).
  { unfold dict_at. simpl. rewrite lookup_insert_ne by lia.
    rewrite lookup_insert_eq. reflexivity. }
  assert (Hsn0 : dict_at (rw_world rw0) (S n) = []).
  { unfold dict_at. simpl. rewrite lookup_insert_eq. reflexivity. }
  exists rw0. split; [reflexivity|].
  unfold hy_macros_of, hy_reader_macros_of. rewrite Hlm0, Hlr0.
  split; [exact Hn0|]. split; [exact Hsn0|].
  intros l Hl. fold n in Hl. simpl.
  rewrite !lookup_insert_ne by (fold n; lia). reflexivity.
Qed.

Lemma dict_set_keys_in (d : table) k v x :
  In x (dict_keys (dict_set d k v)) -> x = k \/ In x (dict_keys d).
Proof.
  induction d as [|[k0 v0] d IH]; simpl.
  - intros [<-|[]]. left. reflexivity.
  - destruct (String.eqb k k0); simpl.
    + intros H. right. exact H.
    + intros [<-|H]; [right; left; reflexivity|].
      destruct (IH H) as [->|Hin]; [left; reflexivity|right; right; exact Hin].
Qed.

(** Assignment keeps the keys of a dict distinct. *)
Lemma dict_set_nodup (d : table) k v :
  List.NoDup (dict_keys d) -> List.NoDup (dict_keys (dict_set d k v)).
Proof.
  induction d as [|[k0 v0] d IH]; simpl; intros Hnd.
  - constructor; [intros []|constructor].
  - apply List.NoDup_cons_iff in Hnd. destruct Hnd as [Hk0 Hnd].
    destruct (String.eqb k k0) eqn:Hk; simpl.
    + constructor; assumption.
    + constructor; [|apply IH; exact Hnd].
      intros Hin. destruct (dict_set_keys_in _ _ _ _ Hin) as [->|Hin'].
      * rewrite String.eqb_refl in Hk. discriminate.
      * contradiction.
Qed.

Lemma dict_update_nodup other :
  forall d, List.NoDup (dict_keys d) ->
            List.NoDup (dict_keys (dict_update d other)).
Proof.
  unfold dict_update.
  induction other as [|[k0 v0] other IH]; intros d Hnd; simpl; [exact Hnd|].
  apply IH. apply dict_set_nodup. exact Hnd.
Qed.

(** [load_macros] on hy.core.macros itself, the second provider: the
    module's own macros and reader macros are lost.  Its tables are
    emptied before the providers are read, so afterwards they hold what
    hy.core.result_macros provides and nothing else. *)
Theorem load_macros_on_provider module_ rw b1 :
  import_module "hy.core.result_macros" None = Imported b1 ->
  import_module "hy.core.macros" None = Imported module_ ->
  mod_id b1 <> mod_id module_ ->
  provider_ok rw b1 ->
  exists rw',
    load_macros module_ rw = (inr tt, rw')
    /\ (forall k,
          dict_get (hy_macros_of (rw_world rw') module_) k
          = dict_get (hy_macros_of (rw_world rw) b1) k)
    /\ (forall k,
          dict_get (hy_reader_macros_of rw' module_) k
          = dict_get (hy_reader_macros_of rw b1) k).
Proof.
  intros Hi1 Hi2 Hne1 (Hm1 & Hr1 & Hnd1 & Hndr1).
  rewrite load_macros_reset. unfold EXTRA_MACROS. simpl load_providers.
  rewrite Hi1, Hi2.
  set (n := w_next (rw_world rw)).
  set (rw0 := after_reset module_ rw).
  destruct (after_reset_other module_ rw b1 Hne1 Hm1 Hr1)
    as (Ha1 & Har1 & Ht1 & Htr1).
  fold rw0 in Ha1, Har1, Ht1, Htr1.
  assert (Hlm0 : w_hy_macros (rw_world rw0) !! mod_id module_ = Some n)
    by (simpl; apply lookup_insert_eq).
  assert (Hlr0 : (rw_hy_reader_macros rw0 !! mod_id module_ : option loc)
                 = Some (S n))
    by (simpl; apply lookup_insert_eq).
  assert (Hnn : n <> S n) by lia.
  destruct (merge_provider_spec module_ b1 rw0 n (S n) Hlm0 Hlr0 Hnn)
    as (Hd1 & Hdr1 & Hframe1 & Hattr1 & Hrattr1 & Hnext1).
  { intros l Hl. rewrite Ha1 in Hl. pose proof (Hm1 l Hl). fold n in H. lia. }
  { intros l Hl. rewrite Har1 in Hl. pose proof (Hr1 l Hl). fold n in H. lia. }
  set (rwa := merge_provider module_ b1 rw0) in *.
  assert (Hn0 : dict_at (rw_world rw0) n = []).
  { unfold dict_at. simpl. rewrite lookup_insert_ne by lia.
    rewrite lookup_insert_eq. reflexivity. }
  assert (Hsn0 : dict_at (rw_world rw0) (S n) = []).
  { unfold dict_at. simpl. rewrite lookup_insert_eq. reflexivity. }
  rewrite Ht1, Hn0 in Hd1. rewrite Htr1, Hsn0 in Hdr1.
  assert (Hlma : w_hy_macros (rw_world rwa) !! mod_id module_ = Some n)
    by (rewrite Hattr1; exact Hlm0).
  assert (Hlra : (rw_hy_reader_macros rwa !! mod_id module_ : option loc)
                 = Some (S n))
    by (rewrite Hrattr1; exact Hlr0).
  exists (merge_provider module_ module_ rwa). split; [reflexivity|].
  unfold merge_provider. rewrite Hlma.
  cbn [rw_hy_reader_macros rw_world]. rewrite Hlra.
  cbn [rw_hy_reader_macros rw_world].
  unfold hy_macros_of, hy_reader_macros_of.
  cbn [rw_hy_reader_macros rw_world w_hy_macros set_dict].
  rewrite Hlma, Hlra.
  rewrite !(dict_at_set_dict_ne n (S n)) by exact Hnn.
  rewrite !dict_at_set_dict_eq.
  rewrite (dict_at_set_dict_ne (S n) n) by lia.
  rewrite dict_at_set_dict_eq.
  fold (hy_macros_of (rw_world rw) b1). fold (hy_reader_macros_of rw b1).
  split; intros k.
  - rewrite Hd1.
    rewrite (dict_get_dict_update _ (dict_update_nodup _ [] (List.NoDup_nil _))).
    rewrite (dict_get_dict_update _ Hnd1).
    destruct (dict_get (hy_macros_of (rw_world rw) b1) k) eqn:E;
      rewrite ?E; reflexivity.
  - rewrite Hdr1.
    rewrite (dict_get_dict_update _ (dict_update_nodup _ [] (List.NoDup_nil _))).
    rewrite (dict_get_dict_update _ Hndr1).
    destruct (dict_get (hy_reader_macros_of rw b1) k) eqn:E;
      rewrite ?E; reflexivity.
Qed.

(** * Installing macros *)

(** ** Function objects *)

(** A code object: the two names [rename_function] replaces; [co_body]
    stands for everything else. *)
Record code : Type := mkCode {
  co_name : string;
  co_qualname : string;
  co_body : nat
}.

(** A function object: what the function constructor takes, and the
    [__dict__] of the object. *)
Record function : Type := mkFunction {
  fn_code : code;                    (* __code__ *)
  fn_globals : module;               (* the module whose namespace is __globals__ *)
  fn_name : string;                  (* __name__ *)
  fn_defaults : nat;                 (* __defaults__, by identity *)
  fn_closure : nat;                  (* __closure__, by identity *)
  fn_dict : list (string * nat)      (* __dict__ *)
}.

(** The store together with the function objects, by identity.  An
    identity outside [fw_functions] is an object without [__code__]. *)
Record fworld : Type := mkFWorld {
  fw_store : rworld;
  fw_functions : gmap macro function;
  fw_next : macro                    (* identity of the next new object *)
}.

Definition fw_world (fw : fworld) : world := rw_world (fw_store fw).

(** [re.sub(pattern, repl, string)] and [hy._compat.PY3_11]. *)
Variable re_sub : string -> string -> string -> string.
Variable PY3_11 : bool.

(** [f.__code__.replace(co_name=new_name, ...)] *)
Definition replace_code (c : code) (new_name : string) : code :=
  mkCode new_name
         (if PY3_11 then
            if has_dot (co_qualname c)
            then re_sub "\.[^.+]\Z" ("." +:+ new_name) (co_qualname c)
            else new_name
          else co_qualname c)
         (co_body c).

(** The object [rename_function] returns.  The constructor gives it an
    empty [__dict__]; line 428 updates that with itself, [f] being by
    then the new function, which leaves it empty. *)
Definition renamed (f : function) (new_name : string) : function :=
  mkFunction (replace_code (fn_code f) new_name) (fn_globals f) new_name
             (fn_defaults f) (fn_closure f) [].

Definition rename_function (f : macro) (new_name : string) (fw : fworld)
  : (error + macro) * fworld :=
  match fw_functions fw !! f with
  | None => (inl AttributeError, fw)             (* f.__code__ *)
  | Some fo =>
      let g := fw_next fw in
      (inr g,
       mkFWorld (fw_store fw) (<[g := renamed fo new_name]> (fw_functions fw))
                (S g))
  end.

Definition install_macro (name : string) (fn module_of : macro) (fw : fworld)
  : (error + macro) * fworld :=
  match mangle_str name with
  | inl e => (inl e, fw)
  | inr name =>
  match rename_function fn name fw with
  | (inl e, fw1) => (inl e, fw1)
  | (inr fn, fw1) =>
      match fw_functions fw1 !! module_of with
      | None => (inl AttributeError, fw1)        (* module_of.__globals__ *)
      | Some mo =>
          match setdefault_hy_macros (fn_globals mo) (fw_world fw1) with
          | (inl e, w1) =>
              (inl e,
               mkFWorld (mkRWorld w1 (rw_hy_reader_macros (fw_store fw1)))
                        (fw_functions fw1) (fw_next fw1))
          | (inr l, w1) =>
              (inr fn,
               mkFWorld
                 (mkRWorld (set_dict l (dict_set (dict_at w1 l) name fn) w1)
                           (rw_hy_reader_macros (fw_store fw1)))
                 (fw_functions fw1) (fw_next fw1))
          end
      end
  end
  end.

(** [macro(name)], applied to the function it decorates. *)
Definition macro_ (name : string) (fn : macro) (fw : fworld)
  : (error + macro) * fworld :=
  install_macro name fn fn fw.

Definition reader_macro (name : string) (fn : macro) (fw : fworld)
  : (error + unit) * fworld :=
  match rename_function fn name fw with
  | (inl e, fw1) => (inl e, fw1)
  | (inr fn, fw1) =>
      match fw_functions fw1 !! fn with
      | None => (inl AttributeError, fw1)        (* fn.__globals__ *)
      | Some fo =>
          let '(l, rw1) :=
            setdefault_hy_reader_macros (fn_globals fo) (fw_store fw1) in
          (inr tt,
           mkFWorld (rw_setitem l name fn rw1) (fw_functions fw1) (fw_next fw1))
      end
  end.

(** ** What the installers leave behind *)

Lemma hy_macros_after_setdefault m w l w1 :
  setdefault_hy_macros m w = (inr l, w1) ->
  w_hy_macros w1 !! mod_id m = Some l
  /\ dict_at w1 l = hy_macros_of w m.
Proof.
  unfold setdefault_hy_macros, hy_macros_of.
  destruct (w_hy_macros w !! mod_id m) as [l0|] eqn:Hl; intros H.
  - injection H as <- <-. split; [exact Hl|]. reflexivity.
  - injection H as <- <-. simpl. split; [apply lookup_insert_eq|].
    unfold dict_at. simpl. rewrite lookup_insert_eq. reflexivity.
Qed.

Lemma setdefault_hy_macros_returns m w :
  exists l w1, setdefault_hy_macros m w = (inr l, w1).
Proof.
  unfold setdefault_hy_macros.
  destruct (w_hy_macros w !! mod_id m); eexists; eexists; reflexivity.
Qed.

(** [install_macro] on function objects: the name is mangled, which
    fails for the empty name; otherwise the macro table of the namespace
    of [module_of] binds the mangled name to a new function object and
    keeps its other entries; the new object carries the mangled name, the
    globals and the code body of [fn] and no attributes of its own; [fn]
    and every other object is left as it was. *)
Theorem install_macro_registers name fn module_of fw fo mo :
  fw_functions fw !! fn = Some fo ->
  fw_functions fw !! module_of = Some mo ->
  fw_functions fw !! fw_next fw = None ->
  let g := fw_next fw in
  let key := mangle name in
  (name = "" ->
   install_macro name fn module_of fw = (inl AssertionError, fw))
  /\ (name <> "" ->
      exists fw' gf,
        install_macro name fn module_of fw = (inr g, fw')
        /\ fw_functions fw' !! g = Some gf
        /\ fn_name gf = key
        /\ co_name (fn_code gf) = key
        /\ co_body (fn_code gf) = co_body (fn_code fo)
        /\ fn_globals gf = fn_globals fo
        /\ fn_dict gf = []
        /\ (forall i, i <> g -> fw_functions fw' !! i = fw_functions fw !! i)
        /\ (forall k,
              dict_get (hy_macros_of (fw_world fw') (fn_globals mo)) k
              = if String.eqb k key then Some g
                else dict_get (hy_macros_of (fw_world fw) (fn_globals mo)) k)
        /\ rw_hy_reader_macros (fw_store fw')
           = rw_hy_reader_macros (fw_store fw)).
Proof.
  intros Hfn Hmo Hfresh g key. split; [intros ->; reflexivity|].
  intros Hname. apply String.eqb_neq in Hname.
  unfold install_macro, mangle_str. rewrite Hname.
  unfold rename_function. rewrite Hfn.
  fold g. fold key. cbn [fw_functions].
  assert (Hgm : g <> module_of)
    by (unfold g; intros Hgm; rewrite Hgm in Hfresh; congruence).
  rewrite lookup_insert_ne by exact Hgm. rewrite Hmo.
  unfold fw_world. cbn [fw_store].
  destruct (setdefault_hy_macros_returns (fn_globals mo) (rw_world (fw_store fw)))
    as (l & w1 & Hset).
  rewrite Hset.
  destruct (hy_macros_after_setdefault _ _ _ _ Hset) as [Hattr Htab].
  eexists. exists (renamed fo key). split; [reflexivity|].
  cbn [fw_functions fw_store rw_world rw_hy_reader_macros].
  split; [apply lookup_insert_eq|].
  do 5 (split; [reflexivity|]).
  split; [intros i Hi; apply lookup_insert_ne; exact (not_eq_sym Hi)|].
  split; [|reflexivity].
  intros k. unfold hy_macros_of at 1.
  change (w_hy_macros (set_dict l (dict_set (dict_at w1 l) key g) w1))
    with (w_hy_macros w1).
  rewrite Hattr, dict_at_set_dict_eq, dict_get_dict_set, Htab. reflexivity.
Qed.

(** A macro installed by the decorator [macro(name)], for a name that is
    not empty, is the one [macroexpand] chooses, in the module where the
    function was defined, for a head symbol whose mangled name is that of
    [name], unless a local scope of the compiler binds the name.  The
    decorator fails the assertion of [mangle] on the empty name, and so
    does the head on the empty symbol. *)
Theorem installed_macro_is_resolved name fn fw fo compiler s :
  fw_functions fw !! fn = Some fo ->
  mangle s = mangle name ->
  (if compiler_given compiler
   then first_scope_binding (fw_world (snd (macro_ name fn fw))) (mangle name)
          (rev (c_local_state_stack
                  (w_compiler (fw_world (snd (macro_ name fn fw))))))
   else None) = None ->
  (name = "" -> fst (macro_ name fn fw) = inl AssertionError)
  /\ (name <> "" ->
      exists g key,
        fst (macro_ name fn fw) = inr g
        /\ head_name (Symbol s)
           = (if String.eqb s "" then inl AssertionError else inr (Some key))
        /\ resolve_macro compiler (fn_globals fo) key
                         (fw_world (snd (macro_ name fn fw)))
           = Some g).
Proof.
  intros Hfn Hs Hscope. split; [intros ->; reflexivity|].
  intros Hname. apply String.eqb_neq in Hname. revert Hscope.
  assert (Hhead : head_name (Symbol s)
                  = if String.eqb s "" then inl AssertionError
                    else inr (Some (mangle name))).
  { unfold head_name, mangle_model. simpl.
    destruct (String.eqb s ""); simpl; [reflexivity|]. rewrite Hs. reflexivity. }
  unfold resolve_macro.
  unfold macro_, install_macro, mangle_str. rewrite Hname.
  unfold rename_function. rewrite Hfn.
  cbn [fw_functions].
  destruct (decide (fw_next fw = fn)) as [Heq|Hne].
  - rewrite Heq, lookup_insert_eq.
    unfold fw_world. cbn [fw_store fn_globals renamed].
    destruct (setdefault_hy_macros_returns (fn_globals fo)
                (rw_world (fw_store fw))) as (l & w1 & Hset).
    rewrite Hset.
    destruct (hy_macros_after_setdefault _ _ _ _ Hset) as [Hattr Htab].
    cbn [snd fst fw_store rw_world]. intros Hscope.
    exists fn, (mangle name). split; [reflexivity|]. split; [exact Hhead|].
    rewrite Hscope. simpl first_module_binding. unfold hy_macros_of at 1.
    change (w_hy_macros (set_dict l (dict_set (dict_at w1 l) (mangle name) fn) w1))
      with (w_hy_macros w1).
    rewrite Hattr, dict_at_set_dict_eq, dict_get_dict_set, String.eqb_refl.
    reflexivity.
  - rewrite lookup_insert_ne by exact Hne. rewrite Hfn.
    unfold fw_world. cbn [fw_store].
    destruct (setdefault_hy_macros_returns (fn_globals fo)
                (rw_world (fw_store fw))) as (l & w1 & Hset).
    rewrite Hset.
    destruct (hy_macros_after_setdefault _ _ _ _ Hset) as [Hattr Htab].
    cbn [snd fst fw_store rw_world]. intros Hscope.
    exists (fw_next fw), (mangle name).
    split; [reflexivity|]. split; [exact Hhead|].
    rewrite Hscope. simpl first_module_binding. unfold hy_macros_of at 1.
    change (w_hy_macros (set_dict l (dict_set (dict_at w1 l) (mangle name)
                                              (fw_next fw)) w1))
      with (w_hy_macros w1).
    rewrite Hattr, dict_at_set_dict_eq, dict_get_dict_set, String.eqb_refl.
    reflexivity.
Qed.

Lemma hy_reader_macros_after_setdefault m rw l rw1 :
  setdefault_hy_reader_macros m rw = (l, rw1) ->
  rw_hy_reader_macros rw1 !! mod_id m = Some l
  /\ dict_at (rw_world rw1) l = hy_reader_macros_of rw m
  /\ w_hy_macros (rw_world rw1) = w_hy_macros (rw_world rw).
Proof.
  unfold setdefault_hy_reader_macros, hy_reader_macros_of.
  destruct (rw_hy_reader_macros rw !! mod_id m) as [l0|] eqn:Hl; intros H.
  - injection H as <- <-. repeat split. exact Hl.
  - simpl in H. injection H as <- <-. simpl.
    split; [apply lookup_insert_eq|]. split; [|reflexivity].
    unfold dict_at. simpl. rewrite lookup_insert_eq. reflexivity.
Qed.

(** [reader_macro] binds the name as it is given, not mangled, in the
    reader table of the namespace where [fn] was defined, to a new
    function object named so; the table keeps its other entries and the
    [_hy_macros] attributes are not touched.  [enable_readers] on that
    module then hands the new object to a reader under that name. *)
Theorem reader_macro_registers name fn fw fo :
  fw_functions fw !! fn = Some fo ->
  let g := fw_next fw in
  exists fw',
    reader_macro name fn fw = (inr tt, fw')
    /\ (exists gf, fw_functions fw' !! g = Some gf
                   /\ fn_name gf = name /\ fn_globals gf = fn_globals fo)
    /\ (forall k,
          dict_get (hy_reader_macros_of (fw_store fw') (fn_globals fo)) k
          = if String.eqb k name then Some g
            else dict_get (hy_reader_macros_of (fw_store fw) (fn_globals fo)) k)
    /\ w_hy_macros (fw_world fw') = w_hy_macros (fw_world fw)
    /\ (forall pf reader,
          rw_hy_reader_macros (fw_store fw') !! mod_id (fn_globals fo)
            <> Some reader ->
          exists rw'',
            enable_readers pf (PModule (fn_globals fo)) reader
                           (ReaderNames [name]) (fw_store fw')
            = (inr tt, rw'')
            /\ dict_get (dict_at (rw_world rw'') reader) name = Some g).
Proof.
  intros Hfn g.
  unfold reader_macro, rename_function. rewrite Hfn. fold g.
  cbn [fw_functions]. rewrite lookup_insert_eq.
  cbn [fw_store fn_globals renamed].
  destruct (setdefault_hy_reader_macros (fn_globals fo) (fw_store fw))
    as [l rw1] eqn:Hset.
  destruct (hy_reader_macros_after_setdefault _ _ _ _ Hset)
    as (Hattr & Htab & Hmac).
  eexists. split; [reflexivity|].
  unfold fw_world. cbn [fw_functions fw_store].
  assert (Hlook : forall k,
            dict_get (hy_reader_macros_of (rw_setitem l name g rw1)
                                          (fn_globals fo)) k
            = if String.eqb k name then Some g
              else dict_get (hy_reader_macros_of (fw_store fw) (fn_globals fo)) k).
  { intros k. unfold hy_reader_macros_of at 1.
    change (rw_hy_reader_macros (rw_setitem l name g rw1))
      with (rw_hy_reader_macros rw1).
    rewrite Hattr, dict_at_rw_setitem_eq, dict_get_dict_set, Htab.
    reflexivity. }
  split.
  { exists (renamed fo name). split; [apply lookup_insert_eq|].
    split; reflexivity. }
  split; [exact Hlook|].
  split; [exact Hmac|].
  intros pf reader Hreader.
  assert (Hne : l <> reader) by (intros ->; apply Hreader; exact Hattr).
  unfold enable_readers. simpl derive_target_module. cbv beta iota.
  change (rw_hy_reader_macros (rw_setitem l name g rw1))
    with (rw_hy_reader_macros rw1).
  destruct (rw_hy_reader_macros rw1 !! mod_id (fn_globals fo)) as [l0|] eqn:Hl0;
    [|congruence].
  assert (l0 = l) by congruence. subst l0.
  destruct (enable_names_spec l reader [name] Hne (rw_setitem l name g rw1))
    as (rw'' & Hrun & Hbound & _).
  rewrite dict_at_rw_setitem_eq in Hrun, Hbound.
  cbn [readers_first_missing readers_bound] in Hrun, Hbound.
  rewrite dict_get_dict_set, String.eqb_refl in Hrun, Hbound.
  exists rw''. split; [exact Hrun|].
  rewrite Hbound, dict_get_dict_set, String.eqb_refl. reflexivity.
Qed.

End Macros.

(** * A worked configuration

    Concrete stand-ins for the parameters and a small store, on which the
    statements above are instantiated and the code is run. *)

(** A stand-in for [mangle] on the names used here: hyphens become
    underscores, everything else is kept. *)
Fixpoint ex_mangle (s : string) : string :=
  match s with
  | EmptyString => EmptyString
  | String c s' =>
      String (if Ascii.eqb c "-"%char then "_"%char else c) (ex_mangle s')
  end.

Definition ex_py_str (x : model) : string := "<object>".

(** The empty keyword is false, every other object is true. *)
Definition ex_py_bool (x : model) : bool :=
  match x with
  | Keyword s => negb (String.eqb s "")
  | _ => true
  end.

Definition ex_wrapper_error : py_exception :=
  mkExc "HyWrapperError" false false
        ["hy.errors.HyWrapperError: Don't know how to wrap <class 'object'>"
         +:+ newline].

(** Models are kept; a plain [object()] cannot be wrapped. *)
Definition ex_as_model (t : model) : py_exception + model :=
  match t with
  | PyObject repr =>
      if String.eqb repr "<object>" then inl ex_wrapper_error else inr t
  | _ => inr t
  end.

Definition ex_replace_hy_obj (obj tree : model) : py_exception + model :=
  ex_as_model obj.

Definition ex_hy_macros : module :=
  mkModule 1 "hy.macros" (Some (Some "/hy/macros.py")) None.
Definition ex_user : module :=
  mkModule 7 "user" (Some (Some "/src/user.hy")) None.
Definition ex_lib : module := mkModule 8 "lib" (Some (Some "/src/lib.hy")) None.
(** A namespace package: [__file__] is [None]. *)
Definition ex_pkg : module := mkModule 9 "pkg" (Some None) None.
Definition ex_pkg_sub : module :=
  mkModule 10 "pkg.sub" (Some (Some "/src/pkg/sub.hy")) None.
(** The file of [ex_user] imported a second time, as another object. *)
Definition ex_main : module :=
  mkModule 17 "__main__" (Some (Some "/src/./user.hy")) None.

Definition ex_import_module (name : string) (package : option string)
  : import_result :=
  if String.eqb name "user" then Imported ex_user
  else if String.eqb name "lib" then Imported ex_lib
  else if String.eqb name "pkg" then Imported ex_pkg
  else if String.eqb name "pkg.sub" then Imported ex_pkg_sub
  else ImportFails ("No module named '" +:+ name +:+ "'").

Definition ex_find_spec (name : string) : find_spec_result :=
  if String.eqb name "user" then Spec true "/src/user.hy"
  else if String.eqb name "lib" then Spec true "/src/lib.hy"
  else if String.eqb name "pkg.sub" then Spec true "/src/pkg/sub.hy"
  else NoSpec.

Definition ex_stat (path : string) : option nat :=
  if String.eqb path "/src/user.hy" then Some 100
  else if String.eqb path "/src/./user.hy" then Some 100
  else if String.eqb path "/src/lib.hy" then Some 101
  else if String.eqb path "/src/pkg/sub.hy" then Some 102
  else if String.eqb path "/src/pkg/user.hy" then Some 103
  else None.

Definition ex_str_is (a b : string) : bool := false.

Definition ex_repr_module (m : module) : string :=
  "<module '" +:+ mod_name m +:+ "'>".

(** The macro bodies, by identity.  None of them touches the store. *)
Definition ex_call_macro (m : macro) (compiler : compiler_arg)
    (args : list model) (w : world) : macro_outcome * world :=
  match m with
  | 1 => (* double *)
      match args with
      | [x] => (Returns (RModel (Expression [Symbol "*"; x; x])), w)
      | _ =>
          (Raises (mkExc "TypeError" false false
                         ["TypeError: double() takes one argument" +:+ newline]),
           w)
      end
  | 2 =>
      (Raises (mkExc "ZeroDivisionError" false false
                     ["ZeroDivisionError: division by zero" +:+ newline]), w)
  | 3 =>
      (Raises (mkExc "HySyntaxError" true false
                     ["hy.errors.HySyntaxError: bad form" +:+ newline]), w)
  | 4 => (Returns (RCompiled (Result "emitted")), w)
  | 5 => (Returns (RModel (Symbol "from-inner-scope")), w)
  | 6 => (Returns (RModel (Symbol "from-module")), w)
  | 7 => (Returns (RModel (Symbol "from-builtins")), w)
  | 8 => (Returns (RModel (Symbol "from-outer-scope")), w)
  | 10 => (Returns (RModel (PyObject "<object>")), w)
  | _ => (Returns (RModel (PyObject "None")), w)
  end.

Definition ex_user_table : table :=
  [("double", 1); ("boom", 2); ("bad_syntax", 3); ("emit", 4); ("which", 6);
   ("opaque", 10)].

Definition ex_dicts : gmap loc table :=
  <[1 := [("which", 7)]]>
  (<[2 := ex_user_table]>
  (<[3 := [("which", 8)]]>
  (<[4 := [("which", 5)]]>
  (<[12 := [("foo", 11); ("_private", 12); ("bar_baz", 13)]]>
  (<[14 := [("m1", 21)]]>
  (<[15 := [("double", 1)]]>
  (<[16 := []]> ∅))))))).

Definition ex_compiler : compiler :=
  mkCompiler 7 (Some "user.hy") (Some "(double 5)") None
             [mkScope 3; mkScope 4] [].

(** builtins -> 1, user -> 2, lib -> 12, pkg.sub -> 14, __main__ -> 15;
    pkg has no [_hy_macros]; dict 16 is a free-standing empty dict. *)
Definition ex_world : world :=
  mkWorld ex_dicts 20
          (<[0 := 1]> (<[7 := 2]> (<[8 := 12]> (<[10 := 14]> (<[17 := 15]> ∅)))))
          ex_compiler.

Definition ex_macroexpand :=
  macroexpand ex_mangle ex_py_str ex_py_bool ex_as_model ex_replace_hy_obj
              ex_call_macro ex_import_module.

Definition ex_require :=
  require ex_mangle ex_import_module ex_find_spec ex_stat ex_str_is
          ex_repr_module ex_hy_macros.

Definition ex_head_name := head_name ex_mangle ex_py_str ex_py_bool.

(** The store with the dict at [l] emptied. *)
Definition ex_without (l : loc) (w : world) : world := set_dict l [] w.

Definition ex_double_5 : model := Expression [Symbol "double"; Integer 5].
Definition ex_which : model := Expression [Symbol "which"].

(** ** Running [macroexpand] *)

(** (double 5) expands to ( * 5 5), and no macro is bound to "*". *)
Example double_expands :
  ex_macroexpand 2 ex_double_5 (PStr "user") NoCompiler false true ex_world
  = Some (inr (VTree (Expression [Symbol "*"; Integer 5; Integer 5])), ex_world).
Proof. reflexivity. Qed.

(** One evaluation of the loop condition is not enough for it. *)
Example double_needs_two_rounds :
  ex_macroexpand 1 ex_double_5 (PStr "user") NoCompiler false true ex_world
  = None.
Proof. reflexivity. Qed.

Example compiler_of_another_module :
  ex_macroexpand 2 ex_double_5 (PStr "lib") TheCompiler false true ex_world
  = Some (inl AssertionError, ex_world).
Proof. reflexivity. Qed.

(** The same name bound in the inner scope, the outer scope, the module
    and the builtins: each table masks the ones after it. *)
Example which_innermost_scope :
  fst <$> ex_macroexpand 2 ex_which (PStr "user") TheCompiler false true ex_world
  = Some (inr (VTree (Symbol "from-inner-scope"))).
Proof. reflexivity. Qed.

Example which_outer_scope :
  fst <$> ex_macroexpand 2 ex_which (PStr "user") TheCompiler false true
            (ex_without 4 ex_world)
  = Some (inr (VTree (Symbol "from-outer-scope"))).
Proof. reflexivity. Qed.

Example which_module :
  fst <$> ex_macroexpand 2 ex_which (PStr "user") TheCompiler false true
            (ex_without 3 (ex_without 4 ex_world))
  = Some (inr (VTree (Symbol "from-module"))).
Proof. reflexivity. Qed.

Example which_builtins :
  fst <$> ex_macroexpand 2 ex_which (PStr "user") TheCompiler false true
            (ex_without 2 (ex_without 3 (ex_without 4 ex_world)))
  = Some (inr (VTree (Symbol "from-builtins"))).
Proof. reflexivity. Qed.

Example which_nowhere :
  fst <$> ex_macroexpand 2 ex_which (PStr "user") TheCompiler false true
            (ex_without 1 (ex_without 2 (ex_without 3 (ex_without 4 ex_world))))
  = Some (inr (VTree ex_which)).
Proof. reflexivity. Qed.

(** Without a compiler the scope stack is not consulted. *)
Example which_without_compiler :
  fst <$> ex_macroexpand 2 ex_which (PStr "user") NoCompiler false true ex_world
  = Some (inr (VTree (Symbol "from-module"))).
Proof. reflexivity. Qed.

(** A head with a falsy element, and an empty symbol as head. *)
Example falsy_dotted_head :
  ex_macroexpand 1
    (Expression [Expression [Symbol "."; Symbol "a"; Integer 0]; Integer 5])
    (PStr "user") NoCompiler false true ex_world
  = Some (inl AssertionError, ex_world).
Proof. reflexivity. Qed.

Example empty_symbol_head :
  ex_macroexpand 1 (Expression [Symbol ""; Integer 5]) (PStr "user")
                 NoCompiler false true ex_world
  = Some (inl AssertionError, ex_world).
Proof. reflexivity. Qed.

(** With the three tables binding "which" to three markers, the macro
    invoked is the innermost one (5), then the module's (6) once the
    scopes are emptied, then the builtin one (7); with no binding at all
    nothing is invoked. *)
Lemma resolution_order_witness :
  resolve_macro TheCompiler ex_user "which" ex_world = Some 5
  /\ ex_macroexpand 1 ex_which (PStr "user") TheCompiler true true ex_world
     = Some (inr (VTree (Symbol "from-inner-scope")), set_this ex_which ex_world)
  /\ ex_macroexpand 1 ex_which (PStr "user") NoCompiler true true ex_world
     = Some (inr (VTree (Symbol "from-module")), ex_world)
  /\ ex_macroexpand 1 ex_which (PStr "user") NoCompiler true true
                    (ex_without 2 ex_world)
     = Some (inr (VTree (Symbol "from-builtins")), ex_without 2 ex_world)
  /\ ex_macroexpand 1 (Expression [Symbol "unbound-name"; Integer 1])
                    (PStr "user") TheCompiler false true ex_world
     = Some (inr (VTree (Expression [Symbol "unbound-name"; Integer 1])),
             ex_world).
Proof.
  pose proof (resolution_order ex_mangle ex_py_str ex_py_bool ex_as_model
                ex_replace_hy_obj ex_call_macro ex_import_module
                TheCompiler ex_user "which" ex_world)
    as (_ & Hscope & _ & _ & Hinvoke & _).
  pose proof (resolution_order ex_mangle ex_py_str ex_py_bool ex_as_model
                ex_replace_hy_obj ex_call_macro ex_import_module
                NoCompiler ex_user "which" ex_world)
    as (_ & _ & _ & _ & Hmodule & _).
  pose proof (resolution_order ex_mangle ex_py_str ex_py_bool ex_as_model
                ex_replace_hy_obj ex_call_macro ex_import_module
                NoCompiler ex_user "which" (ex_without 2 ex_world))
    as (_ & _ & _ & _ & Hbuiltin & _).
  pose proof (resolution_order ex_mangle ex_py_str ex_py_bool ex_as_model
                ex_replace_hy_obj ex_call_macro ex_import_module
                TheCompiler ex_user "unbound_name" ex_world)
    as (_ & _ & _ & _ & _ & Hnone).
  split; [|split; [|split; [|split]]].
  - apply (Hscope [mkScope 3] (mkScope 4) [] 5);
      [reflexivity | reflexivity | reflexivity | constructor].
  - exact (Hinvoke (PStr "user") (Symbol "which") [] 0 true true 5
             eq_refl (or_intror eq_refl) eq_refl eq_refl).
  - exact (Hmodule (PStr "user") (Symbol "which") [] 0 true true 6
             eq_refl (or_introl eq_refl) eq_refl eq_refl).
  - exact (Hbuiltin (PStr "user") (Symbol "which") [] 0 true true 7
             eq_refl (or_introl eq_refl) eq_refl eq_refl).
  - apply (Hnone (PStr "user") (Symbol "unbound-name") [Integer 1] 0 false true);
      [reflexivity | reflexivity | right; reflexivity
      | right; repeat constructor | reflexivity | reflexivity].
Defined.





Example boom_message :
  fst <$> ex_macroexpand 1 (Expression [Symbol "boom"]) (PStr "user")
            NoCompiler false true ex_world
  = Some (inl (HyMacroExpansionError
                 ("expanding macro boom" +:+ newline
                  +:+ "  ZeroDivisionError: division by zero" +:+ newline)
                 (Expression [Symbol "boom"]) None None)).
Proof. reflexivity. Qed.


Definition ex_invoked_forms :=
  invoked_forms ex_mangle ex_py_str ex_py_bool ex_replace_hy_obj ex_call_macro.

(** C9 as the specification states it fails: [compiler.this] is [None]
    before the call and the call form after it, on the normal path and
    on the failure path. *)
Lemma this_not_restored_counterexample :
  c_this (w_compiler ex_world) = None
  /\ ex_macroexpand 2 ex_double_5 (PStr "user") TheCompiler false true ex_world
     = Some (inr (VTree (Expression [Symbol "*"; Integer 5; Integer 5])),
             set_this ex_double_5 ex_world)
  /\ c_this (w_compiler (set_this ex_double_5 ex_world)) = Some ex_double_5
  /\ (exists e,
        ex_macroexpand 2 (Expression [Symbol "boom"]) (PStr "user") TheCompiler
                       false true ex_world
        = Some (inl e, set_this (Expression [Symbol "boom"]) ex_world))
  /\ c_this (w_compiler (set_this (Expression [Symbol "boom"]) ex_world))
     <> c_this (w_compiler ex_world).
Proof.
  split; [reflexivity|]. split; [reflexivity|]. split; [reflexivity|].
  split; [eexists; reflexivity|]. discriminate.
Qed.

(** After the expansion of (double 5), which invokes one macro, the store
    is the initial one with [this] set to that call form; after an
    expansion that invokes none it is the initial store. *)
Lemma compiler_this_witness :
  ex_invoked_forms ex_user TheCompiler false true 2 ex_double_5 ex_world
  = [ex_double_5]
  /\ (forall r w',
        ex_macroexpand 2 ex_double_5 (PStr "user") TheCompiler false true
                       ex_world = Some (r, w') ->
        w' = set_this ex_double_5 ex_world)
  /\ (forall r w',
        ex_macroexpand 2 (Integer 5) (PStr "user") TheCompiler false true
                       ex_world = Some (r, w') ->
        w' = ex_world).
Proof.
  pose proof (compiler_this_set_not_restored ex_mangle ex_py_str ex_py_bool
                ex_as_model ex_replace_hy_obj ex_call_macro ex_import_module
                (PStr "user") ex_user TheCompiler false true)
    as (_ & _ & _ & _ & Hpure).
  split; [reflexivity|]. split.
  - intros r w' H.
    apply (Hpure 2 ex_double_5 ex_world r w' eq_refl (or_intror eq_refl));
      [|exact H].
    intros m args w0. unfold ex_call_macro.
    destruct m as [|[|[|[|[|[|[|[|[|[|[|m]]]]]]]]]]]; try reflexivity.
    destruct args as [|x [|y args]]; reflexivity.
  - intros r w' H.
    apply (Hpure 2 (Integer 5) ex_world r w' eq_refl (or_intror eq_refl));
      [|exact H].
    intros m args w0. unfold ex_call_macro.
    destruct m as [|[|[|[|[|[|[|[|[|[|[|m]]]]]]]]]]]; try reflexivity.
    destruct args as [|x [|y args]]; reflexivity.
Defined.

(** C7 as the specification states it fails: the one-element dotted head
    (. double) is looked up under the name of the plain symbol double,
    and the call ((. double) 5) runs the macro bound to that name. *)
Lemma dotted_head_plain_key_counterexample :
  ex_head_name (Expression [Symbol "."; Symbol "double"])
  = ex_head_name (Symbol "double")
  /\ ex_macroexpand 2
       (Expression [Expression [Symbol "."; Symbol "double"]; Integer 5])
       (PStr "user") NoCompiler false true ex_world
     = ex_macroexpand 2 ex_double_5 (PStr "user") NoCompiler false true ex_world.
Proof. split; reflexivity. Qed.

Lemma dotted_head_name_witness :
  ex_head_name (Expression [Symbol "."; Symbol "a"; Symbol "b"; Symbol "c"])
  = inr (Some "a.b.c")
  /\ ex_macroexpand 1
       (Expression [Expression [Symbol "."; Symbol "a"; Integer 0]; Integer 5])
       (PStr "user") NoCompiler false true ex_world
     = Some (inl AssertionError, ex_world).
Proof.
  pose proof (dotted_head_name ex_mangle ex_py_str ex_py_bool ex_as_model
                ex_replace_hy_obj ex_call_macro ex_import_module)
    as (_ & Habc & _ & Hfalsy & _).
  split.
  - apply Habc; reflexivity.
  - apply (Hfalsy [Symbol "a"; Integer 0] [Integer 5] (PStr "user") ex_user
             NoCompiler false true 0 ex_world);
      [reflexivity | left; reflexivity | reflexivity].
Defined.

(** ** Running [require] *)

Example require_all :
  let r := ex_require ex_user (PStr "lib") PNone ALL "" None NoCompiler ex_world in
  fst r = inr true
  /\ dict_at (snd r) 2
     = ex_user_table ++ [("foo", 11); ("_private", 12); ("bar_baz", 13)].
Proof. split; reflexivity. Qed.

(** "EXPORTS" leaves out the names that start with an underscore, and
    the prefix is joined with a dot before mangling. *)
Example require_exports_with_prefix :
  let r := ex_require ex_user (PModule ex_lib) (PDict 16) EXPORTS "l" None
                      TheCompiler ex_world in
  fst r = inr true
  /\ dict_at (snd r) 16 = [("l.foo", 11); ("l.bar_baz", 13)]
  /\ c_core_shadow_calls (w_compiler (snd r)) = ["l.foo"; "l.bar_baz"].
Proof. repeat split; reflexivity. Qed.

Example require_alias :
  let r := ex_require ex_user (PStr "lib") (PModule ex_user)
                      (Explicit [("bar-baz", "bb")]) "" None NoCompiler
                      ex_world in
  fst r = inr true /\ dict_at (snd r) 2 = ex_user_table ++ [("bb", 13)].
Proof. split; reflexivity. Qed.

(** An empty name stops the loop at [mangle], before anything is bound;
    an empty alias without a prefix stops it after the hook was called. *)
Example require_empty_name :
  ex_require ex_user (PStr "lib") PNone (Explicit [("", "x")]) "" None
             NoCompiler ex_world
  = (inl AssertionError, ex_world).
Proof. reflexivity. Qed.

Example require_empty_alias :
  let r := ex_require ex_user (PStr "lib") PNone (Explicit [("foo", "")]) ""
                      None TheCompiler ex_world in
  fst r = inl AssertionError
  /\ dict_at (snd r) 2 = ex_user_table
  /\ c_core_shadow_calls (w_compiler (snd r)) = [""].
Proof. repeat split; reflexivity. Qed.

(** A dict as target, and a source that is the file of the caller. *)
Example require_all_into_dict :
  let r := ex_require ex_user (PModule ex_main) (PDict 16) ALL "" None
                      NoCompiler ex_world in
  fst r = inr true /\ dict_at (snd r) 16 = [("double", 1)].
Proof. split; reflexivity. Qed.

(** The source's own table as target: the dict grows under the iterator. *)
Example require_all_into_source_table :
  fst (ex_require ex_user (PModule ex_lib) (PDict 12) ALL "p" None NoCompiler
                  ex_world)
  = inl (RuntimeError "dictionary changed size during iteration").
Proof. reflexivity. Qed.

(** A hierarchy of packages: pkg has no macros, pkg.sub has. *)
Example require_submodule :
  let r := ex_require ex_user (PStr "pkg") PNone (Explicit [("sub", "s")]) ""
                      None NoCompiler ex_world in
  fst r = inr true /\ dict_at (snd r) 2 = ex_user_table ++ [("s.m1", 21)].
Proof. split; reflexivity. Qed.

Example require_missing_submodule :
  fst (ex_require ex_user (PStr "pkg") PNone (Explicit [("nosub", "s")]) ""
                  None NoCompiler ex_world)
  = inl (HyRequireError "Cannot import name 'nosub' from 'pkg' (None)").
Proof. reflexivity. Qed.

(** *** Relative names and modules without a file *)

(** A module of the package pkg, and a built-in module, which has no
    [__file__]. *)
Definition ex_pkg_user : module :=
  mkModule 11 "pkg.user" (Some (Some "/src/pkg/user.hy")) None.
Definition ex_sys : module := mkModule 12 "sys" None None.

(** The import system with these two modules: ".user" is resolved
    against the package it is given. *)
Definition ex_import_more (name : string) (package : option string)
  : import_result :=
  if String.eqb name "sys" then Imported ex_sys
  else if String.eqb name "pkg.user" then Imported ex_pkg_user
  else if String.eqb name ".user" then
    match package with
    | Some p =>
        if String.eqb p "pkg" then Imported ex_pkg_user
        else ImportFails ("No module named '" +:+ p +:+ ".user'")
    | None =>
        ImportRaises
          (mkExc "TypeError" false false
                 ["TypeError: the 'package' argument is required to perform "
                  +:+ "a relative import for '.user'" +:+ newline])
    end
  else ex_import_module name package.

(** [find_spec] raises [ImportError] for a relative name without a
    package, and for a submodule of a module that is no package. *)
Definition ex_find_spec_more (name : string) : find_spec_result :=
  if String.prefix "." name then FindSpecError
  else if String.eqb name "sys.foo" then FindSpecError
  else if String.eqb name "pkg.user" then Spec true "/src/pkg/user.hy"
  else ex_find_spec name.

(** The store with the table of pkg.user, dict 13; sys has none yet. *)
Definition ex_more_world : world :=
  mkWorld (<[13 := [("double", 1)]]> ex_dicts) 20
          (<[11 := 13]> (w_hy_macros ex_world)) ex_compiler.

Definition ex_require_more :=
  require ex_mangle ex_import_more ex_find_spec_more ex_stat ex_str_is
          ex_repr_module ex_hy_macros.

(** C3 as the specification states it fails: from the module pkg.user,
    the relative name ".user" is the module itself, source and target are
    one module and one file, and the call returns [True] and binds a new
    name in the module's table. *)
Lemma relative_self_require_counterexample :
  load_source ex_import_more ex_more_world (PStr ".user") None
              (PModule ex_pkg_user)
  = inr ex_pkg_user
  /\ w_hy_macros ex_more_world !! mod_id ex_pkg_user = Some 13
  /\ dict_at ex_more_world 13 = [("double", 1)]
  /\ fst (ex_require_more ex_pkg_user (PStr ".user") (PModule ex_pkg_user)
            (Explicit [("double", "dbl")]) "" None NoCompiler ex_more_world)
     = inr true
  /\ dict_at (snd (ex_require_more ex_pkg_user (PStr ".user")
                     (PModule ex_pkg_user) (Explicit [("double", "dbl")]) ""
                     None NoCompiler ex_more_world)) 13
     = [("double", 1); ("dbl", 1)].
Proof. repeat split; reflexivity. Qed.

Lemma self_require_witness :
  ex_require ex_user (PModule ex_main) PNone ALL "" None NoCompiler ex_world
  = (inr false, ex_world)
  /\ mod_id ex_main <> mod_id ex_user
  /\ ex_require ex_user (PModule ex_user) (PModule ex_user) ALL "" None
                NoCompiler ex_world
     = (inr false, ex_world)
  /\ exists w',
       ex_require_more ex_user (PStr ".user") (PModule ex_pkg_user)
                       (Explicit [("double", "dbl")]) "" None NoCompiler
                       ex_more_world
       = (inr true, w')
       /\ dict_get (dict_at w' 13) "dbl" = Some 1.
Proof.
  split; [|split; [discriminate|split]].
  - apply (self_require_is_noop ex_mangle ex_import_module ex_find_spec ex_stat
             ex_str_is ex_repr_module ex_hy_macros
             ex_user (PModule ex_main) PNone ALL "" None NoCompiler ex_world
             (PStr "user") ex_user eq_refl).
    left. split; [reflexivity|].
    exists "/src/./user.hy", "/src/user.hy", 100. repeat split; reflexivity.
  - apply (self_require_is_noop ex_mangle ex_import_module ex_find_spec ex_stat
             ex_str_is ex_repr_module ex_hy_macros
             ex_user (PModule ex_user) (PModule ex_user) ALL "" None NoCompiler
             ex_world (PModule ex_user) ex_user eq_refl).
    right. split; reflexivity.
  - apply (proj2 (self_require_is_noop ex_mangle ex_import_more
                    ex_find_spec_more ex_stat ex_str_is ex_repr_module
                    ex_hy_macros
                    ex_user (PStr ".user") (PModule ex_pkg_user)
                    (Explicit [("double", "dbl")]) "" None NoCompiler
                    ex_more_world (PModule ex_pkg_user) ex_pkg_user eq_refl)
             ".user" "double" "dbl" ex_pkg_user 13 13 ex_more_world 1);
      [reflexivity | reflexivity | reflexivity | reflexivity | reflexivity
      | discriminate | reflexivity | reflexivity | reflexivity].
Defined.

(** C4 as the specification states it fails: "foo" is in the source
    table and "nope" is not; the call raises, and the target table has
    gained "foo". *)
Lemma partial_transfer_counterexample :
  fst (ex_require ex_user (PStr "lib") PNone
                  (Explicit [("foo", "foo"); ("nope", "nope")]) "" None
                  NoCompiler ex_world)
  = inl (HyRequireError "Could not require name nope from <module 'lib'>")
  /\ dict_at ex_world 2 = ex_user_table
  /\ dict_at (snd (ex_require ex_user (PStr "lib") PNone
                     (Explicit [("foo", "foo"); ("nope", "nope")]) "" None
                     NoCompiler ex_world)) 2
     = ex_user_table ++ [("foo", 11)]
  /\ dict_at (snd (ex_require ex_user (PStr "lib") PNone
                     (Explicit [("foo", "foo"); ("nope", "nope")]) "" None
                     NoCompiler ex_world)) 2
     <> dict_at ex_world 2.
Proof. repeat split; try reflexivity. discriminate. Qed.

Lemma explicit_require_transfer_witness :
  (exists w',
     ex_require ex_user (PStr "lib") PNone
                (Explicit [("foo", "foo"); ("nope", "nope")]) "" None
                NoCompiler ex_world
     = (inl (HyRequireError "Could not require name nope from <module 'lib'>"),
        w')
     /\ dict_at w' 2 = ex_user_table ++ [("foo", 11)])
  /\ (exists w',
        ex_require ex_user (PStr "lib") PNone
                   (Explicit [("foo", "f"); ("bar-baz", "b")]) "" None
                   NoCompiler ex_world
        = (inr true, w')
        /\ dict_at w' 2 = ex_user_table ++ [("f", 11); ("b", 13)]).
Proof.
  split.
  - destruct (explicit_require_transfer ex_mangle ex_import_module
                ex_find_spec ex_stat ex_str_is ex_repr_module ex_hy_macros
                ex_user (PStr "lib") PNone
                [("foo", "foo"); ("nope", "nope")] "" None NoCompiler ex_world
                (PStr "user") (Some ex_user) ex_lib 12 2 ex_world)
      as (w' & Hrun & Htab & _);
      [reflexivity | reflexivity | reflexivity | discriminate | reflexivity
      | discriminate | reflexivity |].
    exists w'. split; [exact Hrun | exact Htab].
  - destruct (explicit_require_transfer ex_mangle ex_import_module
                ex_find_spec ex_stat ex_str_is ex_repr_module ex_hy_macros
                ex_user (PStr "lib") PNone
                [("foo", "f"); ("bar-baz", "b")] "" None NoCompiler ex_world
                (PStr "user") (Some ex_user) ex_lib 12 2 ex_world)
      as (w' & Hrun & Htab & _);
      [reflexivity | reflexivity | reflexivity | discriminate | reflexivity
      | discriminate | reflexivity |].
    exists w'. split; [exact Hrun | exact Htab].
Defined.



(** C10 as the specification states it fails: with [None] as target and
    pkg.user as the calling module, the source ".user" is the file of the
    calling module, and the call returns [True] and binds a new name in
    the module's own table. *)
Lemma none_target_relative_counterexample :
  load_source ex_import_more ex_more_world (PStr ".user") None
              (PStr "pkg.user")
  = inr ex_pkg_user
  /\ fst (ex_require_more ex_pkg_user (PStr ".user") PNone
            (Explicit [("double", "dbl")]) "" None NoCompiler ex_more_world)
     = inr true
  /\ dict_at (snd (ex_require_more ex_pkg_user (PStr ".user") PNone
                     (Explicit [("double", "dbl")]) "" None NoCompiler
                     ex_more_world)) 13
     = [("double", 1); ("dbl", 1)]
  /\ fst (ex_require_more ex_pkg_user (PStr ".user") (PStr "pkg.user")
            (Explicit [("double", "dbl")]) "" None NoCompiler ex_more_world)
     = inr true.
Proof. repeat split; reflexivity. Qed.

Lemma dict_target_witness :
  (exists w',
     ex_require ex_user (PModule ex_main) (PDict 16)
                (Explicit [("double", "dbl")]) "" None NoCompiler ex_world
     = (inr true, w')
     /\ dict_at w' 16 = [("dbl", 1)])
  /\ ex_require ex_user (PModule ex_main) PNone
                (Explicit [("double", "dbl")]) "" None NoCompiler ex_world
     = (inr false, ex_world)
  /\ ex_require ex_user (PModule ex_main) (PStr "user")
                (Explicit [("double", "dbl")]) "" None NoCompiler ex_world
     = (inr false, ex_world)
  /\ ex_require ex_user (PModule ex_main) (PModule ex_user)
                (Explicit [("double", "dbl")]) "" None NoCompiler ex_world
     = (inr false, ex_world)
  /\ (exists w',
        ex_require_more ex_pkg_user (PStr ".user") PNone
                        (Explicit [("double", "dbl")]) "" None NoCompiler
                        ex_more_world
        = (inr true, w')
        /\ dict_get (dict_at w' 13) "dbl" = Some 1).
Proof.
  assert (Hname : same_file ex_find_spec ex_stat ex_world
                            (PModule ex_main) (PStr "user")).
  { split; [reflexivity|].
    exists "/src/./user.hy", "/src/user.hy", 100. repeat split; reflexivity. }
  assert (Hmod : same_file ex_find_spec ex_stat ex_world
                           (PModule ex_main) (PModule ex_user)).
  { split; [reflexivity|].
    exists "/src/./user.hy", "/src/user.hy", 100. repeat split; reflexivity. }
  assert (Hpkg : same_file ex_find_spec_more ex_stat ex_more_world
                           (PModule ex_pkg_user) (PStr "pkg.user")).
  { split; [reflexivity|].
    exists "/src/pkg/user.hy", "/src/pkg/user.hy", 103.
    repeat split; reflexivity. }
  destruct (dict_target_skips_self_check ex_mangle ex_import_module
              ex_find_spec ex_stat ex_str_is ex_repr_module ex_hy_macros
              ex_user (PModule ex_main) 16 [("double", "dbl")] "" None
              NoCompiler ex_world ex_main 15)
    as ((w' & Hrun & Htab & _) & Hnone & Hother & _);
    [exact Hname | reflexivity | reflexivity | discriminate | discriminate
    | reflexivity | reflexivity |].
  destruct (dict_target_skips_self_check ex_mangle ex_import_more
              ex_find_spec_more ex_stat ex_str_is ex_repr_module ex_hy_macros
              ex_pkg_user (PModule ex_pkg_user) 16 [("double", "dbl")] "" None
              NoCompiler ex_more_world ex_pkg_user 13)
    as (_ & _ & _ & Hrel);
    [exact Hpkg | reflexivity | reflexivity | discriminate | discriminate
    | reflexivity | reflexivity |].
  split; [exists w'; split; [exact Hrun | exact Htab]|].
  split; [apply Hnone|].
  split; [|split].
  - apply (Hother (PStr "user") (PModule ex_user) ex_user); [reflexivity|].
    exact Hmod.
  - apply (Hother (PModule ex_user) (PModule ex_user) ex_user); [reflexivity|].
    exact Hmod.
  - apply (Hrel ".user" PNone (PStr "pkg.user") ex_pkg_user "double" "dbl" 13
             1 ex_more_world); reflexivity.
Defined.

(** ** Further runs: loops, relative names, whole tables *)

(** A macro, 9, that expands to its own call form, bound to "forever" in
    the table of user. *)
Definition ex_call_forever (m : macro) (compiler : compiler_arg)
    (args : list model) (w : world) : macro_outcome * world :=
  match m with
  | 9 => (Returns (RModel (Expression (Symbol "forever" :: args))), w)
  | _ => ex_call_macro m compiler args w
  end.

Definition ex_forever_world : world :=
  set_dict 2 (dict_set (dict_at ex_world 2) "forever" 9) ex_world.

Lemma self_expanding_macro_witness :
  macroexpand ex_mangle ex_py_str ex_py_bool ex_as_model ex_replace_hy_obj
              ex_call_forever ex_import_module 1000
              (Expression [Symbol "forever"; Integer 1]) (PStr "user")
              TheCompiler false true ex_forever_world
  = None.
Proof.
  apply (self_expanding_macro_never_returns ex_mangle ex_py_str ex_py_bool ex_as_model
           ex_replace_hy_obj ex_call_forever ex_import_module
           (PStr "user") ex_user TheCompiler true
           (Symbol "forever") [Integer 1] "forever" 9
           (Expression [Symbol "forever"; Integer 1]) ex_forever_world);
    [reflexivity | right; reflexivity | reflexivity | reflexivity
    | reflexivity | reflexivity].
Defined.

Example forever_once :
  fst <$> macroexpand ex_mangle ex_py_str ex_py_bool ex_as_model ex_replace_hy_obj
            ex_call_forever ex_import_module 1
            (Expression [Symbol "forever"; Integer 1]) (PStr "user")
            TheCompiler true true ex_forever_world
  = Some (inr (VTree (Expression [Symbol "forever"; Integer 1]))).
Proof. reflexivity. Qed.

Lemma result_not_ok_witness :
  ex_macroexpand 1 (Expression [Symbol "emit"; Integer 1]) (PStr "user")
                 NoCompiler false false ex_world
  = Some (inr (VTree (Expression [Symbol "emit"; Integer 1])), ex_world)
  /\ exists t, VTree (Expression [Symbol "emit"; Integer 1]) = VTree t.
Proof.
  split; [reflexivity|].
  apply (result_not_ok_returns_tree ex_mangle ex_py_str ex_py_bool ex_as_model
           ex_replace_hy_obj ex_call_macro ex_import_module
           1 (Expression [Symbol "emit"; Integer 1]) (PStr "user") NoCompiler
           false ex_world (VTree (Expression [Symbol "emit"; Integer 1]))
           ex_world).
  reflexivity.
Defined.

(** An import system that resolves ".sub" against the package "pkg". *)
Definition ex_import_relative (name : string) (package : option string)
  : import_result :=
  match package with
  | Some p =>
      if String.eqb name ".sub" && String.eqb p "pkg" then Imported ex_pkg_sub
      else ex_import_module name package
  | None => ex_import_module name package
  end.

(** From the module pkg.x, ".sub" is looked up in the package pkg. *)
Lemma relative_import_witness :
  import_module_from_string ex_import_relative ".sub" (PStr "pkg.x")
  = inr ex_pkg_sub.
Proof.
  apply (relative_import_package ex_import_relative 0 "s"%char "ub"
           (PStr "pkg.x") "pkg.x"); reflexivity.
Defined.

Lemma require_all_or_exports_witness :
  (exists w',
     ex_require ex_user (PStr "lib") PNone EXPORTS "" None NoCompiler ex_world
     = (inr true, w')
     /\ dict_get (dict_at w' 2) "foo" = Some 11
     /\ dict_get (dict_at w' 2) "_private" = None
     /\ dict_get (dict_at w' 2) "double" = Some 1)
  /\ (exists w',
        ex_require ex_user (PStr "lib") PNone ALL "" None NoCompiler ex_world
        = (inr true, w')
        /\ dict_get (dict_at w' 2) "_private" = Some 12).
Proof.
  assert (Hkeys : Forall (fun k => k <> "" /\ ex_mangle k = k)
                         (dict_keys (dict_at ex_world 12))).
  { repeat (constructor; [split; [discriminate | reflexivity]|]).
    constructor. }
  split.
  - destruct (require_all_or_exports ex_mangle ex_import_module
                ex_find_spec ex_stat ex_str_is ex_repr_module ex_hy_macros
                ex_user (PStr "lib") PNone false None NoCompiler ex_world
                (PStr "user") (Some ex_user) ex_lib 12 2 ex_world)
      as (w' & Hrun & Htab & _);
      [reflexivity | reflexivity | reflexivity | discriminate | reflexivity
      | discriminate | exact Hkeys |].
    exists w'. split; [exact Hrun|]. rewrite !Htab. repeat split; reflexivity.
  - destruct (require_all_or_exports ex_mangle ex_import_module
                ex_find_spec ex_stat ex_str_is ex_repr_module ex_hy_macros
                ex_user (PStr "lib") PNone true None NoCompiler ex_world
                (PStr "user") (Some ex_user) ex_lib 12 2 ex_world)
      as (w' & Hrun & Htab & _);
      [reflexivity | reflexivity | reflexivity | discriminate | reflexivity
      | discriminate | exact Hkeys |].
    exists w'. split; [exact Hrun|]. rewrite Htab. reflexivity.
Defined.

(** The hook is called for "nope", which is then found missing, and not
    for the pair after it. *)
Lemma require_core_shadow_calls_witness :
  c_core_shadow_calls
    (w_compiler
       (snd (ex_require ex_user (PStr "lib") PNone
               (Explicit [("foo", "f"); ("nope", "n"); ("bar-baz", "b")])
               "p" None TheCompiler ex_world)))
  = ["p.f"; "p.n"].
Proof.
  exact (require_core_shadow_calls ex_mangle ex_import_module
           ex_find_spec ex_stat ex_str_is ex_repr_module ex_hy_macros
           ex_user (PStr "lib") PNone
           [("foo", "f"); ("nope", "n"); ("bar-baz", "b")] "p" None
           TheCompiler ex_world (PStr "user") (Some ex_user) ex_lib 12 2
           ex_world eq_refl eq_refl eq_refl
           ltac:(discriminate) eq_refl ltac:(discriminate)).
Defined.

Lemma require_again_witness :
  exists w' w'',
    ex_require ex_user (PStr "lib") PNone
               (Explicit [("foo", "f"); ("bar-baz", "b")]) "" None NoCompiler
               ex_world
    = (inr true, w')
    /\ ex_require ex_user (PStr "lib") PNone
                  (Explicit [("foo", "f"); ("bar-baz", "b")]) "" None
                  NoCompiler w'
       = (inr true, w'')
    /\ forall k, dict_get (dict_at w'' 2) k = dict_get (dict_at w' 2) k.
Proof.
  apply (require_again_changes_nothing ex_mangle ex_import_module
           ex_find_spec ex_stat ex_str_is ex_repr_module ex_hy_macros
           ex_user (PStr "lib") PNone [("foo", "f"); ("bar-baz", "b")] ""
           None NoCompiler ex_world (PStr "user") (Some ex_user) ex_lib 12 2
           ex_world);
    [reflexivity | reflexivity | reflexivity | reflexivity | discriminate
    | reflexivity | discriminate | reflexivity | reflexivity].
Defined.

(** ** Running the reader-macro functions and [load_macros] *)

Definition ex_result_macros : module :=
  mkModule 30 "hy.core.result_macros"
           (Some (Some "/hy/core/result_macros.py")) None.
Definition ex_core_macros : module :=
  mkModule 31 "hy.core.macros" (Some (Some "/hy/core/macros.hy")) None.

Definition ex_import_core (name : string) (package : option string)
  : import_result :=
  if String.eqb name "hy.core.result_macros" then Imported ex_result_macros
  else if String.eqb name "hy.core.macros" then Imported ex_core_macros
  else ex_import_module name package.

(** The store of [ex_world] with the tables of the two core modules, at
    17 and 18, and a table of reader macros for lib, at 19. *)
Definition ex_core_world : world :=
  mkWorld (<[17 := [("setv", 40); ("when", 41)]]>
           (<[18 := [("when", 42); ("unless", 43)]]>
           (<[19 := [("r1", 31)]]> ex_dicts)))
          20
          (<[30 := 17]> (<[31 := 18]> (w_hy_macros ex_world)))
          ex_compiler.

Definition ex_rworld : rworld := mkRWorld ex_core_world (<[8 := 19]> ∅).

Definition ex_require_reader :=
  require_reader ex_import_module ex_find_spec ex_stat ex_str_is
                 ex_repr_module.

Example require_reader_self :
  ex_require_reader ex_user (PModule ex_main) PNone ReaderALL ex_rworld
  = (inr false, ex_rworld).
Proof. reflexivity. Qed.

Lemma require_reader_names_witness :
  exists rw',
    ex_require_reader ex_user (PStr "lib") PNone (ReaderNames ["r1"; "zz"; "r1"])
                      ex_rworld
    = (inl (HyRequireError "Could not require name zz from <module 'lib'>"),
       rw')
    /\ hy_reader_macros_of rw' ex_user = [("r1", 31)].
Proof.
  destruct (require_reader_names ex_import_module ex_find_spec ex_stat
              ex_str_is ex_repr_module
              ex_user (PStr "lib") PNone ["r1"; "zz"; "r1"] ex_rworld
              (PStr "user") ex_user ex_lib 19 ex_rworld 20
              (snd (setdefault_hy_reader_macros ex_user ex_rworld)))
    as (rw' & Hrun & Htab & _);
    [reflexivity | reflexivity | reflexivity | reflexivity | reflexivity
    | discriminate |].
  exists rw'. split; [exact Hrun | exact Htab].
Defined.

Lemma require_reader_all_witness :
  exists rw',
    ex_require_reader ex_user (PModule ex_lib) (PStr "user") ReaderALL ex_rworld
    = (inr true, rw')
    /\ dict_get (hy_reader_macros_of rw' ex_user) "r1" = Some 31
    /\ dict_get (hy_reader_macros_of rw' ex_user) "r2" = None.
Proof.
  destruct (require_reader_all ex_import_module ex_find_spec ex_stat
              ex_str_is ex_repr_module
              ex_user (PModule ex_lib) (PStr "user") ex_rworld
              (PModule ex_user) ex_user ex_lib 19 ex_rworld 20
              (snd (setdefault_hy_reader_macros ex_user ex_rworld)))
    as (rw' & Hrun & Htab & _);
    [reflexivity | reflexivity | reflexivity | reflexivity | reflexivity
    | discriminate |].
  exists rw'. split; [exact Hrun|]. rewrite !Htab. split; reflexivity.
Defined.

Lemma enable_readers_witness :
  exists rw',
    enable_readers ex_import_module ex_user (PModule ex_lib) 16
                   (ReaderNames ["r1"; "nope"]) ex_rworld
    = (inl (NameError "reader nope is not defined"), rw')
    /\ dict_at (rw_world rw') 16 = [("r1", 31)].
Proof.
  destruct (enable_readers_enables ex_import_module
              ex_user (PModule ex_lib) 16 (ReaderNames ["r1"; "nope"])
              ex_rworld (PModule ex_lib) ex_lib 19)
    as (rw' & Hrun & Htab & _);
    [reflexivity | reflexivity | discriminate |].
  exists rw'. split; [exact Hrun | exact Htab].
Defined.

Example enable_all_readers :
  let r := enable_readers ex_import_module ex_user (PStr "lib") 16 ReaderALL
                          ex_rworld in
  fst r = inr tt /\ dict_at (rw_world (snd r)) 16 = [("r1", 31)].
Proof. split; reflexivity. Qed.


Lemma ex_provider_ok (b : module) :
  b = ex_result_macros \/ b = ex_core_macros -> provider_ok ex_rworld b.
Proof.
  intros [-> | ->]; (split; [|split; [|split]]).
  all: try (intros l H; vm_compute in H; try discriminate H;
            injection H as <-; vm_compute; lia).
  all: vm_compute; repeat (constructor; [simpl; intuition discriminate|]);
    constructor.
Qed.

Lemma load_macros_seeds_witness :
  exists rw',
    load_macros ex_import_core ex_user ex_rworld = (inr tt, rw')
    /\ dict_get (hy_macros_of (rw_world rw') ex_user) "when" = Some 42
    /\ dict_get (hy_macros_of (rw_world rw') ex_user) "setv" = Some 40
    /\ dict_get (hy_macros_of (rw_world rw') ex_user) "double" = None
    /\ w_dicts (rw_world rw') !! 2 = Some ex_user_table.
Proof.
  destruct (load_macros_seeds ex_import_core ex_user ex_rworld
              ex_result_macros ex_core_macros)
    as (rw' & Hrun & Hm & _ & Hold & _);
    [reflexivity | reflexivity | discriminate | discriminate
    | apply ex_provider_ok; left; reflexivity
    | apply ex_provider_ok; right; reflexivity |].
  exists rw'. split; [exact Hrun|]. rewrite !Hm.
  rewrite (Hold 2) by (simpl; lia).
  repeat split; reflexivity.
Defined.

Example load_macros_tables :
  let r := load_macros ex_import_core ex_user ex_rworld in
  hy_macros_of (rw_world (snd r)) ex_user
  = [("setv", 40); ("when", 42); ("unless", 43)]
  /\ hy_reader_macros_of (snd r) ex_user = [].
Proof. split; reflexivity. Qed.

Lemma load_macros_import_fails_witness :
  exists rw',
    load_macros ex_import_module ex_user ex_rworld
    = (inl (ImportError "No module named 'hy.core.result_macros'"), rw')
    /\ hy_macros_of (rw_world rw') ex_user = [].
Proof.
  destruct (load_macros_import_fails ex_import_module ex_user ex_rworld
              "No module named 'hy.core.result_macros'")
    as (rw' & Hrun & Hm & _); [reflexivity|].
  exists rw'. split; [exact Hrun | exact Hm].
Defined.

Lemma load_macros_on_provider_witness :
  exists rw',
    load_macros ex_import_core ex_core_macros ex_rworld = (inr tt, rw')
    /\ dict_get (hy_macros_of (rw_world rw') ex_core_macros) "unless" = None
    /\ dict_get (hy_macros_of (rw_world rw') ex_core_macros) "when" = Some 41.
Proof.
  destruct (load_macros_on_provider ex_import_core ex_core_macros ex_rworld
              ex_result_macros)
    as (rw' & Hrun & Hm & _);
    [reflexivity | reflexivity | discriminate
    | apply ex_provider_ok; left; reflexivity |].
  exists rw'. split; [exact Hrun|]. rewrite !Hm. split; reflexivity.
Defined.

(** ** Running the installers *)

(** A stand-in for [re.sub] on the one pattern the code uses, for a
    replacement without escapes: a final dot followed by one character
    other than "." and "+" is replaced. *)
Fixpoint ex_sub_last (repl s : string) : string :=
  match s with
  | EmptyString => EmptyString
  | String a s' =>
      match s' with
      | String c EmptyString =>
          if Ascii.eqb a "."%char
             && negb (Ascii.eqb c "."%char || Ascii.eqb c "+"%char)
          then repl
          else String a (ex_sub_last repl s')
      | _ => String a (ex_sub_last repl s')
      end
  end.

Definition ex_re_sub (pattern repl s : string) : string := ex_sub_last repl s.

(** Two functions: 50 was defined in user and carries an attribute, 51
    was defined in lib. *)
Definition ex_fworld : fworld :=
  mkFWorld ex_rworld
           (<[50 := mkFunction (mkCode "f" "Tools.f" 500) ex_user "f" 0 0
                               [("doc", 1)]]>
            (<[51 := mkFunction (mkCode "helper" "helper" 501) ex_lib
                                "helper" 0 0 []]> ∅))
           60.

Example rename_in_place :
  fw_functions (snd (rename_function ex_re_sub true 50 "my_macro" ex_fworld))
    !! 60
  = Some (mkFunction (mkCode "my_macro" "Tools.my_macro" 500) ex_user
                     "my_macro" 0 0 []).
Proof. reflexivity. Qed.

Example rename_not_a_function :
  rename_function ex_re_sub true 7 "my_macro" ex_fworld
  = (inl AttributeError, ex_fworld).
Proof. reflexivity. Qed.

(** The function of user installed on behalf of the function of lib: the
    macro goes to the table of lib. *)
Lemma install_macro_witness :
  (exists fw',
     install_macro ex_mangle ex_re_sub true "my-macro" 50 51 ex_fworld
     = (inr 60, fw')
     /\ dict_get (hy_macros_of (fw_world fw') ex_lib) "my_macro" = Some 60
     /\ dict_get (hy_macros_of (fw_world fw') ex_lib) "foo" = Some 11
     /\ fw_functions fw' !! 50 = fw_functions ex_fworld !! 50)
  /\ install_macro ex_mangle ex_re_sub true "" 50 51 ex_fworld
     = (inl AssertionError, ex_fworld).
Proof.
  split;
    [|apply (install_macro_registers ex_mangle ex_re_sub true "" 50 51
               ex_fworld
               (mkFunction (mkCode "f" "Tools.f" 500) ex_user "f" 0 0
                           [("doc", 1)])
               (mkFunction (mkCode "helper" "helper" 501) ex_lib "helper" 0 0
                           []));
      reflexivity].
  destruct (proj2 (install_macro_registers ex_mangle ex_re_sub true "my-macro"
                     50 51 ex_fworld
                     (mkFunction (mkCode "f" "Tools.f" 500) ex_user "f" 0 0
                                 [("doc", 1)])
                     (mkFunction (mkCode "helper" "helper" 501) ex_lib
                                 "helper" 0 0 [])
                     eq_refl eq_refl eq_refl))
    as (fw' & gf & Hrun & _ & _ & _ & _ & _ & _ & Hother & Htab & _);
    [discriminate|].
  exists fw'. split; [exact Hrun|].
  rewrite !Htab. split; [reflexivity|]. split; [reflexivity|].
  apply Hother. discriminate.
Defined.

Lemma installed_macro_witness :
  exists g key,
    fst (macro_ ex_mangle ex_re_sub true "my-macro" 50 ex_fworld) = inr g
    /\ ex_head_name (Symbol "my_macro") = inr (Some key)
    /\ resolve_macro TheCompiler ex_user key
         (fw_world (snd (macro_ ex_mangle ex_re_sub true "my-macro" 50
                                ex_fworld)))
       = Some g.
Proof.
  apply (installed_macro_is_resolved ex_mangle ex_py_str ex_py_bool ex_re_sub
           true "my-macro" 50 ex_fworld
           (mkFunction (mkCode "f" "Tools.f" 500) ex_user "f" 0 0
                       [("doc", 1)])
           TheCompiler "my_macro");
    [reflexivity | reflexivity | reflexivity | discriminate].
Defined.

(** The installed macro is called by [macroexpand]. *)
Example installed_macro_expands :
  fst <$> ex_macroexpand 1 (Expression [Symbol "my-macro"]) (PStr "user")
            NoCompiler true true
            (fw_world (snd (macro_ ex_mangle ex_re_sub true "my-macro" 50
                                   ex_fworld)))
  = Some (inr (VTree (PyObject "None"))).
Proof. reflexivity. Qed.

Lemma reader_macro_witness :
  exists fw',
    reader_macro ex_re_sub true "my-reader" 51 ex_fworld = (inr tt, fw')
    /\ dict_get (hy_reader_macros_of (fw_store fw') ex_lib) "my-reader"
       = Some 60
    /\ dict_get (hy_reader_macros_of (fw_store fw') ex_lib) "r1" = Some 31
    /\ exists rw'',
         enable_readers ex_import_module ex_user (PModule ex_lib) 16
                        (ReaderNames ["my-reader"]) (fw_store fw')
         = (inr tt, rw'')
         /\ dict_get (dict_at (rw_world rw'') 16) "my-reader" = Some 60.
Proof.
  destruct (reader_macro_registers ex_import_module ex_re_sub true
              "my-reader" 51 ex_fworld
              (mkFunction (mkCode "helper" "helper" 501) ex_lib "helper" 0 0
                          []))
    as (fw' & Hrun & _ & Htab & _ & Henable); [reflexivity|].
  exists fw'. split; [exact Hrun|].
  rewrite !Htab. split; [reflexivity|]. split; [reflexivity|].
  apply (Henable ex_user 16).
  injection Hrun as <-. discriminate.
Defined.
